(** * graphix.linalg: matrices over GF(2)

    A shallow embedding of [src/graphix/linalg.py] (class [MatGF2]) and the
    verification of its elimination, rank and solver routines.

    Layout of the development:
    - [ndarray]: two-dimensional GF(2) arrays as the numpy/galois layer
      provides them, with the indexing, slicing and in-place row and column
      operations the class uses;
    - [heap], [M]: the Python object store.  A [MatGF2] object holds a
      reference [data] to an array object; arrays are mutated in place and
      two [MatGF2] objects may share one array ([MatGF2(m)] for a [MatGF2]
      [m] keeps [m.data], everything else is copied by [galois.GF2]);
    - the methods of [MatGF2] as computations in [M];
    - linear algebra over GF(2) (row spaces and their cardinality);
    - the properties. *)

From Stdlib Require Import ZArith Lia Bool.
From stdpp Require Import base option list.

Local Open Scope nat_scope.

(** ** GF(2) arrays *)

(** Elements of GF(2) are [bool]: addition and subtraction are [xorb],
    multiplication is [andb], [0] is [false] and [1] is [true]. *)

(** A two-dimensional array: numpy keeps the shape apart from the buffer,
    so that a [0 x c] array still knows [c]. *)
Record ndarray := Array {
  nrows : nat;
  ncols : nat;
  body : list (list bool)
}.

Definition wf (a : ndarray) : Prop :=
  length (body a) = nrows a ∧ Forall (λ r, length r = ncols a) (body a).

Definition wfb (a : ndarray) : bool :=
  (length (body a) =? nrows a) && forallb (λ r, length r =? ncols a) (body a).

(** [a[i, j]], [None] when out of range. *)
Definition item (a : ndarray) (i j : nat) : option bool :=
  r ← body a !! i; r !! j.

(** [a[i, j]] read as [0] outside the array (for statements only). *)
Definition entry (a : ndarray) (i j : nat) : bool := default false (item a i j).

(** Python index normalisation: [-n <= i < n], negative counted from the end. *)
Definition norm_index (n : nat) (i : Z) : option nat :=
  if decide (0 ≤ i < Z.of_nat n)%Z then Some (Z.to_nat i)
  else if decide (- Z.of_nat n ≤ i < 0)%Z then Some (Z.to_nat (i + Z.of_nat n))
  else None.

Module np.

(** [np.zeros((r, c))] *)
Definition zeros (r c : nat) : ndarray := Array r c (replicate r (replicate c false)).

(** [a.diagonal()]: the entries [a[i, i]], [i < min(shape)]. *)
Definition diagonal (a : ndarray) : list bool :=
  (λ i, entry a i i) <$> seq 0 (min (nrows a) (ncols a)).

(** [v.nonzero()[0]] for a one-dimensional [v]: the indices of the nonzero
    entries, ascending. *)
Definition nonzero (v : list bool) : list nat :=
  filter (λ i, v !! i = Some true) (seq 0 (length v)).

(** [np.count_nonzero(v)], one-dimensional. *)
Definition count_nonzero1 (v : list bool) : nat := length (filter (λ x, x = true) v).

(** [np.count_nonzero(a)], two-dimensional. *)
Definition count_nonzero (a : ndarray) : nat :=
  foldr (λ r n, count_nonzero1 r + n) 0 (body a).

(** [a[:r, :c]] *)
Definition slice_to (a : ndarray) (r c : nat) : ndarray :=
  Array (min r (nrows a)) (min c (ncols a)) (take c <$> take r (body a)).

(** [a[r:, c:]] *)
Definition slice_from (a : ndarray) (r c : nat) : ndarray :=
  Array (nrows a - r) (ncols a - c) (drop c <$> drop r (body a)).

(** [a[:, c]] *)
Definition column (a : ndarray) (c : nat) : list bool :=
  (λ r, default false (r !! c)) <$> body a.

(** [np.diag(v)] for a one-dimensional [v]: the square matrix with [v] on
    its diagonal. *)
Definition diag (v : list bool) : ndarray :=
  Array (length v) (length v)
    (imap (λ i x, <[i := x]> (replicate (length v) false)) v).

(** [a - b] for galois GF(2) arrays of one shape: entrywise [xorb]. *)
Definition sub (a b : ndarray) : ndarray :=
  Array (nrows a) (ncols a) (zip_with (zip_with xorb) (body a) (body b)).

(** [a.nonzero()], two-dimensional: the positions of the nonzero entries
    in row-major order (numpy returns the row and the column indices as
    two parallel arrays; the list of pairs is their zip). *)
Definition nonzero2 (a : ndarray) : list (nat * nat) :=
  mjoin (imap (λ i r, (λ j, (i, j)) <$> nonzero r) (body a)).

(** [a[[r1, r2]] = a[[r2, r1]]]: the right-hand side is a copy (fancy
    indexing), then position [r1] and position [r2] are assigned in
    that order. *)
Definition swap_rows (a : ndarray) (r1 r2 : nat) : option ndarray :=
  x1 ← body a !! r1; x2 ← body a !! r2;
  Some (Array (nrows a) (ncols a) (<[r2 := x1]> (<[r1 := x2]> (body a)))).

(** [a[:, [c1, c2]] = a[:, [c2, c1]]] *)
Definition swap_cols (a : ndarray) (c1 c2 : nat) : option ndarray :=
  if decide (c1 < ncols a ∧ c2 < ncols a) then
    Some (Array (nrows a) (ncols a)
            ((λ r, <[c2 := default false (r !! c1)]>
                     (<[c1 := default false (r !! c2)]> r)) <$> body a))
  else None.

(** [a[i, :] += a[k, :]] (in GF(2): [xorb]). *)
Definition iadd_row (a : ndarray) (i k : nat) : option ndarray :=
  x ← body a !! i; y ← body a !! k;
  Some (Array (nrows a) (ncols a) (<[i := zip_with xorb x y]> (body a))).

(** [a[idx, :]] for an index list: a new array of the selected rows. *)
Definition take_rows (a : ndarray) (idx : list Z) : option ndarray :=
  rows ← mapM (λ i, k ← norm_index (nrows a) i; body a !! k) idx;
  Some (Array (length idx) (ncols a) rows).

(** [a[:, idx]] for an index list. *)
Definition take_cols (a : ndarray) (idx : list Z) : option ndarray :=
  ks ← mapM (norm_index (ncols a)) idx;
  Some (Array (nrows a) (length idx)
          ((λ r, (λ k, default false (r !! k)) <$> ks) <$> body a)).

(** [a @ b] over GF(2); [None] when the inner dimensions differ. *)
Definition dot (u v : list bool) : bool := foldr xorb false (zip_with andb u v).

Definition matmul (a b : ndarray) : option ndarray :=
  if decide (ncols a = nrows b) then
    Some (Array (nrows a) (ncols b)
            ((λ r, (λ j, dot r (column b j)) <$> seq 0 (ncols b)) <$> body a))
  else None.

End np.

(** ** The object store *)

(** Python exceptions the modelled code can raise.  [Dangling] is not a
    Python exception: it marks a reference that is not an object of the
    store, which no store built by the operations below contains. *)
Inductive exn := IndexError | ValueError | AssertionError | Dangling.

Inductive result (A : Type) := Ok (a : A) | Raise (e : exn).
Arguments Ok {A} a.
Arguments Raise {A} e.

(** A [MatGF2] object is a reference; [objs] gives its [data] attribute, a
    reference to an array object of [arrs]. *)
Definition MatGF2 := nat.
Definition loc := nat.

Record heap := Heap {
  objs : list loc;
  arrs : list ndarray
}.

Definition M (A : Type) : Type := heap → result (A * heap).

#[global] Instance M_ret : MRet M := λ A a h, Ok (a, h).
#[global] Instance M_bind : MBind M := λ A B f m h,
  match m h with
  | Ok (a, h') => f a h'
  | Raise e => Raise e
  end.

Definition raise {A} (e : exn) : M A := λ _, Raise e.

(** An index or key lookup that raises when it fails. *)
Definition lift {A} (e : exn) (o : option A) : M A :=
  match o with Some a => mret a | None => raise e end.

(** The value of a computation, the final store dropped. *)
Definition eval {A} (m : M A) (h : heap) : result A :=
  match m h with Ok (a, _) => Ok a | Raise e => Raise e end.

(** [self.data] *)
Definition get_data (self : MatGF2) : M loc := λ h,
  match objs h !! self with Some l => Ok (l, h) | None => Raise Dangling end.

(** [self.data = l] *)
Definition set_data (self : MatGF2) (l : loc) : M unit := λ h,
  if decide (self < length (objs h))
  then Ok (tt, Heap (<[self := l]> (objs h)) (arrs h))
  else Raise Dangling.

(** Reading the array object at [l], and overwriting it in place. *)
Definition load (l : loc) : M ndarray := λ h,
  match arrs h !! l with Some a => Ok (a, h) | None => Raise Dangling end.

Definition store (l : loc) (a : ndarray) : M unit := λ h,
  if decide (l < length (arrs h))
  then Ok (tt, Heap (objs h) (<[l := a]> (arrs h)))
  else Raise Dangling.

(** A new array object, and a new [MatGF2] object. *)
Definition new_array (a : ndarray) : M loc := λ h,
  Ok (length (arrs h), Heap (objs h) (arrs h ++ [a])).

Definition new_object (l : loc) : M MatGF2 := λ h,
  Ok (length (objs h), Heap (objs h ++ [l]) (arrs h)).

(** [for x in l: s = body x s] *)
Fixpoint for_ {A S} (l : list A) (body : A → S → M S) (s : S) : M S :=
  match l with
  | [] => mret s
  | x :: l' => s' ← body x s; for_ l' body s'
  end.

(** ** class MatGF2 *)

(** What the constructor accepts: another [MatGF2], or array data. *)
Inductive array_like := OfMat (m : MatGF2) | OfArray (a : ndarray).

(** [MatGF2.__init__]: a [MatGF2] argument shares its array with the new
    object; anything else goes through [galois.GF2(data)], which copies. *)
Definition MatGF2_init (data : array_like) : M MatGF2 :=
  match data with
  | OfMat m => l ← get_data m; new_object l
  | OfArray a => l ← new_array a; new_object l
  end.

(** [MatGF2(other.data)] where [other.data] is the array object at [l]. *)
Definition MatGF2_of_data (l : loc) : M MatGF2 :=
  a ← load l; MatGF2_init (OfArray a).

(** [__matmul__] *)
Definition matmul (self : MatGF2) (other : array_like) : M MatGF2 :=
  other ← match other with
          | OfArray _ => MatGF2_init other
          | OfMat m => mret m
          end;
  la ← get_data self; a ← load la;
  lb ← get_data other; b ← load lb;
  c ← lift ValueError (np.matmul a b);
  MatGF2_init (OfArray c).

(** [copy] *)
Definition copy (self : MatGF2) : M MatGF2 :=
  l ← get_data self; a ← load l; MatGF2_init (OfArray a).

(** [swap_row] *)
Definition swap_row (self : MatGF2) (row1 row2 : Z) : M unit :=
  l ← get_data self; a ← load l;
  a' ← lift IndexError
         (r1 ← norm_index (nrows a) row1; r2 ← norm_index (nrows a) row2;
          np.swap_rows a r1 r2);
  store l a'.

(** [swap_col] *)
Definition swap_col (self : MatGF2) (col1 col2 : Z) : M unit :=
  l ← get_data self; a ← load l;
  a' ← lift IndexError
         (c1 ← norm_index (ncols a) col1; c2 ← norm_index (ncols a) col2;
          np.swap_cols a c1 c2);
  store l a'.

(** [permute_row]: [self.data] is rebound to a new array. *)
Definition permute_row (self : MatGF2) (row_permutation : list Z) : M unit :=
  l ← get_data self; a ← load l;
  a' ← lift IndexError (np.take_rows a row_permutation);
  l' ← new_array a';
  set_data self l'.

(** [permute_col] *)
Definition permute_col (self : MatGF2) (col_permutation : list Z) : M unit :=
  l ← get_data self; a ← load l;
  a' ← lift IndexError (np.take_cols a col_permutation);
  l' ← new_array a';
  set_data self l'.

(** [self.data[i, j]] *)
Definition getitem (self : MatGF2) (i j : nat) : M bool :=
  l ← get_data self; a ← load l; lift IndexError (item a i j).

(** [self.data[i, :] += self.data[k, :]] *)
Definition iadd_row (self : MatGF2) (i k : nat) : M unit :=
  l ← get_data self; a ← load l;
  a' ← lift IndexError (np.iadd_row a i k);
  store l a'.

(** *** is_canonical_form *)

(** How the scan over the nonzero diagonal indices ends: it runs through,
    leaves by [break], or leaves the method by [return False]. *)
Inductive flow := Through | Break | ReturnFalse.

Fixpoint diag_scan (diag : list bool) (nonzero_diag_index : list nat)
    (rng : list nat) : option flow :=
  match rng with
  | [] => Some Through
  | i :: rng' =>
      k ← nonzero_diag_index !! i;
      d ← diag !! k;
      if negb d then
        if negb (np.count_nonzero1 (drop i diag) =? 0) then Some Break
        else Some ReturnFalse
      else diag_scan diag nonzero_diag_index rng'
  end.

Definition is_canonical_form (self : MatGF2) : M bool :=
  l ← get_data self; a ← load l;
  let diag := np.diagonal a in
  let nonzero_diag_index := np.nonzero diag in
  let rank := length nonzero_diag_index in
  fl ← lift IndexError
         (diag_scan diag nonzero_diag_index (seq 0 (length nonzero_diag_index)));
  match fl with
  | ReturnFalse => mret false
  | _ =>
      ref_array ← MatGF2_init
                    (OfArray (np.diag (np.diagonal (np.slice_to a rank rank))));
      lr ← get_data ref_array; r ← load lr;
      if negb (np.count_nonzero (np.sub (np.slice_to a rank rank) r) =? 0)
      then mret false
      else mret (np.count_nonzero (np.slice_from a rank 0) =? 0)
  end.

(** *** forward_eliminate *)

(** [l.index(x)]: the first position of [x]. *)
Fixpoint index (l : list nat) (x : nat) : option nat :=
  match l with
  | [] => None
  | y :: l' => if decide (y = x) then Some 0 else S <$> index l' x
  end.

(** The bookkeeping after a swap of positions [k] and [pivot]: both
    positions are looked up by value, then both entries are overwritten. *)
Definition record_swap (permutation : list nat) (k pivot : nat) : M (list nat) :=
  former ← lift ValueError (index permutation k);
  former_pivot ← lift ValueError (index permutation pivot);
  mret (<[former_pivot := k]> (<[former := pivot]> permutation)).

(** The pivot search of one round; [None] stands for [break]. *)
Definition pivot_step (mat_a b : MatGF2) (row : nat)
    (row_permutation col_permutation : list nat)
    : M (option (list nat * list nat)) :=
  d ← getitem mat_a row row;
  if negb d then
    l ← get_data mat_a; a ← load l;
    match np.nonzero2 (np.slice_from a row row) with
    | [] => mret None
    | (p0, p1) :: _ =>
        let pivot_row := p0 + row in
        row_permutation ←
          (if decide (pivot_row ≠ row) then
             swap_row mat_a (Z.of_nat row) (Z.of_nat pivot_row);;
             swap_row b (Z.of_nat row) (Z.of_nat pivot_row);;
             record_swap row_permutation row pivot_row
           else mret row_permutation);
        let pivot_col := p1 + row in
        col_permutation ←
          (if decide (pivot_col ≠ row) then
             swap_col mat_a (Z.of_nat row) (Z.of_nat pivot_col);;
             record_swap col_permutation row pivot_col
           else mret col_permutation);
        d' ← getitem mat_a row row;
        if (d' : bool) then mret (Some (row_permutation, col_permutation))
        else raise AssertionError
    end
  else mret (Some (row_permutation, col_permutation)).

(** The elimination of one round.  The source iterates over a Python set;
    the rows are taken in ascending order here (each step changes one row
    other than [row], so the order does not matter: [eliminated_any_order]). *)
Definition eliminate (mat_a b : MatGF2) (row : nat) : M unit :=
  l ← get_data mat_a; a ← load l;
  let eliminate_rows := filter (λ i, i ≠ row) (np.nonzero (np.column a row)) in
  for_ eliminate_rows
    (λ eliminate_row _, iadd_row mat_a eliminate_row row;; iadd_row b eliminate_row row) tt.

(** [for row in range(max_rank): ...] *)
Fixpoint eliminate_loop (mat_a b : MatGF2) (rng : list nat)
    (row_permutation col_permutation : list nat) : M (list nat * list nat) :=
  match rng with
  | [] => mret (row_permutation, col_permutation)
  | row :: rng' =>
      r ← pivot_step mat_a b row row_permutation col_permutation;
      match r with
      | None => mret (row_permutation, col_permutation)
      | Some (row_permutation, col_permutation) =>
          eliminate mat_a b row;;
          eliminate_loop mat_a b rng' row_permutation col_permutation
      end
  end.

Definition forward_eliminate (self : MatGF2) (b : option array_like) (copy : bool)
    : M (MatGF2 * MatGF2 * list nat * list nat) :=
  mat_a ← (if copy then l ← get_data self; MatGF2_of_data l else mret self);
  la ← get_data mat_a; a ← load la;
  b ← MatGF2_init (match b with
                   | None => OfArray (np.zeros (nrows a) 1)
                   | Some b => b
                   end);
  let row_permutation := seq 0 (nrows a) in
  let col_permutation := seq 0 (ncols a) in
  let max_rank := min (nrows a) (ncols a) in
  '(row_permutation, col_permutation) ←
    eliminate_loop mat_a b (seq 0 max_rank) row_permutation col_permutation;
  mret (mat_a, b, row_permutation, col_permutation).

(** *** get_rank *)

Definition get_rank (self : MatGF2) : M nat :=
  c ← is_canonical_form self;
  mat_a ← (if negb c then r ← forward_eliminate self None true; mret r.1.1.1
           else mret self);
  l ← get_data mat_a; a ← load l;
  mret (length (np.nonzero (np.diagonal a))).

(** *** backward_substitute *)

(** The sympy values the solver builds.  [Xor] is kept as the syntax tree
    of the [^=] steps; sympy's own normal form is not modelled. *)
Inductive sympy := nan | strue | sfalse | Symbol (i : nat) | Xor (x y : sympy).

(** [sp.symbols(f"x0:{n}")] *)
Definition symbols (n : nat) : list sympy := Symbol <$> seq 0 n.

(** [for x in l: acc = step acc x] where a step can fail. *)
Fixpoint ofold {A S} (step : S → A → option S) (s : S) (l : list A) : option S :=
  match l with
  | [] => Some s
  | x :: l' => s' ← step s x; ofold step s' l'
  end.

(** One round of [for col in range(b.data.shape[1])]: the column of [x]
    for the column [b_col] of [b]. *)
Definition solve_col (a : ndarray) (b_col : list bool) (rank : nat)
    (kernels : list sympy) : option (list sympy) :=
  if negb (np.count_nonzero1 (drop rank b_col) =? 0) then
    Some ((λ _, nan) <$> seq 0 (ncols a))
  else
    x_col ← ofold (λ x_col row,
               bit ← b_col !! row;
               let sol := if (bit : bool) then strue else sfalse in
               r ← body a !! row;
               let kernel_index := np.nonzero (drop rank r) in
               sol ← ofold (λ sol k, s ← kernels !! k; Some (Xor sol s)) sol kernel_index;
               Some (sol :: x_col))
             [] (reverse (seq 0 rank));
    ofold (λ x_col row, s ← kernels !! (row - rank); Some (x_col ++ [s]))
      x_col (seq rank (ncols a - rank)).

(** [np.array(x).T] for a list [x] of equally long lists: entry [(i, j)] of
    the result is [x[j][i]]; the empty list gives the empty array. *)
Definition array_T {A} (x : list (list A)) : list (list A) :=
  match x with
  | [] => []
  | c :: _ => (λ i, omap (λ col, col !! i) x) <$> seq 0 (length c)
  end.

(** Once [rank] is known and [b] is wrapped the method only reads: the two
    arrays are read once here. *)
Definition backward_substitute (self : MatGF2) (b : array_like)
    : M (list (list sympy) * list sympy) :=
  rank ← get_rank self;
  b ← MatGF2_init b;
  l ← get_data self; a ← load l;
  lb ← get_data b; bb ← load lb;
  let kernels := symbols (ncols a - rank) in
  x ← lift IndexError
        (mapM (λ col, solve_col a (np.column bb col) rank kernels)
           (seq 0 (ncols bb)));
  mret (array_T x, kernels).

(** ** The rest of the class

    Comparison and arithmetic ([__eq__], [__add__], [__sub__], [__mul__])
    and the methods that add, remove and join rows and columns.
    [__repr__] and [__str__] format the array as text and are not
    modelled. *)

Module numpy.

(** *** Elementwise operations

    A binary operation on two arrays works on their common broadcast
    shape: along each axis the lengths are equal, or one of them is [1]
    and that array is repeated along the axis. *)

Definition broadcast_dim (m n : nat) : option nat :=
  if decide (m = n) then Some m
  else if decide (m = 1) then Some n
  else if decide (n = 1) then Some m
  else None.

(** [a] read at position [(i, j)] of the broadcast shape. *)
Definition stretched (a : ndarray) (i j : nat) : bool :=
  entry a (if decide (nrows a = 1) then 0 else i)
          (if decide (ncols a = 1) then 0 else j).

(** [None] when the shapes do not broadcast (numpy raises [ValueError]). *)
Definition elementwise (f : bool → bool → bool) (a b : ndarray) : option ndarray :=
  r ← broadcast_dim (nrows a) (nrows b);
  c ← broadcast_dim (ncols a) (ncols b);
  Some (Array r c
          ((λ i, (λ j, f (stretched a i j) (stretched b i j)) <$> seq 0 c) <$> seq 0 r)).

(** [a + b], [a - b] and [a * b] on galois GF(2) arrays. *)
Definition add : ndarray → ndarray → option ndarray := elementwise xorb.
Definition subtract : ndarray → ndarray → option ndarray := elementwise xorb.
Definition multiply : ndarray → ndarray → option ndarray := elementwise andb.

(** [a == b]: an array of truth values, held in the same record. *)
Definition equal : ndarray → ndarray → option ndarray := elementwise eqb.

(** [np.all(a)] *)
Definition all (a : ndarray) : bool := forallb (forallb id) (body a).

(** *** Reshaping, inserting, deleting, joining *)

(** [x.reshape((1, c))]: the elements of [x] in row-major order as one
    row; [None] when [x] does not have [c] elements ([ValueError]). *)
Definition reshape_row (x : ndarray) (c : nat) : option ndarray :=
  let flat := mjoin (body x) in
  if decide (length flat = c) then Some (Array 1 c [flat]) else None.

(** The position a scalar index [obj] of [np.insert] stands for, along an
    axis of length [n]: [-n <= obj <= n], a negative one counted from the
    end; [None] outside ([IndexError]). *)
Definition insert_index (n : nat) (obj : Z) : option nat :=
  if decide (0 ≤ obj ≤ Z.of_nat n)%Z then Some (Z.to_nat obj)
  else if decide (- Z.of_nat n ≤ obj < 0)%Z then Some (Z.to_nat (obj + Z.of_nat n))
  else None.

(** [np.insert(a, obj, values, axis=0)] for a scalar [obj] and [values]
    of shape [(m, a.shape[1])]: the rows of [values] are put before
    position [obj]. *)
Definition insert_axis0 (a : ndarray) (obj : Z) (values : ndarray) : option ndarray :=
  index ← insert_index (nrows a) obj;
  Some (Array (nrows a + nrows values) (ncols a)
          (take index (body a) ++ body values ++ drop index (body a))).

(** [np.insert(a, obj, values, axis=1)] for a scalar [obj] and [values]
    of shape [(1, a.shape[0])]: numpy moves the first axis of [values] to
    axis 1, which makes it one column, and puts it before position
    [obj]. *)
Definition insert_axis1 (a : ndarray) (obj : Z) (values : ndarray) : option ndarray :=
  index ← insert_index (ncols a) obj;
  let moved := mjoin (body values) in
  Some (Array (nrows a) (ncols a + 1)
          (zip_with (λ r x, take index r ++ x :: drop index r) (body a) moved)).

(** [np.delete(a, obj, axis=0)] and [np.delete(a, obj, axis=1)] for an
    integer [obj]: [-n <= obj < n], else [IndexError]. *)
Definition delete_axis0 (a : ndarray) (obj : Z) : option ndarray :=
  k ← norm_index (nrows a) obj;
  Some (Array (nrows a - 1) (ncols a) (delete k (body a))).

Definition delete_axis1 (a : ndarray) (obj : Z) : option ndarray :=
  k ← norm_index (ncols a) obj;
  Some (Array (nrows a) (ncols a - 1) (delete k <$> body a)).

(** [np.concatenate((a, b), axis=axis)] for an integer [axis]: the axis
    is one of [-2 .. 1] and the lengths along the other axis are equal;
    [None] otherwise (numpy raises [AxisError], which is a [ValueError],
    for the axis and [ValueError] for the shapes). *)
Definition concatenate (a b : ndarray) (axis : Z) : option ndarray :=
  ax ← norm_index 2 axis;
  if decide (ax = 0) then
    if decide (ncols a = ncols b)
    then Some (Array (nrows a + nrows b) (ncols a) (body a ++ body b))
    else None
  else
    if decide (nrows a = nrows b)
    then Some (Array (nrows a) (ncols a + ncols b) (zip_with app (body a) (body b)))
    else None.

End numpy.

(** [__eq__]: [other] is a [MatGF2] (its [data] is read).  On shapes that
    do not broadcast the comparison of the arrays raises [ValueError]
    (numpy 1.25 and later). *)
Definition __eq__ (self other : MatGF2) : M bool :=
  la ← get_data self; a ← load la;
  lb ← get_data other; b ← load lb;
  e ← lift ValueError (numpy.equal a b);
  mret (numpy.all e).

(** [__add__] *)
Definition __add__ (self : MatGF2) (other : array_like) : M MatGF2 :=
  other ← match other with
          | OfArray _ => MatGF2_init other
          | OfMat m => mret m
          end;
  la ← get_data self; a ← load la;
  lb ← get_data other; b ← load lb;
  c ← lift ValueError (numpy.add a b);
  MatGF2_init (OfArray c).

(** [__sub__] *)
Definition __sub__ (self : MatGF2) (other : array_like) : M MatGF2 :=
  other ← match other with
          | OfArray _ => MatGF2_init other
          | OfMat m => mret m
          end;
  la ← get_data self; a ← load la;
  lb ← get_data other; b ← load lb;
  c ← lift ValueError (numpy.subtract a b);
  MatGF2_init (OfArray c).

(** [__mul__] *)
Definition __mul__ (self : MatGF2) (other : array_like) : M MatGF2 :=
  other ← match other with
          | OfArray _ => MatGF2_init other
          | OfMat m => mret m
          end;
  la ← get_data self; a ← load la;
  lb ← get_data other; b ← load lb;
  c ← lift ValueError (numpy.multiply a b);
  MatGF2_init (OfArray c).

(** [add_row]: [array_to_add] is an array or [None], [row] an integer or
    [None].  [self.data] is rebound to the new array. *)
Definition add_row (self : MatGF2) (array_to_add : option ndarray) (row : option Z)
    : M unit :=
  l ← get_data self; a ← load l;
  let row := default (Z.of_nat (nrows a)) row in
  let array_to_add := default (np.zeros 1 (ncols a)) array_to_add in
  array_to_add ← lift ValueError (numpy.reshape_row array_to_add (ncols a));
  a' ← lift IndexError (numpy.insert_axis0 a row array_to_add);
  l' ← new_array a';
  set_data self l'.

(** [add_col] *)
Definition add_col (self : MatGF2) (array_to_add : option ndarray) (col : option Z)
    : M unit :=
  l ← get_data self; a ← load l;
  let col := default (Z.of_nat (ncols a)) col in
  let array_to_add := default (np.zeros 1 (nrows a)) array_to_add in
  array_to_add ← lift ValueError (numpy.reshape_row array_to_add (nrows a));
  a' ← lift IndexError (numpy.insert_axis1 a col array_to_add);
  l' ← new_array a';
  set_data self l'.

(** [concatenate] *)
Definition concatenate (self other : MatGF2) (axis : Z) : M unit :=
  l ← get_data self; a ← load l;
  lb ← get_data other; b ← load lb;
  a' ← lift ValueError (numpy.concatenate a b axis);
  l' ← new_array a';
  set_data self l'.

(** [remove_row] *)
Definition remove_row (self : MatGF2) (row : Z) : M unit :=
  l ← get_data self; a ← load l;
  a' ← lift IndexError (numpy.delete_axis0 a row);
  l' ← new_array a';
  set_data self l'.

(** [remove_col] *)
Definition remove_col (self : MatGF2) (col : Z) : M unit :=
  l ← get_data self; a ← load l;
  a' ← lift IndexError (numpy.delete_axis1 a col);
  l' ← new_array a';
  set_data self l'.

(** * Definitions for the statements and proofs

    Nothing below is code of the repository: these are the values, the
    predicates and the stores the properties are stated with. *)

(** ** Reading arrays *)

(** [v[j]], read as [0] outside the vector. *)
Notation "v .[ j ]" := (default false (v !! j)) (at level 1, format "v .[ j ]").

(** The transposition of [x] and [y]. *)
Definition tr (x y i : nat) : nat :=
  if decide (i = x) then y else if decide (i = y) then x else i.

(** ** What one round of the elimination does to an array

    The effect of the loop of [forward_eliminate] on the array of [mat_a],
    as functions on array values.  They follow [pivot_step], [eliminate]
    and [eliminate_loop] line by line; [refines_eliminate_loop] proves that
    the loop computes them when the array of [b] is another object. *)

Definition pivoted (a : ndarray) (row : nat) : option ndarray :=
  if entry a row row then Some a
  else match np.nonzero2 (np.slice_from a row row) with
       | [] => None
       | (p0, p1) :: _ =>
           let a1 := if decide (p0 + row ≠ row)
                     then default a (np.swap_rows a row (p0 + row)) else a in
           Some (if decide (p1 + row ≠ row)
                 then default a1 (np.swap_cols a1 row (p1 + row)) else a1)
       end.

Definition eliminate_rows (a : ndarray) (row : nat) : list nat :=
  filter (λ i, i ≠ row) (np.nonzero (np.column a row)).

Definition eliminated (a : ndarray) (row : nat) : ndarray :=
  foldl (λ a er, default a (np.iadd_row a er row)) a (eliminate_rows a row).

Fixpoint reduced (a : ndarray) (rng : list nat) : ndarray :=
  match rng with
  | [] => a
  | row :: rng' =>
      match pivoted a row with
      | None => a
      | Some a' => reduced (eliminated a' row) rng'
      end
  end.

(** ** Canonical form and rank *)

(** The first [k] columns are the first [k] unit vectors. *)
Definition unit_cols (a : ndarray) (k : nat) : Prop :=
  ∀ i j, i < nrows a → j < k → entry a i j = bool_decide (i = j).

(** [a] is [[I X]; [0 0]] with an identity block of size [r]. *)
Definition canon_at (a : ndarray) (r : nat) : Prop :=
  r ≤ nrows a ∧ r ≤ ncols a ∧ unit_cols a r ∧ (∀ i j, r ≤ i → entry a i j = false).

(** The number of nonzero diagonal entries: [rank] in [is_canonical_form],
    and what [get_rank] returns for the matrix it looks at. *)
Definition diag_rank (a : ndarray) : nat := length (np.nonzero (np.diagonal a)).

(** The value [is_canonical_form] computes once its scan of the diagonal is
    through ([run_is_canonical_form] proves that it always is). *)
Definition canonical_b (a : ndarray) : bool :=
  let rank := diag_rank a in
  let block := np.slice_to a rank rank in
  (np.count_nonzero (np.sub block (np.diag (np.diagonal block))) =? 0)
  && (np.count_nonzero (np.slice_from a rank 0) =? 0).

(** The value of [get_rank] as a function of the array ([run_get_rank]). *)
Definition rank_of (a : ndarray) : nat :=
  diag_rank (if canonical_b a then a
             else reduced a (seq 0 (min (nrows a) (ncols a)))).

(** ** Stores *)

(** The store [h] with the array at [l] overwritten. *)
Definition upd (h : heap) (l : loc) (a : ndarray) : heap :=
  Heap (objs h) (<[l := a]> (arrs h)).

(** Nothing that exists in [h] has changed in [h']: objects keep their
    [data] reference and arrays their contents; [h'] may hold new ones. *)
Definition extends (h h' : heap) : Prop :=
  (∀ m l, objs h !! m = Some l → objs h' !! m = Some l) ∧
  (∀ l a, arrs h !! l = Some a → arrs h' !! l = Some a).

(** The part of the store the loop of [forward_eliminate] works on: the
    object [mat_a] over the array [a] at [la], of shape [n x c], and the
    object [b] over an array of [nb] rows at [lb]. *)
Record st (mat_a b : MatGF2) (la lb : loc) (n c nb : nat)
    (h : heap) (a : ndarray) : Prop := {
  st_obj_a : objs h !! mat_a = Some la;
  st_obj_b : objs h !! b = Some lb;
  st_arr_a : arrs h !! la = Some a;
  st_wf : wf a;
  st_rows : nrows a = n;
  st_cols : ncols a = c;
  st_arr_b : ∃ bb, arrs h !! lb = Some bb ∧ wf bb ∧ nrows bb = nb
}.

(** Only the arrays at [la] and [lb] have been written to. *)
Definition frame (la lb : loc) (h h' : heap) : Prop :=
  objs h' = objs h ∧ length (arrs h') = length (arrs h) ∧
  ∀ l, l ≠ la → l ≠ lb → arrs h' !! l = arrs h !! l.

(** The store after [is_canonical_form]: one new object, [ref_array]. *)
Definition after_check (h : heap) (a : ndarray) : heap :=
  Heap (objs h ++ [length (arrs h)])
       (arrs h ++ [np.diag (np.diagonal (np.slice_to a (diag_rank a) (diag_rank a)))]).

(** The array a right-hand side argument stands for ([rows] is the row
    count of the matrix, for the default zero column). *)
Definition rhs_array (h : heap) (rows : nat) (b : option array_like) : option ndarray :=
  match b with
  | None => Some (np.zeros rows 1)
  | Some (OfArray x) => Some x
  | Some (OfMat mb) => l ← objs h !! mb; arrs h !! l
  end.

(** The elimination does not write to the array [b] lives in: it works on
    a copy, or [b] is not a [MatGF2] over the array of [self]. *)
Definition stored_apart (h : heap) (self : MatGF2) (b : option array_like)
    (copy : bool) : Prop :=
  copy = true ∨
  match b with
  | Some (OfMat mb) => objs h !! mb ≠ objs h !! self
  | _ => True
  end.

(** ** Row spaces over GF(2)

    The rank is characterised independently of the algorithm: a matrix of
    rank [r] has a row space of [2 ^ r] vectors.  Row operations keep the
    row space, reorderings of the columns map it one-to-one. *)

Definition vxor (u v : list bool) : list bool := zip_with xorb u v.

(** The row space of [R], as vectors of length [n]. *)
Inductive span (R : list (list bool)) (n : nat) : list bool → Prop :=
  | span_zero : span R n (replicate n false)
  | span_add r v : r ∈ R → span R n v → span R n (vxor r v).

(** The row space of [R] has exactly [N] vectors. *)
Definition card_span (R : list (list bool)) (n N : nat) : Prop :=
  ∃ l, NoDup l ∧ (∀ v, v ∈ l ↔ span R n v) ∧ length l = N.

(** The sum of the rows of [R] selected by [c]. *)
Fixpoint comb (n : nat) (c : list bool) (R : list (list bool)) : list bool :=
  match c, R with
  | x :: c', r :: R' => if x then vxor r (comb n c' R') else comb n c' R'
  | _, _ => replicate n false
  end.

(** All vectors of length [k]. *)
Fixpoint all_bools (k : nat) : list (list bool) :=
  match k with
  | 0 => [[]]
  | S k' => (cons true <$> all_bools k') ++ (cons false <$> all_bools k')
  end.

(** Two arrays whose row spaces have the same number of vectors. *)
Definition same_card (a a' : ndarray) : Prop :=
  ∀ N, card_span (body a) (ncols a) N ↔ card_span (body a') (ncols a') N.

(** [f] reads entry [j] of its result from entry [σ j] of its argument. *)
Definition reads (f : list bool → list bool) (σ : nat → nat) (n n' : nat) : Prop :=
  ∀ r, length r = n →
       length (f r) = n' ∧ ∀ j, j < n' → (f r).[j] = r.[σ j].

(** What [np.swap_cols] does to one row. *)
Definition swap_in_row (c1 c2 : nat) (r : list bool) : list bool :=
  <[c2 := r.[c1]]> (<[c1 := r.[c2]]> r).

(** ** The solver *)

(** The solution entry of pivot row [row]: the body of the loop over the
    pivot rows in [solve_col], without the [insert]. *)
Definition pivot_entry (a : ndarray) (b_col : list bool) (rank : nat)
    (kernels : list sympy) (row : nat) : option sympy :=
  bit ← b_col !! row;
  r ← body a !! row;
  ofold (λ sol k, s ← kernels !! k; Some (Xor sol s))
    (if (bit : bool) then strue else sfalse) (np.nonzero (drop rank r)).

(** A vector as a one-column array. *)
Definition column_vector (v : list bool) : ndarray :=
  Array (length v) 1 ((λ x, [x]) <$> v).

(** ** Example stores and arrays *)

(** The store with one matrix object, over the array [a]. *)
Definition h0 (a : ndarray) : heap := Heap [0] [a].

(** The two scenarios of the specification. *)
Definition A3 := Array 3 3 [[true; true; false]; [false; true; true]; [true; false; true]].
Definition b3 := Array 3 1 [[true]; [false]; [true]].
Definition A2 := Array 2 2 [[true; true]; [true; true]].
Definition b2 := Array 2 1 [[false]; [true]].

Definition I2 := Array 2 2 [[true; false]; [false; true]].
Definition gap3 :=
  Array 3 3 [[true; false; false]; [false; false; false]; [false; false; true]].
Definition P3 :=
  Array 3 3 [[false; false; false]; [false; false; true]; [true; true; false]].
Definition T21 := Array 2 1 [[true]; [false]].
Definition Z2 := Array 2 2 [[false; false]; [false; true]].
Definition L2 := Array 2 2 [[true; false]; [true; true]].

(** ** Rebinding

    The store after [self.data = a'] for a new array [a']. *)
Definition rebound (h : heap) (self : MatGF2) (a' : ndarray) : heap :=
  Heap (<[self := length (arrs h)]> (objs h)) (arrs h ++ [a']).

(** [self.data], read as a value. *)
Definition data_of (self : MatGF2) : M ndarray := l ← get_data self; load l.

(** The store after [MatGF2(c)] for array data [c]: the new object is
    [length (objs h)], over the new array [length (arrs h)]. *)
Definition allocated (h : heap) (c : ndarray) : heap :=
  Heap (objs h ++ [length (arrs h)]) (arrs h ++ [c]).

(** The store in which the operators read their second operand: a
    [MatGF2] is used as it is, array data is wrapped first. *)
Definition operand_store (h : heap) (other : array_like) : heap :=
  match other with
  | OfMat _ => h
  | OfArray b => allocated h b
  end.

(** The methods that change the shape or the order of the rows and
    columns, with their arguments. *)
Inductive edit :=
  | AddRow (array_to_add : option ndarray) (row : option Z)
  | AddCol (array_to_add : option ndarray) (col : option Z)
  | RemoveRow (row : Z)
  | RemoveCol (col : Z)
  | Concatenate (other : MatGF2) (axis : Z)
  | PermuteRow (row_permutation : list Z)
  | PermuteCol (col_permutation : list Z).

Definition run_edit (self : MatGF2) (e : edit) : M unit :=
  match e with
  | AddRow v row => add_row self v row
  | AddCol v col => add_col self v col
  | RemoveRow row => remove_row self row
  | RemoveCol col => remove_col self col
  | Concatenate other axis => concatenate self other axis
  | PermuteRow idx => permute_row self idx
  | PermuteCol idx => permute_col self idx
  end.

(** ** Sums over GF(2) *)

(** [g 0 + ... + g (n - 1)] *)
Fixpoint xsum (g : nat → bool) (n : nat) : bool :=
  match n with
  | 0 => false
  | S n' => xorb (xsum g n') (g n')
  end.

(** [b] can be broadcast to the shape of [a]. *)
Definition broadcasts_to (b a : ndarray) : Prop :=
  (nrows b = nrows a ∨ nrows b = 1) ∧ (ncols b = ncols a ∨ ncols b = 1).

(** Equality of arrays is decidable. *)
#[global] Instance ndarray_eq_dec : EqDecision ndarray.
Proof. solve_decision. Defined.

(** The binary operators that return a new matrix. *)
Inductive operator := Add | Sub | Mul | MatMul.

Definition run_operator (op : operator) (self : MatGF2) (other : array_like)
    : M MatGF2 :=
  match op with
  | Add => __add__ self other
  | Sub => __sub__ self other
  | Mul => __mul__ self other
  | MatMul => matmul self other
  end.

(** What the operator computes on the two arrays. *)
Definition operator_value (op : operator) (a b : ndarray) : option ndarray :=
  match op with
  | Add => numpy.add a b
  | Sub => numpy.subtract a b
  | Mul => numpy.multiply a b
  | MatMul => np.matmul a b
  end.

(** ** The linear system under elimination *)

(** [cp[k]] for a list of indices. *)
Definition at_index (cp : list nat) (k : nat) : nat := default 0 (cp !! k).

(** [y[idx]]: the entries of [y] at the positions [idx]. *)
Definition take_vec (y : list bool) (idx : list nat) : list bool :=
  (λ k, y.[k]) <$> idx.

(** The store of the loop of [forward_eliminate] when it solves a system:
    [mat_a] over [a] at [la], of shape [n x c], [b] over [bb] at [lb], of
    shape [n x cb], and the column bookkeeping [cp]. *)
Record sys (mat_a b : MatGF2) (la lb : loc) (n c cb : nat)
    (h : heap) (cp : list nat) (a bb : ndarray) : Prop := {
  sys_obj_a : objs h !! mat_a = Some la;
  sys_obj_b : objs h !! b = Some lb;
  sys_arr_a : arrs h !! la = Some a;
  sys_arr_b : arrs h !! lb = Some bb;
  sys_wf_a : wf a;
  sys_wf_b : wf bb;
  sys_rows : nrows a = n;
  sys_cols : ncols a = c;
  sys_rows_b : nrows bb = n;
  sys_cols_b : ncols bb = cb;
  sys_cp : cp ≡ₚ seq 0 c
}.

(** The vector [x] of values for the unknowns, in their original order,
    satisfies every equation of column [j]: unknown [k] is at column
    [cp[k]] of [a]. *)
Definition holds (a bb : ndarray) (cp : list nat) (x : list bool) (j : nat) : Prop :=
  ∀ i, i < nrows a →
    xsum (λ k, entry a i (at_index cp k) && x.[k]) (ncols a) = entry bb i j.

(** [A @ x == b[:, j]] for a vector [x]. *)
Definition solves (a : ndarray) (x : list bool) (bb : ndarray) (j : nat) : Prop :=
  np.matmul a (column_vector x) = Some (column_vector (np.column bb j)).

(** ** The value of a solution *)

(** The truth value of an entry of [x] when the free symbol [Symbol k]
    has the value [ρ k]; the marker has no value. *)
Fixpoint sympy_value (ρ : nat → bool) (e : sympy) : option bool :=
  match e with
  | nan => None
  | strue => Some true
  | sfalse => Some false
  | Symbol k => Some (ρ k)
  | Xor x y => vx ← sympy_value ρ x; vy ← sympy_value ρ y; Some (xorb vx vy)
  end.

(** The values of the [n] entries of column [j] of [x]. *)
Definition column_values (ρ : nat → bool) (x : list (list sympy)) (j n : nat)
    : option (list bool) :=
  mapM (λ i, e ← x !! i ≫= (.!! j); sympy_value ρ e) (seq 0 n).

(** The solution of [[I X]; [0 0]] y = b_col] with the free unknowns
    [y[r + k] = ρ k]. *)
Definition solution_vector (a : ndarray) (b_col : list bool) (r : nat)
    (ρ : nat → bool) : list bool :=
  ((λ i, xorb b_col.[i] (xsum (λ k, entry a i (r + k) && ρ k) (ncols a - r)))
     <$> seq 0 r)
  ++ (ρ <$> seq 0 (ncols a - r)).

(** * Proofs *)

(** ** The scenarios of the specification *)

(** [A3] has rank 2 over GF(2): its rows add up to zero. *)
Example scenario_rank_A3 : eval (get_rank 0) (h0 A3) = Ok 2.
Proof. reflexivity. Qed.

Example scenario_eliminate_A3 :
  forward_eliminate 0 (Some (OfArray b3)) false (h0 A3)
  = Ok ((0, 1, [0; 1; 2], [0; 1; 2]),
        Heap [0; 1]
          [Array 3 3 [[true; false; true]; [false; true; true]; [false; false; false]];
           Array 3 1 [[true]; [false]; [false]]]).
Proof. reflexivity. Qed.

(** [A2] has rank 1, and [b2] is nonzero in row 1: no solution. *)
Example scenario_unsat_A2 :
  eval (m ← forward_eliminate 0 (Some (OfArray b2)) false;
        backward_substitute m.1.1.1 (OfMat m.1.1.2)) (h0 A2)
  = Ok ([[nan]; [nan]], [Symbol 0]).
Proof. reflexivity. Qed.

(** One free symbol per column beyond the rank. *)
Example scenario_kernel :
  eval (backward_substitute 0 (OfArray (Array 2 2 [[true; false]; [false; false]])))
       (h0 (Array 2 3 [[true; false; true]; [false; false; false]]))
  = Ok ([[Xor strue (Symbol 1); Xor sfalse (Symbol 1)];
         [Symbol 0; Symbol 0];
         [Symbol 1; Symbol 1]],
        [Symbol 0; Symbol 1]).
Proof. reflexivity. Qed.

(** ** Entries of arrays *)

Section entries.
Implicit Types (a b : ndarray) (i j k : nat).

Lemma wf_iff a : wf a ↔ wfb a = true.
Proof.
  unfold wf, wfb. rewrite andb_true_iff, Nat.eqb_eq, forallb_forall, Forall_forall.
  split; intros [H1 H2]; split; try done; intros r Hr.
  - apply Nat.eqb_eq, H2. by apply list_elem_of_In.
  - apply Nat.eqb_eq, H2. by apply list_elem_of_In.
Qed.

Lemma wf_lookup a i r : wf a → body a !! i = Some r → length r = ncols a.
Proof. intros [_ H] Hr. by eapply (Forall_lookup_1 _ _ _ _ H Hr). Qed.

Lemma wf_row a i : wf a → i < nrows a → ∃ r, body a !! i = Some r ∧ length r = ncols a.
Proof.
  intros Hwf Hi. destruct (lookup_lt_is_Some_2 (body a) i) as [r Hr].
  - destruct Hwf as [-> _]. done.
  - exists r. split; [done|]. by eapply wf_lookup.
Qed.

Lemma item_entry a i j :
  wf a → i < nrows a → j < ncols a → item a i j = Some (entry a i j).
Proof.
  intros Hwf Hi Hj. destruct (wf_row a i Hwf Hi) as (r & Hr & Hlen).
  unfold entry, item. rewrite Hr. simpl.
  destruct (lookup_lt_is_Some_2 r j) as [x Hx]; [lia|]. by rewrite Hx.
Qed.

Lemma entry_row a i j r : body a !! i = Some r → entry a i j = default false (r !! j).
Proof. intros Hr. unfold entry, item. by rewrite Hr. Qed.

Lemma entry_out_row a i j : wf a → nrows a ≤ i → entry a i j = false.
Proof.
  intros [Hl _] Hi. unfold entry, item.
  rewrite (lookup_ge_None_2 (body a) i); [done | lia].
Qed.

Lemma entry_out_col a i j : wf a → ncols a ≤ j → entry a i j = false.
Proof.
  intros Hwf Hj. unfold entry, item.
  destruct (body a !! i) as [r|] eqn:Hr; [|done]. simpl.
  rewrite (lookup_ge_None_2 r j); [done|]. rewrite (wf_lookup _ _ _ Hwf Hr). lia.
Qed.

Lemma row_ext (r1 r2 : list bool) :
  length r1 = length r2 →
  (∀ j, j < length r1 → default false (r1 !! j) = default false (r2 !! j)) →
  r1 = r2.
Proof.
  intros Hlen H. apply list_eq. intros j.
  destruct (decide (j < length r1)) as [Hj|Hj].
  - specialize (H j Hj).
    destruct (lookup_lt_is_Some_2 r1 j Hj) as [x Hx].
    destruct (lookup_lt_is_Some_2 r2 j) as [y Hy]; [lia|].
    rewrite Hx, Hy in *. simpl in H. by subst.
  - rewrite !lookup_ge_None_2; [done | lia | lia].
Qed.

Lemma array_ext a b :
  wf a → wf b → nrows a = nrows b → ncols a = ncols b →
  (∀ i j, i < nrows a → j < ncols a → entry a i j = entry b i j) → a = b.
Proof.
  intros Ha Hb Hr Hc H. destruct a as [ra ca la], b as [rb cb lb]. simpl in *. subst.
  f_equal. apply list_eq. intros i.
  destruct (decide (i < rb)) as [Hi|Hi].
  - destruct (wf_row _ i Ha Hi) as (x & Hx & Hlx).
    destruct (wf_row _ i Hb Hi) as (y & Hy & Hly). simpl in *.
    rewrite Hx, Hy. f_equal. apply row_ext; [lia|]. intros j Hj.
    specialize (H i j Hi ltac:(lia)).
    by rewrite (entry_row (Array rb cb la) i j x Hx),
      (entry_row (Array rb cb lb) i j y Hy) in H.
  - destruct Ha as [Ha _], Hb as [Hb _]. simpl in *.
    rewrite !lookup_ge_None_2; [done | lia | lia].
Qed.

Lemma tr_lt x y i n : x < n → y < n → i < n → tr x y i < n.
Proof. unfold tr. repeat case_decide; lia. Qed.

Lemma tr_tr x y i : tr x y (tr x y i) = i.
Proof. unfold tr. repeat case_decide; lia. Qed.

Lemma swap_rows_spec a r1 r2 :
  wf a → r1 < nrows a → r2 < nrows a →
  ∃ a', np.swap_rows a r1 r2 = Some a' ∧ wf a' ∧
        nrows a' = nrows a ∧ ncols a' = ncols a ∧
        (∀ i, body a' !! i = body a !! tr r1 r2 i).
Proof.
  intros Hwf H1 H2.
  destruct (wf_row a r1 Hwf H1) as (x1 & Hx1 & Hl1).
  destruct (wf_row a r2 Hwf H2) as (x2 & Hx2 & Hl2).
  unfold np.swap_rows. rewrite Hx1, Hx2. simpl. eexists. split; [done|].
  destruct Hwf as [Hlen Hall].
  split; [|split; [done|split; [done|]]].
  - split; simpl; [by rewrite !length_insert|].
    apply Forall_insert; [apply Forall_insert|]; done.
  - intros i. simpl. unfold tr.
    destruct (decide (i = r2)) as [->|Hne2].
    + rewrite list_lookup_insert_eq by (rewrite length_insert; lia).
      repeat case_decide; subst; congruence.
    + rewrite list_lookup_insert_ne by done.
      destruct (decide (i = r1)) as [->|Hne1].
      * by rewrite list_lookup_insert_eq by lia.
      * by rewrite list_lookup_insert_ne by done.
Qed.

Lemma entry_lookup_eq a b i i' j :
  body b !! i = body a !! i' → entry b i j = entry a i' j.
Proof. intros H. unfold entry, item. by rewrite H. Qed.

Lemma swap_cols_spec a c1 c2 :
  wf a → c1 < ncols a → c2 < ncols a →
  ∃ a', np.swap_cols a c1 c2 = Some a' ∧ wf a' ∧
        nrows a' = nrows a ∧ ncols a' = ncols a ∧
        (∀ i j, entry a' i j = entry a i (tr c1 c2 j)).
Proof.
  intros Hwf H1 H2. unfold np.swap_cols. rewrite decide_True by done.
  eexists. split; [done|]. destruct Hwf as [Hlen Hall].
  split; [|split; [done|split; [done|]]].
  - split; simpl; [by rewrite length_fmap|].
    apply Forall_fmap. eapply Forall_impl; [exact Hall|].
    intros r Hr. simpl. by rewrite !length_insert.
  - intros i j. unfold entry, item. simpl. rewrite list_lookup_fmap.
    destruct (body a !! i) as [r|] eqn:Hr; [|done]. simpl.
    pose proof (Forall_lookup_1 _ _ _ _ Hall Hr) as Hlr. simpl in Hlr.
    unfold tr. destruct (decide (j = c2)) as [->|Hne2].
    + rewrite list_lookup_insert_eq by (rewrite length_insert; lia).
      repeat case_decide; subst; done.
    + rewrite list_lookup_insert_ne by done.
      destruct (decide (j = c1)) as [->|Hne1].
      * by rewrite list_lookup_insert_eq by lia.
      * by rewrite list_lookup_insert_ne by done.
Qed.

Lemma iadd_row_spec a i k :
  wf a → i < nrows a → k < nrows a →
  ∃ a', np.iadd_row a i k = Some a' ∧ wf a' ∧
        nrows a' = nrows a ∧ ncols a' = ncols a ∧
        (∀ i' j, entry a' i' j =
                 if decide (i' = i) then xorb (entry a i j) (entry a k j)
                 else entry a i' j).
Proof.
  intros Hwf H1 H2.
  destruct (wf_row a i Hwf H1) as (x & Hx & Hlx).
  destruct (wf_row a k Hwf H2) as (y & Hy & Hly).
  unfold np.iadd_row. rewrite Hx, Hy. simpl. eexists. split; [done|].
  destruct Hwf as [Hlen Hall].
  split; [|split; [done|split; [done|]]].
  - split; simpl; [by rewrite length_insert|].
    apply Forall_insert; [done|]. rewrite length_zip_with. lia.
  - intros i' j. unfold entry at 1. unfold item. simpl.
    destruct (decide (i' = i)) as [->|Hne].
    + rewrite list_lookup_insert_eq by lia. simpl.
      rewrite lookup_zip_with.
      rewrite (entry_row _ _ _ _ Hx), (entry_row _ _ _ _ Hy).
      destruct (decide (j < ncols a)) as [Hj|Hj].
      * destruct (lookup_lt_is_Some_2 x j) as [u Hu]; [lia|].
        destruct (lookup_lt_is_Some_2 y j) as [v Hv]; [lia|].
        by rewrite Hu, Hv.
      * rewrite (lookup_ge_None_2 x j), (lookup_ge_None_2 y j) by lia. done.
    + by rewrite list_lookup_insert_ne by done.
Qed.

End entries.

(** ** One round of the elimination, entry by entry *)

Section rounds.
Implicit Types (a b : ndarray) (i j k : nat).

Lemma elem_of_nonzero (v : list bool) i : i ∈ np.nonzero v ↔ v !! i = Some true.
Proof.
  unfold np.nonzero. rewrite list_elem_of_filter, elem_of_seq.
  split; [tauto|]. intros H. split; [done|]. apply lookup_lt_Some in H. lia.
Qed.

Lemma NoDup_nonzero (v : list bool) : NoDup (np.nonzero v).
Proof. apply NoDup_filter, NoDup_seq. Qed.

Lemma elem_of_nonzero2 a i j : (i, j) ∈ np.nonzero2 a ↔ item a i j = Some true.
Proof.
  unfold np.nonzero2, item. rewrite list_elem_of_join. split.
  - intros (l & Hin & Hl). apply elem_of_lookup_imap in Hl as (i' & r & -> & Hr).
    apply list_elem_of_fmap in Hin as (j' & [= -> ->] & Hj).
    rewrite Hr. simpl. by apply elem_of_nonzero.
  - intros H. destruct (body a !! i) as [r|] eqn:Hr; [|done]. simpl in H.
    exists ((λ j, (i, j)) <$> np.nonzero r). split.
    + apply list_elem_of_fmap. exists j. split; [done|]. by apply elem_of_nonzero.
    + apply elem_of_lookup_imap. by exists i, r.
Qed.

Lemma item_slice_from a r c i j : item (np.slice_from a r c) i j = item a (r + i) (c + j).
Proof.
  unfold item. simpl. rewrite list_lookup_fmap, lookup_drop.
  destruct (body a !! (r + i)); [|done]. simpl. by rewrite lookup_drop.
Qed.

Lemma item_true a i j : item a i j = Some true → wf a →
  i < nrows a ∧ j < ncols a ∧ entry a i j = true.
Proof.
  intros H Hwf. unfold entry. rewrite H. split; [|split; [|done]].
  - unfold item in H. destruct (body a !! i) as [r|] eqn:Hr; [|done].
    apply lookup_lt_Some in Hr. destruct Hwf as [<- _]. done.
  - unfold item in H. destruct (body a !! i) as [r|] eqn:Hr; [|done].
    simpl in H. apply lookup_lt_Some in H. by rewrite <- (wf_lookup _ _ _ Hwf Hr).
Qed.

Lemma tr_same x i : tr x x i = i.
Proof. unfold tr. repeat case_decide; lia. Qed.

Lemma pivoted_spec a k :
  wf a → k < nrows a → k < ncols a →
  match pivoted a k with
  | Some a' =>
      wf a' ∧ nrows a' = nrows a ∧ ncols a' = ncols a ∧
      ∃ pr pc, k ≤ pr < nrows a ∧ k ≤ pc < ncols a ∧ entry a pr pc = true ∧
               (∀ i j, entry a' i j = entry a (tr k pr i) (tr k pc j))
  | None => ∀ i j, k ≤ i → k ≤ j → entry a i j = false
  end.
Proof.
  intros Hwf Hr Hc. unfold pivoted.
  destruct (entry a k k) eqn:Hkk.
  { do 3 (split; [done|]). exists k, k. repeat split; try lia; try done.
    intros i j. by rewrite !tr_same. }
  destruct (np.nonzero2 (np.slice_from a k k)) as [|[p0 p1] l] eqn:Hnz.
  - intros i j Hi Hj.
    destruct (entry a i j) eqn:He; [|done]. exfalso.
    destruct (decide (i < nrows a)) as [Hi'|Hi'];
      [|rewrite entry_out_row in He by (done || lia); done].
    destruct (decide (j < ncols a)) as [Hj'|Hj'];
      [|rewrite entry_out_col in He by (done || lia); done].
    assert ((i - k, j - k) ∈ np.nonzero2 (np.slice_from a k k)) as Hin.
    { apply elem_of_nonzero2. rewrite item_slice_from.
      replace (k + (i - k)) with i by lia. replace (k + (j - k)) with j by lia.
      rewrite item_entry by done. by rewrite He. }
    rewrite Hnz in Hin. by apply elem_of_nil in Hin.
  - assert ((p0, p1) ∈ np.nonzero2 (np.slice_from a k k)) as Hin
      by (rewrite Hnz; apply list_elem_of_here).
    apply elem_of_nonzero2 in Hin. rewrite item_slice_from in Hin.
    apply item_true in Hin as (Hp0 & Hp1 & Hp); [|done].
    set (pr := p0 + k). set (pc := p1 + k).
    replace (k + p0) with pr in * by lia. replace (k + p1) with pc in * by lia.
    destruct (swap_rows_spec a k pr Hwf Hr Hp0) as (a1 & Ha1 & Hwf1 & Hr1 & Hc1 & He1).
    assert (∃ a1', (if decide (pr ≠ k) then default a (np.swap_rows a k pr) else a) = a1'
              ∧ wf a1' ∧ nrows a1' = nrows a ∧ ncols a1' = ncols a
              ∧ ∀ i j, entry a1' i j = entry a (tr k pr i) j) as (a1' & -> & Hwf1' & Hr1' & Hc1' & He1').
    { case_decide.
      - exists a1. rewrite Ha1. repeat split; try done. apply Hwf1. apply Hwf1.
        intros i j. by apply entry_lookup_eq.
      - exists a. repeat split; try done. apply Hwf. apply Hwf.
        intros i j. replace pr with k by lia. by rewrite tr_same. }
    destruct (swap_cols_spec a1' k pc Hwf1') as (a2 & Ha2 & Hwf2 & Hr2 & Hc2 & He2); [lia..|].
    assert (∃ a2', (if decide (pc ≠ k) then default a1' (np.swap_cols a1' k pc) else a1') = a2'
              ∧ wf a2' ∧ nrows a2' = nrows a ∧ ncols a2' = ncols a
              ∧ ∀ i j, entry a2' i j = entry a (tr k pr i) (tr k pc j)) as (a2' & -> & Hwf2' & Hr2' & Hc2' & He2').
    { case_decide.
      - exists a2. rewrite Ha2. repeat split; try done. apply Hwf2. apply Hwf2. lia. lia.
        intros i j. by rewrite He2, He1'.
      - exists a1'. repeat split; try done. apply Hwf1'. apply Hwf1'.
        intros i j. replace pc with k by lia. by rewrite tr_same. }
    do 3 (split; [done|]). exists pr, pc. repeat split; try lia; done.
Qed.

Lemma pivoted_pivot a k a' :
  wf a → k < nrows a → k < ncols a → pivoted a k = Some a' → entry a' k k = true.
Proof.
  intros Hwf Hr Hc Hp. pose proof (pivoted_spec a k Hwf Hr Hc) as H.
  rewrite Hp in H. destruct H as (_ & _ & _ & pr & pc & _ & _ & Hpiv & He).
  rewrite He. unfold tr. by rewrite !decide_True.
Qed.

Lemma elem_of_eliminate_rows a k i :
  wf a → i ∈ eliminate_rows a k ↔ i ≠ k ∧ i < nrows a ∧ entry a i k = true.
Proof.
  intros Hwf. unfold eliminate_rows. rewrite list_elem_of_filter, elem_of_nonzero.
  unfold np.column. rewrite list_lookup_fmap. unfold entry, item.
  destruct (body a !! i) as [r|] eqn:Hr; simpl.
  - apply lookup_lt_Some in Hr. destruct Hwf as [<- _].
    split; [intros [? [= ->]]|intros (? & ? & ->)]; done.
  - split; [intros [_ [=]]|intros (_ & _ & [=])].
Qed.

Lemma NoDup_eliminate_rows a k : NoDup (eliminate_rows a k).
Proof. apply NoDup_filter, NoDup_nonzero. Qed.

(** Adding row [k] to each row of a duplicate-free list of other rows. *)
Lemma foldl_iadd_spec (l : list nat) a k :
  wf a → k < nrows a → NoDup l → k ∉ l → (∀ i, i ∈ l → i < nrows a) →
  let a' := foldl (λ a er, default a (np.iadd_row a er k)) a l in
  wf a' ∧ nrows a' = nrows a ∧ ncols a' = ncols a ∧
  ∀ i j, entry a' i j =
         if decide (i ∈ l) then xorb (entry a i j) (entry a k j) else entry a i j.
Proof.
  revert a. induction l as [|er l IH]; intros a Hwf Hk Hnd Hnk Hlt; simpl.
  { repeat split; apply Hwf. }
  apply NoDup_cons in Hnd as [Her Hnd]. apply not_elem_of_cons in Hnk as [Hne Hnk].
  destruct (iadd_row_spec a er k Hwf) as (a1 & Ha1 & Hwf1 & Hr1 & Hc1 & He1);
    [apply Hlt; left | done |].
  rewrite Ha1. simpl.
  destruct (IH a1 Hwf1) as (Hwf' & Hr' & Hc' & He'); [lia|done|done| |].
  { intros i Hi. rewrite Hr1. apply Hlt. by right. }
  split; [done|]. split; [lia|]. split; [lia|].
  intros i j. rewrite He', !He1. rewrite (decide_False (P := k = er)) by done.
  destruct (decide (i = er)) as [->|Hie].
  - rewrite (decide_False (P := er ∈ l)) by done.
    rewrite decide_True by left. done.
  - destruct (decide (i ∈ l)).
    + rewrite decide_True by (by right). done.
    + rewrite decide_False; [done|]. by intros [?|?]%elem_of_cons.
Qed.

Lemma eliminated_spec a k :
  wf a → k < nrows a →
  wf (eliminated a k) ∧ nrows (eliminated a k) = nrows a ∧
  ncols (eliminated a k) = ncols a ∧
  ∀ i j, entry (eliminated a k) i j =
         if decide (i ≠ k ∧ entry a i k = true)
         then xorb (entry a i j) (entry a k j) else entry a i j.
Proof.
  intros Hwf Hk.
  destruct (foldl_iadd_spec (eliminate_rows a k) a k Hwf Hk) as (H1 & H2 & H3 & H4).
  - apply NoDup_eliminate_rows.
  - rewrite elem_of_eliminate_rows by done. tauto.
  - intros i. rewrite elem_of_eliminate_rows by done. tauto.
  - split; [done|]. split; [done|]. split; [done|].
    intros i j. unfold eliminated. rewrite H4.
    destruct (decide (i ∈ eliminate_rows a k)) as [Hin|Hin];
      rewrite elem_of_eliminate_rows in Hin by done.
    + rewrite decide_True; [done|tauto].
    + destruct (decide (i < nrows a)).
      * rewrite decide_False; [done|tauto].
      * rewrite !(entry_out_row a i) by (done || lia).
        rewrite decide_False; [done|]. intros [_ [=]].
Qed.

(** The source takes the rows to eliminate from a Python set, whose
    iteration order is not fixed: every order gives the same array. *)
Lemma eliminated_any_order a k (l : list nat) :
  wf a → k < nrows a → l ≡ₚ eliminate_rows a k →
  foldl (λ a er, default a (np.iadd_row a er k)) a l = eliminated a k.
Proof.
  intros Hwf Hk Hp.
  destruct (eliminated_spec a k Hwf Hk) as (W & R & C & E).
  destruct (foldl_iadd_spec l a k Hwf Hk) as (W' & R' & C' & E').
  - rewrite Hp. apply NoDup_eliminate_rows.
  - rewrite Hp, elem_of_eliminate_rows by done. tauto.
  - intros i. rewrite Hp, elem_of_eliminate_rows by done. tauto.
  - apply array_ext; [done|done|lia|lia|]. intros i j Hi Hj. rewrite E', E.
    destruct (decide (i ∈ l)) as [Hin|Hin];
      rewrite Hp, elem_of_eliminate_rows in Hin by done.
    + rewrite decide_True; [done|tauto].
    + rewrite decide_False; [done|]. rewrite R' in Hi. tauto.
Qed.

End rounds.

(** ** Canonical form *)

Section canonical.
Implicit Types (a b : ndarray) (i j k r : nat).

Lemma pivoted_unit_cols a k a' :
  wf a → k < nrows a → k < ncols a → unit_cols a k → pivoted a k = Some a' →
  wf a' ∧ nrows a' = nrows a ∧ ncols a' = ncols a ∧
  unit_cols a' k ∧ entry a' k k = true.
Proof.
  intros Hwf Hr Hc Hu Hp. pose proof (pivoted_spec a k Hwf Hr Hc) as H.
  pose proof (pivoted_pivot a k a' Hwf Hr Hc Hp) as Hkk.
  rewrite Hp in H. destruct H as (Hwf' & Hr' & Hc' & pr & pc & Hpr & Hpc & Hpiv & He).
  do 3 (split; [done|]). split; [|done].
  intros i j Hi Hj. rewrite He.
  replace (tr k pc j) with j by (unfold tr; repeat case_decide; lia).
  rewrite Hu; [|apply tr_lt; lia|done].
  apply bool_decide_ext. unfold tr. repeat case_decide; lia.
Qed.

Lemma eliminated_unit_cols a k :
  wf a → k < nrows a → unit_cols a k → entry a k k = true →
  unit_cols (eliminated a k) (S k).
Proof.
  intros Hwf Hk Hu Hkk i j Hi Hj.
  destruct (eliminated_spec a k Hwf Hk) as (_ & Hr & _ & He).
  rewrite Hr in Hi. rewrite He.
  destruct (decide (j = k)) as [->|Hne].
  - case_decide as Hd.
    + destruct Hd as [Hik ->]. rewrite Hkk. simpl.
      symmetry. by apply bool_decide_eq_false.
    + destruct (decide (i = k)) as [->|Hik].
      * rewrite Hkk. symmetry. by apply bool_decide_eq_true.
      * destruct (entry a i k); [tauto|]. symmetry. by apply bool_decide_eq_false.
  - assert (entry a k j = false) as Hz.
    { rewrite Hu by lia. apply bool_decide_eq_false. lia. }
    rewrite Hz, xorb_false_r. case_decide; apply Hu; lia.
Qed.

Lemma unit_cols_canon a k :
  wf a → k ≤ nrows a → k ≤ ncols a → unit_cols a k →
  (k = min (nrows a) (ncols a) ∨ ∀ i j, k ≤ i → k ≤ j → entry a i j = false) →
  canon_at a k.
Proof.
  intros Hwf Hr Hc Hu Hend. do 3 (split; [done|]). intros i j Hi.
  destruct (decide (i < nrows a)); [|apply entry_out_row; (done || lia)].
  destruct (decide (j < k)) as [Hj|Hj].
  - rewrite Hu by done. apply bool_decide_eq_false. lia.
  - destruct Hend as [->|Hz]; [|apply Hz; lia].
    apply entry_out_col; [done|lia].
Qed.

Lemma reduced_canon n : ∀ a k,
  wf a → unit_cols a k → k + n = min (nrows a) (ncols a) →
  wf (reduced a (seq k n)) ∧ nrows (reduced a (seq k n)) = nrows a ∧
  ncols (reduced a (seq k n)) = ncols a ∧
  ∃ r, canon_at (reduced a (seq k n)) r.
Proof.
  induction n as [|n IH]; intros a k Hwf Hu Hk; simpl.
  { do 3 (split; [done|]). exists k.
    apply unit_cols_canon; [done|lia|lia|done|left; lia]. }
  pose proof (pivoted_spec a k Hwf ltac:(lia) ltac:(lia)) as Hspec.
  destruct (pivoted a k) as [a'|] eqn:Hp.
  - destruct (pivoted_unit_cols a k a' Hwf ltac:(lia) ltac:(lia) Hu Hp)
      as (Hwf' & Hr' & Hc' & Hu' & Hkk).
    destruct (eliminated_spec a' k Hwf' ltac:(lia)) as (Hwfe & Hre & Hce & _).
    destruct (IH (eliminated a' k) (S k) Hwfe) as (H1 & H2 & H3 & H4).
    + apply eliminated_unit_cols; (done || lia).
    + lia.
    + split; [done|]. split; [lia|]. split; [lia|]. done.
  - do 3 (split; [done|]). exists k.
    apply unit_cols_canon; [done|lia|lia|done|by right].
Qed.

(** *** The diagonal and its nonzero entries *)

Lemma lookup_diagonal a i :
  i < min (nrows a) (ncols a) → np.diagonal a !! i = Some (entry a i i).
Proof.
  intros Hi. unfold np.diagonal. rewrite list_lookup_fmap, lookup_seq_lt by done. done.
Qed.

Lemma length_diagonal a : length (np.diagonal a) = min (nrows a) (ncols a).
Proof. unfold np.diagonal. by rewrite length_fmap, length_seq. Qed.

Lemma elem_of_nonzero_diagonal a i :
  i ∈ np.nonzero (np.diagonal a) ↔ i < min (nrows a) (ncols a) ∧ entry a i i = true.
Proof.
  rewrite elem_of_nonzero. split.
  - intros H. pose proof (lookup_lt_Some _ _ _ H) as Hlt.
    rewrite length_diagonal in Hlt. split; [done|].
    rewrite lookup_diagonal in H by done. congruence.
  - intros [Hlt He]. rewrite lookup_diagonal by done. by rewrite He.
Qed.

Lemma diag_rank_le a : diag_rank a ≤ min (nrows a) (ncols a).
Proof.
  unfold diag_rank, np.nonzero. etrans; [apply length_filter|].
  by rewrite length_seq, length_diagonal.
Qed.

Lemma length_NoDup_below (l : list nat) r :
  NoDup l → (∀ i, i ∈ l ↔ i < r) → length l = r.
Proof.
  intros Hnd H. trans (length (seq 0 r)); [|apply length_seq].
  apply Permutation_length.
  apply NoDup_Permutation; [done|apply NoDup_seq|].
  intros i. rewrite H, elem_of_seq. lia.
Qed.

Lemma canon_at_diag_rank a r : wf a → canon_at a r → diag_rank a = r.
Proof.
  intros Hwf (Hr & Hc & Hu & Hz). apply length_NoDup_below; [apply NoDup_nonzero|].
  intros i. rewrite elem_of_nonzero_diagonal. split.
  - intros [Hlt He]. destruct (decide (i < r)); [done|].
    rewrite Hz in He by lia. done.
  - intros Hi. split; [lia|]. rewrite Hu by lia. by apply bool_decide_eq_true.
Qed.

(** All nonzero diagonal entries in front: then the first [diag_rank a]
    diagonal entries are the nonzero ones. *)
Lemma diag_rank_front a i :
  (∀ k, diag_rank a ≤ k → entry a k k = false) →
  i < diag_rank a → entry a i i = true.
Proof.
  intros Hz Hi.
  assert (np.nonzero (np.diagonal a) ≡ₚ seq 0 (diag_rank a)) as Hp.
  { apply submseteq_length_Permutation; [|by rewrite length_seq].
    apply NoDup_submseteq; [apply NoDup_nonzero|].
    intros k [Hk He]%elem_of_nonzero_diagonal. apply elem_of_seq.
    destruct (decide (k < diag_rank a)); [lia|]. rewrite Hz in He by lia. done. }
  assert (i ∈ np.nonzero (np.diagonal a)) as Hin.
  { rewrite Hp. apply elem_of_seq. lia. }
  by apply elem_of_nonzero_diagonal in Hin as [_ ?].
Qed.

End canonical.

Section canonical_check.
Implicit Types (a b : ndarray) (i j k r : nat).

Lemma count_nonzero1_0 (v : list bool) :
  np.count_nonzero1 v = 0 ↔ ∀ j, default false (v !! j) = false.
Proof.
  unfold np.count_nonzero1. induction v as [|x v IH]; simpl.
  { split; [|done]. intros _ j. done. }
  rewrite filter_cons. destruct x; case_decide as Hd; try done; simpl.
  - split; [lia|]. intros H0. by specialize (H0 0).
  - rewrite IH. split.
    + intros H0 [|j]; [done|apply H0].
    + intros H0 j. apply (H0 (S j)).
Qed.

Lemma count_nonzero_0 a : np.count_nonzero a = 0 ↔ ∀ i j, entry a i j = false.
Proof.
  unfold np.count_nonzero, entry, item. destruct a as [n c l]. simpl.
  induction l as [|x l IH]; simpl.
  { split; [|done]. intros _ i j. done. }
  split.
  - intros H. assert (np.count_nonzero1 x = 0) as H1 by lia.
    assert (foldr (λ (v : list bool) m, np.count_nonzero1 v + m) 0 l = 0) as H2 by lia.
    intros [|i] j; simpl.
    + by apply count_nonzero1_0.
    + by apply IH.
  - intros H. assert (np.count_nonzero1 x = 0) as ->.
    { apply count_nonzero1_0. intros j. apply (H 0 j). }
    simpl. apply IH. intros i j. apply (H (S i) j).
Qed.

Lemma entry_slice_to a r c i j :
  entry (np.slice_to a r c) i j = if decide (i < r ∧ j < c) then entry a i j else false.
Proof.
  unfold entry, item. simpl. rewrite list_lookup_fmap.
  destruct (decide (i < r)) as [Hi|Hi].
  - rewrite lookup_take_lt by done. destruct (body a !! i) as [x|]; simpl.
    + destruct (decide (j < c)) as [Hj|Hj].
      * rewrite lookup_take_lt by done. by rewrite decide_True.
      * rewrite lookup_take_ge by lia. rewrite decide_False; [done|lia].
    + by case_decide.
  - rewrite lookup_take_ge by lia. simpl. rewrite decide_False; [done|lia].
Qed.

Lemma wf_slice_to a r c : wf a → wf (np.slice_to a r c).
Proof.
  intros [Hl Hall]. split; simpl.
  - rewrite length_fmap, length_take, Hl. lia.
  - apply Forall_fmap, Forall_take. eapply Forall_impl; [done|].
    intros x Hx. simpl in *. rewrite length_take, Hx. lia.
Qed.

Lemma entry_slice_from a r c i j :
  entry (np.slice_from a r c) i j = entry a (r + i) (c + j).
Proof. unfold entry. by rewrite item_slice_from. Qed.

Lemma wf_diag (v : list bool) : wf (np.diag v).
Proof.
  split; simpl; [by rewrite length_imap|]. apply Forall_forall.
  intros x (i & y & -> & _)%elem_of_lookup_imap.
  by rewrite length_insert, length_replicate.
Qed.

Lemma entry_diag (v : list bool) i j :
  entry (np.diag v) i j = if decide (i = j) then default false (v !! i) else false.
Proof.
  unfold entry, item. simpl. rewrite list_lookup_imap.
  destruct (v !! i) as [x|] eqn:Hx; simpl; [|by case_decide].
  apply lookup_lt_Some in Hx. case_decide as Hd.
  - subst j. rewrite list_lookup_insert_eq; [done|]. by rewrite length_replicate.
  - rewrite list_lookup_insert_ne by done.
    destruct (decide (j < length v)).
    + by rewrite lookup_replicate_2.
    + rewrite lookup_ge_None_2; [done|]. rewrite length_replicate. lia.
Qed.

Lemma entry_sub a b i j :
  wf a → wf b → nrows a = nrows b → ncols a = ncols b →
  entry (np.sub a b) i j = xorb (entry a i j) (entry b i j).
Proof.
  intros Ha Hb Hr Hc.
  destruct (decide (i < nrows a)) as [Hi|Hi].
  - destruct (wf_row a i Ha Hi) as (x & Hx & Hlx).
    destruct (wf_row b i Hb ltac:(lia)) as (y & Hy & Hly).
    rewrite (entry_row _ _ _ _ Hx), (entry_row _ _ _ _ Hy).
    unfold entry, item. simpl. rewrite lookup_zip_with, Hx, Hy. simpl.
    rewrite lookup_zip_with.
    destruct (decide (j < ncols a)) as [Hj|Hj].
    + destruct (lookup_lt_is_Some_2 x j) as [u ->]; [lia|].
      destruct (lookup_lt_is_Some_2 y j) as [w ->]; [lia|]. done.
    + rewrite (lookup_ge_None_2 x j), (lookup_ge_None_2 y j) by lia. done.
  - rewrite (entry_out_row a), (entry_out_row b) by (done || lia).
    unfold entry, item. simpl. rewrite lookup_zip_with.
    rewrite (lookup_ge_None_2 (body a) i); [done|]. destruct Ha as [-> _]. lia.
Qed.

(** The two tests of [is_canonical_form], on entries. *)
Lemma block_test a r :
  wf a → r ≤ nrows a → r ≤ ncols a →
  np.count_nonzero (np.sub (np.slice_to a r r)
                      (np.diag (np.diagonal (np.slice_to a r r)))) = 0
  ↔ ∀ i j, i < r → j < r → i ≠ j → entry a i j = false.
Proof.
  intros Hwf Hr Hc. rewrite count_nonzero_0.
  set (block := np.slice_to a r r).
  assert (nrows block = r ∧ ncols block = r) as [Hbr Hbc] by (simpl; lia).
  assert (∀ i j, entry (np.sub block (np.diag (np.diagonal block))) i j =
                 if decide (i < r ∧ j < r ∧ i ≠ j) then entry a i j else false) as He.
  { intros i j. rewrite entry_sub; first last.
    - simpl. rewrite length_diagonal. lia.
    - simpl. rewrite length_diagonal. lia.
    - apply wf_diag.
    - by apply wf_slice_to.
    - rewrite entry_diag. unfold block at 1. rewrite entry_slice_to.
      destruct (decide (i = j)) as [<-|Hne].
      + destruct (decide (i < r)) as [Hi|Hi].
        * rewrite lookup_diagonal by lia. simpl. unfold block.
          rewrite entry_slice_to, decide_True by done.
          rewrite decide_False by lia. apply xorb_nilpotent.
        * rewrite lookup_ge_None_2 by (rewrite length_diagonal; lia).
          rewrite !decide_False by lia. done.
      + rewrite xorb_false_r. repeat case_decide; (done || lia). }
  split.
  - intros H i j Hi Hj Hne. specialize (H i j). rewrite He in H.
    by rewrite decide_True in H.
  - intros H i j. rewrite He. case_decide; [|done]. apply H; tauto.
Qed.

Lemma rows_test a r :
  np.count_nonzero (np.slice_from a r 0) = 0 ↔ ∀ i j, r ≤ i → entry a i j = false.
Proof.
  rewrite count_nonzero_0. split.
  - intros H i j Hi. specialize (H (i - r) j). rewrite entry_slice_from in H.
    by replace (r + (i - r)) with i in H by lia.
  - intros H i j. rewrite entry_slice_from. apply H. lia.
Qed.

Lemma canonical_b_canon a : wf a → canonical_b a = true → canon_at a (diag_rank a).
Proof.
  intros Hwf H. pose proof (diag_rank_le a) as Hle.
  unfold canonical_b in H. apply andb_true_iff in H as [H1 H2].
  apply Nat.eqb_eq in H1, H2.
  pose proof (proj1 (block_test a (diag_rank a) Hwf ltac:(lia) ltac:(lia)) H1)
    as H1'. clear H1.
  rewrite rows_test in H2.
  split; [lia|]. split; [lia|]. split; [|done].
  intros i j Hi Hj. destruct (decide (i < diag_rank a)) as [Hi'|Hi'].
  - destruct (decide (i = j)) as [<-|Hne].
    + rewrite diag_rank_front; [|intros; apply H2; lia|done].
      symmetry. by apply bool_decide_eq_true.
    + rewrite H1' by done. symmetry. by apply bool_decide_eq_false.
  - rewrite H2 by lia. symmetry. apply bool_decide_eq_false. lia.
Qed.

Lemma canon_canonical_b a r : wf a → canon_at a r → canonical_b a = true.
Proof.
  intros Hwf Hc. pose proof (canon_at_diag_rank a r Hwf Hc) as Hr.
  destruct Hc as (H1 & H2 & Hu & Hz). unfold canonical_b. rewrite Hr.
  apply andb_true_iff. split; apply Nat.eqb_eq.
  - apply block_test; [done..|]. intros i j Hi Hj Hne.
    rewrite Hu by lia. by apply bool_decide_eq_false.
  - by apply rows_test.
Qed.

End canonical_check.

(** ** Running computations on a store *)

Section running.
Context {A B : Type}.
Implicit Types (m : M A) (k : A → M B) (h : heap).

Lemma bind_Ok m k h a h' : m h = Ok (a, h') → (m ≫= k) h = k a h'.
Proof. intros H. unfold mbind, M_bind. by rewrite H. Qed.

Lemma bind_Raise m k h e : m h = Raise e → (m ≫= k) h = Raise e.
Proof. intros H. unfold mbind, M_bind. by rewrite H. Qed.

Lemma bind_assoc {C} m k (g : B → M C) h :
  ((m ≫= k) ≫= g) h = (m ≫= (λ x, k x ≫= g)) h.
Proof. unfold mbind, M_bind. by destruct (m h) as [[]|]. Qed.

Lemma bind_Ok_inv m k h r :
  (m ≫= k) h = Ok r → ∃ a h1, m h = Ok (a, h1) ∧ k a h1 = Ok r.
Proof.
  unfold mbind, M_bind. destruct (m h) as [[a h1]|e]; [|done]. eauto.
Qed.

Lemma bind_Raise_inv m k h e :
  (m ≫= k) h = Raise e →
  m h = Raise e ∨ ∃ a h1, m h = Ok (a, h1) ∧ k a h1 = Raise e.
Proof.
  unfold mbind, M_bind. destruct (m h) as [[a h1]|e']; [eauto|].
  intros [= ->]. by left.
Qed.
End running.

Ltac inv_bind H :=
  let a := fresh "v" in let h := fresh "h" in let E := fresh "E" in
  apply bind_Ok_inv in H as (a & h & E & H).

Section primitives.
Implicit Types (a b : ndarray) (h : heap) (m : MatGF2) (l : loc) (i j k : nat).

Lemma extends_refl h : extends h h.
Proof. by split. Qed.

Lemma extends_trans h1 h2 h3 : extends h1 h2 → extends h2 h3 → extends h1 h3.
Proof. intros [H1 H2] [H3 H4]. split; eauto. Qed.

Lemma norm_index_nat n i :
  norm_index n (Z.of_nat i) = if decide (i < n) then Some i else None.
Proof.
  unfold norm_index. destruct (decide (i < n)).
  - rewrite decide_True by lia. by rewrite Nat2Z.id.
  - rewrite !decide_False by lia. done.
Qed.

Lemma run_get_data m h l : objs h !! m = Some l → get_data m h = Ok (l, h).
Proof. intros H. unfold get_data. by rewrite H. Qed.

Lemma run_load l h a : arrs h !! l = Some a → load l h = Ok (a, h).
Proof. intros H. unfold load. by rewrite H. Qed.

Lemma get_data_inv m h l h' : get_data m h = Ok (l, h') → objs h !! m = Some l ∧ h' = h.
Proof. unfold get_data. destruct (objs h !! m); [|done]. by intros [= -> ->]. Qed.

Lemma load_inv l h a h' : load l h = Ok (a, h') → arrs h !! l = Some a ∧ h' = h.
Proof. unfold load. destruct (arrs h !! l); [|done]. by intros [= -> ->]. Qed.

Lemma store_inv l a h u h' : store l a h = Ok (u, h') → h' = upd h l a.
Proof. unfold store. case_decide; [|done]. by intros [= _ <-]. Qed.

Lemma lift_inv {X} (e : exn) (o : option X) h x h' :
  lift e o h = Ok (x, h') → o = Some x ∧ h' = h.
Proof. destruct o; [|done]. by intros [= -> ->]. Qed.

Lemma run_getitem h m l a i j :
  objs h !! m = Some l → arrs h !! l = Some a → wf a →
  i < nrows a → j < ncols a → getitem m i j h = Ok (entry a i j, h).
Proof.
  intros Ho Ha Hwf Hi Hj. unfold getitem, get_data, load, mbind, M_bind.
  rewrite Ho, Ha, item_entry by done. done.
Qed.

Lemma run_swap_row h m l a i j :
  objs h !! m = Some l → arrs h !! l = Some a →
  swap_row m (Z.of_nat i) (Z.of_nat j) h =
  if decide (i < nrows a ∧ j < nrows a) then
    match np.swap_rows a i j with
    | Some a' => Ok (tt, upd h l a')
    | None => Raise IndexError
    end
  else Raise IndexError.
Proof.
  intros Ho Ha. unfold swap_row, get_data, load, store, mbind, M_bind.
  rewrite Ho, Ha, !norm_index_nat.
  pose proof (lookup_lt_Some _ _ _ Ha) as Hl.
  destruct (decide (i < nrows a)), (decide (j < nrows a)); simpl;
    try (rewrite decide_False by tauto; done).
  rewrite decide_True by done.
  destruct (np.swap_rows a i j); simpl; [|done]. by rewrite decide_True.
Qed.

Lemma run_swap_col h m l a i j :
  objs h !! m = Some l → arrs h !! l = Some a →
  swap_col m (Z.of_nat i) (Z.of_nat j) h =
  match np.swap_cols a i j with
  | Some a' => Ok (tt, upd h l a')
  | None => Raise IndexError
  end.
Proof.
  intros Ho Ha. unfold swap_col, get_data, load, store, mbind, M_bind.
  rewrite Ho, Ha, !norm_index_nat.
  pose proof (lookup_lt_Some _ _ _ Ha) as Hl.
  unfold np.swap_cols.
  destruct (decide (i < ncols a)), (decide (j < ncols a)); simpl;
    try (rewrite decide_False by tauto; done).
  rewrite decide_True by done. simpl. by rewrite decide_True.
Qed.

Lemma run_iadd_row h m l a i k :
  objs h !! m = Some l → arrs h !! l = Some a →
  iadd_row m i k h =
  match np.iadd_row a i k with
  | Some a' => Ok (tt, upd h l a')
  | None => Raise IndexError
  end.
Proof.
  intros Ho Ha. unfold iadd_row, get_data, load, store, mbind, M_bind.
  rewrite Ho, Ha. pose proof (lookup_lt_Some _ _ _ Ha) as Hl.
  destruct (np.iadd_row a i k); simpl; [|done]. by rewrite decide_True.
Qed.

Lemma upd_lookup_eq h l a a0 : arrs h !! l = Some a0 → arrs (upd h l a) !! l = Some a.
Proof. intros H%lookup_lt_Some. simpl. by apply list_lookup_insert_eq. Qed.

Lemma upd_lookup_ne h l l' a : l ≠ l' → arrs (upd h l a) !! l' = arrs h !! l'.
Proof. intros H. simpl. by apply list_lookup_insert_ne. Qed.

Lemma record_swap_inv (p : list nat) i j h p' h' :
  record_swap p i j h = Ok (p', h') → p' ≡ₚ p ∧ h' = h.
Proof.
  unfold record_swap. intros H.
  inv_bind H. apply lift_inv in E as [E ->].
  inv_bind H. apply lift_inv in E0 as [E0 ->].
  injection H as <- <-. split; [|done].
  assert (∀ (q : list nat) x n, index q x = Some n → q !! n = Some x) as Hidx.
  { clear. induction q as [|y q IH]; intros x n; simpl; [done|].
    case_decide; [intros [= <-]; by subst|].
    destruct (index q x) as [n'|] eqn:Hq; [|done]. intros [= <-]. by apply IH. }
  apply Permutation_insert_swap; by apply Hidx.
Qed.

Lemma index_elem_of (p : list nat) x : x ∈ p → is_Some (index p x).
Proof.
  induction p as [|y p IH]; [by intros ?%elem_of_nil|].
  intros [->|Hin]%elem_of_cons; simpl.
  - rewrite decide_True by done. eauto.
  - case_decide; [eauto|]. destruct (IH Hin) as [n ->]. eauto.
Qed.

Lemma run_record_swap (p : list nat) i j h :
  i ∈ p → j ∈ p → ∃ p', record_swap p i j h = Ok (p', h).
Proof.
  intros [n Hn]%index_elem_of [n' Hn']%index_elem_of.
  unfold record_swap, mbind, M_bind. rewrite Hn, Hn'. simpl. eauto.
Qed.

End primitives.

(** ** The elimination loop when [b] is stored apart from [mat_a] *)

Section separate.
Variables (mat_a b : MatGF2) (la lb : loc).
(** the shape of the array of [mat_a], the row count of the array of [b] *)
Variables (n c nb : nat).
Hypothesis apart : la ≠ lb.

Local Abbreviation st := (st mat_a b la lb n c nb).
Local Abbreviation frame := (frame la lb).

Lemma frame_refl h : frame h h.
Proof. by repeat split. Qed.

Lemma frame_trans h1 h2 h3 : frame h1 h2 → frame h2 h3 → frame h1 h3.
Proof.
  intros (H1 & H2 & H3) (H4 & H5 & H6). repeat split; try congruence.
  intros l Hl1 Hl2. rewrite H6, H3 by done. done.
Qed.

Lemma frame_upd h l a : l = la ∨ l = lb → frame h (upd h l a).
Proof.
  intros Hl. repeat split; simpl; [by rewrite length_insert|].
  intros l' H1 H2. apply list_lookup_insert_ne. destruct Hl; congruence.
Qed.

Lemma st_upd_a h a a' :
  st h a → wf a' → nrows a' = nrows a → ncols a' = ncols a → st (upd h la a') a'.
Proof.
  intros [] Hwf Hr Hc. split; simpl; try done; try congruence.
  - apply list_lookup_insert_eq. by eapply lookup_lt_Some.
  - destruct st_arr_b0 as (bb & Hbb & ?). exists bb.
    by rewrite list_lookup_insert_ne.
Qed.

Lemma st_upd_b h a bb :
  st h a → wf bb → nrows bb = nb → st (upd h lb bb) a.
Proof.
  intros [] Hwf Hr. split; simpl; try done.
  - by rewrite list_lookup_insert_ne.
  - exists bb. destruct st_arr_b0 as (bb0 & Hbb & ?).
    rewrite list_lookup_insert_eq; [done|]. by eapply lookup_lt_Some.
Qed.

(** A row operation on [mat_a] followed by the same on [b]. *)
Lemma run_swap_rows_both h a i j :
  st h a → i < n → j < n →
  match (swap_row mat_a (Z.of_nat i) (Z.of_nat j);;
         swap_row b (Z.of_nat i) (Z.of_nat j)) h with
  | Ok (_, h') => st h' (default a (np.swap_rows a i j)) ∧ frame h h'
  | Raise e => e = IndexError ∧ nb < n
  end.
Proof.
  intros Hst Hi Hj. pose proof Hst as [].
  destruct (swap_rows_spec a i j st_wf0) as (a1 & Ha1 & Hwf1 & Hr1 & Hc1 & _); [lia..|].
  erewrite bind_Ok; last first.
  { erewrite run_swap_row by done. rewrite decide_True by lia. by rewrite Ha1. }
  rewrite Ha1. simpl.
  pose proof (st_upd_a h a a1 Hst Hwf1 Hr1 Hc1) as Hst1.
  destruct st_arr_b0 as (bb & Hbb & Hwfb & Hnb).
  erewrite run_swap_row; [|apply Hst1|by rewrite upd_lookup_ne].
  case_decide as Hd; [|split; [done|lia]].
  destruct (swap_rows_spec bb i j Hwfb) as (b1 & Hb1 & Hwfb1 & Hrb1 & _); [lia..|].
  rewrite Hb1. split.
  - apply st_upd_b; [done..|lia].
  - eapply frame_trans; apply frame_upd; auto.
Qed.

Lemma run_iadd_rows_both h a i k :
  st h a → i < n → k < n →
  match (iadd_row mat_a i k;; iadd_row b i k) h with
  | Ok (_, h') => st h' (default a (np.iadd_row a i k)) ∧ frame h h'
  | Raise e => e = IndexError ∧ nb < n
  end.
Proof.
  intros Hst Hi Hj. pose proof Hst as [].
  destruct (iadd_row_spec a i k st_wf0) as (a1 & Ha1 & Hwf1 & Hr1 & Hc1 & _); [lia..|].
  erewrite bind_Ok; last first.
  { erewrite run_iadd_row by done. by rewrite Ha1. }
  rewrite Ha1. simpl.
  pose proof (st_upd_a h a a1 Hst Hwf1 Hr1 Hc1) as Hst1.
  destruct st_arr_b0 as (bb & Hbb & Hwfb & Hnb).
  erewrite run_iadd_row; [|apply Hst1|by rewrite upd_lookup_ne].
  destruct (decide (i < nb ∧ k < nb)) as [Hd|Hd].
  - destruct (iadd_row_spec bb i k Hwfb) as (b1 & Hb1 & Hwfb1 & Hrb1 & _); [lia..|].
    rewrite Hb1. split.
    + apply st_upd_b; [done..|lia].
    + eapply frame_trans; apply frame_upd; auto.
  - assert (np.iadd_row bb i k = None) as ->; [|split; [done|lia]].
    unfold np.iadd_row. destruct Hwfb as [Hlen _].
    destruct (decide (i < nb)).
    + rewrite (lookup_ge_None_2 (body bb) k) by lia.
      by destruct (body bb !! i).
    + by rewrite (lookup_ge_None_2 (body bb) i) by lia.
Qed.

Lemma run_row_swap h a row pr rp :
  st h a → row < n → pr < n → rp ≡ₚ seq 0 n →
  match (swap_row mat_a (Z.of_nat row) (Z.of_nat pr);;
         swap_row b (Z.of_nat row) (Z.of_nat pr);;
         record_swap rp row pr) h with
  | Ok (rp', h') => st h' (default a (np.swap_rows a row pr)) ∧ frame h h' ∧ rp' ≡ₚ rp
  | Raise e => e = IndexError ∧ nb < n
  end.
Proof.
  intros Hst Hrow Hpr Hrp.
  rewrite <- (bind_assoc (swap_row mat_a (Z.of_nat row) (Z.of_nat pr))
                (λ _, swap_row b (Z.of_nat row) (Z.of_nat pr))
                (λ _, record_swap rp row pr)).
  pose proof (run_swap_rows_both h a row pr Hst Hrow Hpr) as H.
  destruct ((swap_row mat_a (Z.of_nat row) (Z.of_nat pr);;
             swap_row b (Z.of_nat row) (Z.of_nat pr)) h) as [[[] h1]|e] eqn:E.
  - erewrite bind_Ok by exact E. destruct H as [Hst1 Hfr].
    destruct (run_record_swap rp row pr h1) as [rp' Hrun].
    { rewrite Hrp. apply elem_of_seq. lia. }
    { rewrite Hrp. apply elem_of_seq. lia. }
    rewrite Hrun. apply record_swap_inv in Hrun as [? _]. done.
  - by erewrite bind_Raise by exact E.
Qed.

Lemma run_col_swap h a row pc cp :
  st h a → row < c → pc < c → cp ≡ₚ seq 0 c →
  ∃ cp' a', np.swap_cols a row pc = Some a' ∧
    (swap_col mat_a (Z.of_nat row) (Z.of_nat pc);; record_swap cp row pc) h
    = Ok (cp', upd h la a') ∧
    st (upd h la a') a' ∧ frame h (upd h la a') ∧ cp' ≡ₚ cp.
Proof.
  intros Hst Hrow Hpc Hcp. pose proof Hst as [].
  destruct (swap_cols_spec a row pc st_wf0) as (a1 & Ha1 & Hwf1 & Hr1 & Hc1 & _); [lia..|].
  destruct (run_record_swap cp row pc (upd h la a1)) as [cp' Hrun].
  { rewrite Hcp. apply elem_of_seq. lia. }
  { rewrite Hcp. apply elem_of_seq. lia. }
  exists cp', a1. split; [done|]. split.
  - erewrite bind_Ok; [exact Hrun|]. erewrite run_swap_col by done. by rewrite Ha1.
  - split; [by apply (st_upd_a h a)|]. split; [apply frame_upd; auto|].
    by apply record_swap_inv in Hrun as [? _].
Qed.

Lemma run_pivot_step h a row rp cp :
  st h a → row < n → row < c → rp ≡ₚ seq 0 n → cp ≡ₚ seq 0 c →
  match pivot_step mat_a b row rp cp h with
  | Ok (None, h') => pivoted a row = None ∧ h' = h
  | Ok (Some (rp', cp'), h') =>
      ∃ a', pivoted a row = Some a' ∧ st h' a' ∧ frame h h' ∧
            rp' ≡ₚ rp ∧ cp' ≡ₚ cp
  | Raise e => e = IndexError ∧ nb < n
  end.
Proof.
  intros Hst Hrow Hcol Hrp Hcp. pose proof Hst as []. unfold pivot_step.
  erewrite bind_Ok by (eapply run_getitem; (done || lia)).
  pose proof (pivoted_pivot a row) as Hpiv.
  unfold pivoted in *. destruct (entry a row row) eqn:Hkk; simpl.
  { exists a. auto using frame_refl. }
  erewrite bind_Ok by (by apply run_get_data).
  erewrite bind_Ok by (by apply run_load).
  destruct (np.nonzero2 (np.slice_from a row row)) as [|[p0 p1] l] eqn:Hnz; [done|].
  assert ((p0, p1) ∈ np.nonzero2 (np.slice_from a row row)) as Hin
    by (rewrite Hnz; apply list_elem_of_here).
  apply elem_of_nonzero2 in Hin. rewrite item_slice_from in Hin.
  apply item_true in Hin as (Hp0 & Hp1 & _); [|done].
  specialize (Hpiv _ st_wf0 ltac:(lia) ltac:(lia) eq_refl).
  (* the row swap *)
  set (a1 := if decide (p0 + row ≠ row)
             then default a (np.swap_rows a row (p0 + row)) else a) in *.
  set (row_swap := if decide (p0 + row ≠ row) then _ else _).
  assert (match row_swap h with
          | Ok (rp', h') => st h' a1 ∧ frame h h' ∧ rp' ≡ₚ rp
          | Raise e => e = IndexError ∧ nb < n
          end) as Hrs.
  { subst row_swap a1. destruct (decide (p0 + row ≠ row)).
    - apply run_row_swap; (done || lia).
    - cbn. auto using frame_refl. }
  destruct (row_swap h) as [[rp' h1]|e] eqn:E1;
    [erewrite bind_Ok by exact E1|by erewrite bind_Raise by exact E1].
  destruct Hrs as (Hst1 & Hfr1 & Hrp').
  (* the column swap *)
  set (a2 := if decide (p1 + row ≠ row)
             then default a1 (np.swap_cols a1 row (p1 + row)) else a1) in *.
  set (col_swap := if decide (p1 + row ≠ row) then _ else _).
  assert (∃ cp' h2, col_swap h1 = Ok (cp', h2) ∧ st h2 a2 ∧ frame h1 h2 ∧ cp' ≡ₚ cp)
    as (cp' & h2 & E2 & Hst2 & Hfr2 & Hcp').
  { subst col_swap a2. destruct (decide (p1 + row ≠ row)).
    - destruct (run_col_swap h1 a1 row (p1 + row) cp Hst1)
        as (cp' & a' & Ha' & Hrun & ? & ? & ?); [lia..|done|].
      rewrite Ha'. simpl. eauto 10.
    - exists cp, h1. cbn. auto using frame_refl. }
  erewrite bind_Ok by exact E2.
  destruct Hst2 as [].
  erewrite bind_Ok by (eapply run_getitem; (done || lia)).
  rewrite Hpiv. exists a2. split; [done|]. split; [by split|].
  split; [by eapply frame_trans|]. done.
Qed.

Lemma run_for_iadd row (l : list nat) : ∀ h a,
  st h a → row < n → (∀ i, i ∈ l → i < n) →
  match for_ l (λ er _, iadd_row mat_a er row;; iadd_row b er row) tt h with
  | Ok (_, h') =>
      st h' (foldl (λ a er, default a (np.iadd_row a er row)) a l) ∧ frame h h'
  | Raise e => e = IndexError ∧ nb < n
  end.
Proof.
  induction l as [|er l IH]; intros h a Hst Hrow Hl; simpl.
  { auto using frame_refl. }
  pose proof (run_iadd_rows_both h a er row Hst) as H.
  destruct ((iadd_row mat_a er row;; iadd_row b er row) h) as [[[] h1]|e] eqn:E;
    [erewrite bind_Ok by exact E|erewrite bind_Raise by exact E].
  - destruct H as [Hst1 Hfr1]; [apply Hl; left|done|].
    specialize (IH h1 _ Hst1 Hrow).
    destruct (for_ l _ tt h1) as [[[] h2]|e]; [|apply IH; intros; apply Hl; by right].
    destruct IH as [? ?]; [intros; apply Hl; by right|].
    split; [done|]. by eapply frame_trans.
  - apply H; [apply Hl; left|done].
Qed.

Lemma run_eliminate h a row :
  st h a → row < n →
  match eliminate mat_a b row h with
  | Ok (_, h') => st h' (eliminated a row) ∧ frame h h'
  | Raise e => e = IndexError ∧ nb < n
  end.
Proof.
  intros Hst Hrow. pose proof Hst as []. unfold eliminate.
  erewrite bind_Ok by (by apply run_get_data).
  erewrite bind_Ok by (by apply run_load).
  apply run_for_iadd; [done..|].
  intros i Hi. apply elem_of_eliminate_rows in Hi; [lia|done].
Qed.

(** The loop computes [reduced] on the array of [mat_a]; it can only fail
    on a [b] with too few rows. *)
Lemma refines_eliminate_loop (rng : list nat) : ∀ h a rp cp,
  st h a → (∀ i, i ∈ rng → i < n ∧ i < c) → rp ≡ₚ seq 0 n → cp ≡ₚ seq 0 c →
  match eliminate_loop mat_a b rng rp cp h with
  | Ok ((rp', cp'), h') =>
      st h' (reduced a rng) ∧ frame h h' ∧ rp' ≡ₚ seq 0 n ∧ cp' ≡ₚ seq 0 c
  | Raise e => e = IndexError ∧ nb < n
  end.
Proof.
  induction rng as [|row rng IH]; intros h a rp cp Hst Hrng Hrp Hcp; simpl.
  { auto using frame_refl. }
  destruct (Hrng row) as [Hr Hc]; [left|].
  pose proof (run_pivot_step h a row rp cp Hst Hr Hc Hrp Hcp) as Hp.
  destruct (pivot_step mat_a b row rp cp h) as [[[[rp1 cp1]|] h1]|e] eqn:E;
    [erewrite bind_Ok by exact E..|by erewrite bind_Raise by exact E].
  - destruct Hp as (a1 & -> & Hst1 & Hfr1 & Hrp1 & Hcp1).
    pose proof (run_eliminate h1 a1 row Hst1 Hr) as He.
    destruct (eliminate mat_a b row h1) as [[[] h2]|e] eqn:E2;
      [erewrite bind_Ok by exact E2|by erewrite bind_Raise by exact E2].
    destruct He as [Hst2 Hfr2].
    specialize (IH h2 (eliminated a1 row) rp1 cp1 Hst2).
    destruct (eliminate_loop mat_a b rng rp1 cp1 h2) as [[[rp2 cp2] h3]|e];
      [|apply IH; [intros; apply Hrng; by right|by rewrite Hrp1|by rewrite Hcp1]].
    destruct IH as (? & ? & ? & ?);
      [intros; apply Hrng; by right|by rewrite Hrp1|by rewrite Hcp1|].
    split; [done|]. split; [|done]. eauto using frame_trans.
  - destruct Hp as [-> ->]. simpl. auto using frame_refl.
Qed.

End separate.

(** ** The loop under any sharing *)

Section any_sharing.
Variables (mat_a b : MatGF2).

(** The permutation lists are only ever changed by exchanging two of
    their entries. *)
Lemma pivot_step_perm row rp cp h rp' cp' h' :
  pivot_step mat_a b row rp cp h = Ok (Some (rp', cp'), h') →
  rp' ≡ₚ rp ∧ cp' ≡ₚ cp.
Proof.
  unfold pivot_step. intros H. inv_bind H.
  destruct (negb v); [|by injection H as <- <- _].
  inv_bind H. inv_bind H.
  destruct (np.nonzero2 _) as [|[p0 p1] ?]; [done|].
  inv_bind H. inv_bind H. inv_bind H.
  destruct v4; [|done]. injection H as <- <- _.
  split.
  - clear E3 E4. case_decide; [|by injection E2 as <- _].
    inv_bind E2. inv_bind E2. by apply record_swap_inv in E2 as [? _].
  - clear E2 E4. case_decide; [|by injection E3 as <- _].
    inv_bind E3. by apply record_swap_inv in E3 as [? _].
Qed.

Lemma eliminate_loop_perm (rng : list nat) : ∀ rp cp h rp' cp' h',
  eliminate_loop mat_a b rng rp cp h = Ok ((rp', cp'), h') →
  rp' ≡ₚ rp ∧ cp' ≡ₚ cp.
Proof.
  induction rng as [|row rng IH]; intros rp cp h rp' cp' h' H; simpl in H.
  { by injection H as <- <- _. }
  inv_bind H. destruct v as [[rp1 cp1]|]; [|by injection H as <- <- _].
  inv_bind H. apply pivot_step_perm in E as [H1 H2].
  apply IH in H as [H3 H4]. split; by etrans.
Qed.

(** On an array in canonical form the loop reads and writes nothing. *)
Lemma run_loop_canonical la a r rp cp h (n : nat) : ∀ k,
  objs h !! mat_a = Some la → arrs h !! la = Some a → wf a → canon_at a r →
  k + n = min (nrows a) (ncols a) →
  eliminate_loop mat_a b (seq k n) rp cp h = Ok ((rp, cp), h).
Proof.
  intros k Ho Ha Hwf (Hr & Hc & Hu & Hz). revert k.
  induction n as [|n IH]; intros k Hk; simpl; [done|].
  destruct (decide (k < r)) as [Hlt|Hge].
  - erewrite (bind_Ok (pivot_step mat_a b k rp cp)); last first.
    { unfold pivot_step.
      erewrite bind_Ok by (eapply run_getitem; (done || lia)).
      rewrite Hu by lia. by rewrite bool_decide_eq_true_2. }
    cbv beta iota.
    erewrite (bind_Ok (eliminate mat_a b k)); [apply IH; lia|].
    unfold eliminate.
    erewrite bind_Ok by (by apply run_get_data).
    erewrite bind_Ok by (by apply run_load).
    replace (filter _ _) with (@nil nat); [done|].
    symmetry. apply elem_of_nil_inv. intros i Hi.
    apply (elem_of_eliminate_rows a k i Hwf) in Hi as (Hne & Hi & He).
    rewrite Hu in He by lia. by apply bool_decide_eq_true in He.
  - rewrite (bind_Ok (pivot_step mat_a b k rp cp) _ h None h); [done|].
    unfold pivot_step.
    erewrite bind_Ok by (eapply run_getitem; (done || lia)).
    rewrite Hz by lia. simpl.
    erewrite bind_Ok by (by apply run_get_data).
    erewrite bind_Ok by (by apply run_load).
    replace (np.nonzero2 _) with (@nil (nat * nat)); [done|].
    symmetry. apply elem_of_nil_inv. intros [i j] Hi.
    apply elem_of_nonzero2 in Hi. rewrite item_slice_from in Hi.
    apply item_true in Hi as (_ & _ & He); [|done].
    rewrite Hz in He by lia. done.
Qed.

End any_sharing.

(** ** is_canonical_form *)

Section canonical_run.
Implicit Types (a : ndarray) (h : heap).

(** The scan of the diagonal never leaves early: the entries it looks at
    are the nonzero ones. *)
Lemma diag_scan_through (diag : list bool) (rng : list nat) :
  (∀ i, i ∈ rng → i < length (np.nonzero diag)) →
  diag_scan diag (np.nonzero diag) rng = Some Through.
Proof.
  induction rng as [|i rng IH]; intros Hrng; simpl; [done|].
  destruct (lookup_lt_is_Some_2 (np.nonzero diag) i) as [k Hk]; [apply Hrng; left|].
  rewrite Hk. simpl.
  assert (diag !! k = Some true) as ->.
  { apply elem_of_nonzero. by eapply list_elem_of_lookup_2. }
  simpl. apply IH. intros; apply Hrng; by right.
Qed.

Lemma run_is_canonical_form h m l a :
  objs h !! m = Some l → arrs h !! l = Some a →
  is_canonical_form m h = Ok (canonical_b a, after_check h a).
Proof.
  intros Ho Ha. unfold is_canonical_form.
  erewrite bind_Ok by (by apply run_get_data).
  erewrite bind_Ok by (by apply run_load).
  rewrite diag_scan_through by (intros i ?%elem_of_seq; lia).
  erewrite bind_Ok by done. cbv beta iota.
  erewrite bind_Ok by done.
  erewrite bind_Ok; last first.
  { unfold get_data. simpl. rewrite lookup_app_r by done.
    by rewrite Nat.sub_diag. }
  erewrite bind_Ok; last first.
  { unfold load. simpl. rewrite lookup_app_r by done.
    by rewrite Nat.sub_diag. }
  unfold canonical_b, after_check, diag_rank.
  by destruct (np.count_nonzero (np.sub _ _) =? 0).
Qed.

Lemma extends_after_check h a : extends h (after_check h a).
Proof. split; intros; simpl; by apply lookup_app_l_Some. Qed.

End canonical_run.

(** ** forward_eliminate *)

Section elimination_run.
Implicit Types (a : ndarray) (h : heap).

Lemma wf_zeros r c : wf (np.zeros r c).
Proof.
  split; simpl; [by rewrite length_replicate|].
  apply Forall_replicate. by rewrite length_replicate.
Qed.

Lemma run_init_mat h mb lb :
  objs h !! mb = Some lb →
  MatGF2_init (OfMat mb) h = Ok (length (objs h), Heap (objs h ++ [lb]) (arrs h)).
Proof. intros H. unfold MatGF2_init, get_data, mbind, M_bind. by rewrite H. Qed.

Lemma lookup_snoc {X} (l : list X) x : (l ++ [x]) !! length l = Some x.
Proof. rewrite lookup_app_r by done. by rewrite Nat.sub_diag. Qed.

Lemma forward_eliminate_spec h self l a b copy bb :
  objs h !! self = Some l → arrs h !! l = Some a → wf a →
  rhs_array h (nrows a) b = Some bb → wf bb → stored_apart h self b copy →
  match forward_eliminate self b copy h with
  | Ok ((mat_a, b', rp, cp), h') =>
      ∃ la lb, la ≠ lb ∧
        st mat_a b' la lb (nrows a) (ncols a) (nrows bb) h'
           (reduced a (seq 0 (min (nrows a) (ncols a)))) ∧
        rp ≡ₚ seq 0 (nrows a) ∧ cp ≡ₚ seq 0 (ncols a) ∧
        (∀ m x, objs h !! m = Some x → objs h' !! m = Some x) ∧
        (∀ x y, x ≠ la → x ≠ lb → arrs h !! x = Some y → arrs h' !! x = Some y) ∧
        (if copy then mat_a = length (objs h) ∧ la = length (arrs h)
         else mat_a = self ∧ la = l) ∧
        match b with
        | Some (OfMat _) => True
        | _ => length (arrs h) ≤ lb
        end
  | Raise e => e = IndexError ∧ nrows bb < nrows a
  end.
Proof.
  intros Ho Ha Hwf Hb Hwfb Hapart.
  pose proof (lookup_lt_Some _ _ _ Ha) as Hl.
  (* the matrix to eliminate *)
  set (h1 := if copy then Heap (objs h ++ [length (arrs h)]) (arrs h ++ [a]) else h).
  set (mat_a := if copy then length (objs h) else self).
  set (la := if copy then length (arrs h) else l).
  assert ((if copy then l ← get_data self; MatGF2_of_data l else mret self) h
          = Ok (mat_a, h1)) as E1.
  { subst h1 mat_a. destruct copy; [|done].
    unfold get_data, MatGF2_of_data, load, mbind, M_bind. by rewrite Ho, Ha. }
  assert (objs h1 !! mat_a = Some la ∧ arrs h1 !! la = Some a ∧ extends h h1)
    as (Ho1 & Ha1 & Hext1).
  { subst h1 mat_a la. destruct copy; [|auto using extends_refl].
    simpl. rewrite !lookup_snoc. do 2 (split; [done|]).
    split; intros; simpl; by apply lookup_app_l_Some. }
  (* the right-hand side *)
  set (arg := match b with None => OfArray (np.zeros (nrows a) 1) | Some b0 => b0 end).
  assert (∃ lb h2, MatGF2_init arg h1 = Ok (length (objs h1), h2) ∧
            objs h2 !! length (objs h1) = Some lb ∧ arrs h2 !! lb = Some bb ∧
            extends h1 h2 ∧ la ≠ lb ∧
            match b with Some (OfMat _) => True | _ => length (arrs h) ≤ lb end)
    as (lb & h2 & E2 & Ho2 & Hb2 & Hext2 & Hne & Hlb).
  { assert (length (arrs h) ≤ length (arrs h1) ∧ la < length (arrs h1)) as [Hlen Hla].
    { subst h1 la. destruct copy; simpl; [rewrite length_app; simpl|]; lia. }
    assert (∀ x, arg = OfArray x → x = bb → ∃ lb h2,
              MatGF2_init arg h1 = Ok (length (objs h1), h2) ∧
              objs h2 !! length (objs h1) = Some lb ∧ arrs h2 !! lb = Some bb ∧
              extends h1 h2 ∧ la ≠ lb ∧ length (arrs h) ≤ lb) as Hnew.
    { intros x -> ->. exists (length (arrs h1)), (Heap (objs h1 ++ [length (arrs h1)]) (arrs h1 ++ [bb])).
      split; [done|]. simpl. rewrite !lookup_snoc. do 2 (split; [done|]).
      split; [split; intros; simpl; by apply lookup_app_l_Some|]. lia. }
    subst arg. destruct b as [[mb|x]|]; simpl in Hb.
    - destruct (objs h !! mb) as [lb|] eqn:Hmb; [|done]. simpl in Hb.
      exists lb, (Heap (objs h1 ++ [lb]) (arrs h1)).
      split; [apply run_init_mat; by apply Hext1|].
      simpl. rewrite lookup_snoc. split; [done|].
      split; [by apply Hext1|].
      split; [split; intros; simpl; [by apply lookup_app_l_Some|done]|].
      split; [|done]. apply lookup_lt_Some in Hb.
      subst la. destruct copy; [lia|].
      destruct Hapart as [?|Hapart]; [done|].
      intros ->. apply Hapart. trans (Some lb); [exact Hmb|symmetry; exact Ho].
    - injection Hb as ->. destruct (Hnew bb) as (lb & h2 & ?); [done..|].
      exists lb, h2. tauto.
    - injection Hb as <-. destruct (Hnew (np.zeros (nrows a) 1)) as (lb & h2 & ?); [done..|].
      exists lb, h2. tauto. }
  (* the loop *)
  unfold forward_eliminate.
  erewrite bind_Ok by exact E1.
  erewrite bind_Ok by (by apply run_get_data).
  erewrite bind_Ok by (by apply run_load).
  fold arg. erewrite bind_Ok by exact E2.
  assert (st mat_a (length (objs h1)) la lb (nrows a) (ncols a) (nrows bb) h2 a) as Hst.
  { split; try done; [by apply Hext2|by apply Hext2|by exists bb]. }
  pose proof (refines_eliminate_loop mat_a (length (objs h1)) la lb
                (nrows a) (ncols a) (nrows bb) Hne
                (seq 0 (min (nrows a) (ncols a))) h2 a
                (seq 0 (nrows a)) (seq 0 (ncols a)) Hst) as Hloop.
  destruct (eliminate_loop _ _ _ _ _ h2) as [[[rp cp] h3]|e] eqn:E3;
    [erewrite bind_Ok by exact E3|
     erewrite bind_Raise by exact E3;
     apply Hloop; [intros i ?%elem_of_seq; lia|done|done]].
  destruct Hloop as (Hst3 & (Hfo & Hfl & Hfa) & Hrp & Hcp);
    [intros i ?%elem_of_seq; lia|done|done|].
  exists la, lb. do 4 (split; [done|]).
  split; [|split]; [| |split; [|done]].
  - intros m x Hm. rewrite Hfo. by apply Hext2, Hext1.
  - intros x y Hx1 Hx2 Hx. rewrite Hfa by done. by apply Hext2, Hext1.
  - subst mat_a la. by destruct copy.
Qed.

End elimination_run.

(** ** get_rank *)

Section rank_run.
Implicit Types (a : ndarray) (h : heap).

Lemma reduced_full a :
  wf a →
  let a' := reduced a (seq 0 (min (nrows a) (ncols a))) in
  wf a' ∧ nrows a' = nrows a ∧ ncols a' = ncols a ∧ canon_at a' (diag_rank a').
Proof.
  intros Hwf a'.
  destruct (reduced_canon (min (nrows a) (ncols a)) a 0 Hwf) as (H1 & H2 & H3 & r & H4).
  - intros i j _ Hj. lia.
  - done.
  - do 3 (split; [done|]). by rewrite (canon_at_diag_rank _ r).
Qed.

Lemma run_get_rank h m l a :
  objs h !! m = Some l → arrs h !! l = Some a → wf a →
  ∃ h', get_rank m h = Ok (rank_of a, h') ∧ extends h h'.
Proof.
  intros Ho Ha Hwf. unfold get_rank, rank_of.
  erewrite bind_Ok by (by eapply run_is_canonical_form).
  pose proof (extends_after_check h a) as [Hxo Hxa].
  destruct (canonical_b a) eqn:Hc; simpl.
  - exists (after_check h a). split; [|by split].
    erewrite bind_Ok by done.
    erewrite bind_Ok by (apply run_get_data; by apply Hxo).
    erewrite bind_Ok by (apply run_load; by apply Hxa). done.
  - pose proof (forward_eliminate_spec (after_check h a) m l a None true
                  (np.zeros (nrows a) 1) (Hxo _ _ Ho) (Hxa _ _ Ha) Hwf eq_refl
                  (wf_zeros _ _) (or_introl eq_refl)) as Hfe.
    destruct (forward_eliminate m None true (after_check h a))
      as [[[[[mat_a b'] rp] cp] h']|e] eqn:E; [|simpl in Hfe; lia].
    destruct Hfe as (la & lb & Hne & Hst & _ & _ & Hfo & Hfa & [_ Hla] & Hlb).
    destruct Hst. exists h'. split.
    + erewrite bind_Ok; last first.
      { erewrite bind_Ok by exact E. done. }
      simpl.
      erewrite bind_Ok by (by apply run_get_data).
      erewrite bind_Ok by (by apply run_load). done.
    + split.
      * intros ?? H. by apply Hfo, Hxo.
      * intros x y H. pose proof (lookup_lt_Some _ _ _ H) as Hx.
        assert (length (arrs h) < length (arrs (after_check h a))) as Hlen.
        { simpl. rewrite length_app. simpl. lia. }
        apply Hfa; [lia|lia|]. by apply Hxa.
Qed.

End rank_run.

(** ** Row spaces over GF(2) *)

Section vectors.
Implicit Types (u v w : list bool) (R : list (list bool)) (n : nat).

Lemma get_vxor u v j : length u = length v → (vxor u v).[j] = xorb u.[j] v.[j].
Proof.
  intros Hl. unfold vxor. rewrite lookup_zip_with.
  destruct (decide (j < length u)) as [Hj|Hj].
  - destruct (lookup_lt_is_Some_2 u j Hj) as [x ->].
    destruct (lookup_lt_is_Some_2 v j) as [y ->]; [lia|]. done.
  - rewrite (lookup_ge_None_2 u j), (lookup_ge_None_2 v j) by lia. done.
Qed.

Lemma length_vxor u v : length u = length v → length (vxor u v) = length u.
Proof. intros H. unfold vxor. rewrite length_zip_with. lia. Qed.

Lemma get_zeros n j : (replicate n false).[j] = false.
Proof.
  destruct (decide (j < n)).
  - by rewrite lookup_replicate_2.
  - rewrite lookup_ge_None_2; [done|]. rewrite length_replicate. lia.
Qed.

Lemma vxor_comm u v : length u = length v → vxor u v = vxor v u.
Proof.
  intros H. apply row_ext; [by rewrite !length_vxor|].
  intros j _. rewrite !get_vxor by done. apply xorb_comm.
Qed.

Lemma vxor_assoc u v w :
  length u = length v → length v = length w →
  vxor u (vxor v w) = vxor (vxor u v) w.
Proof.
  intros H1 H2. apply row_ext.
  - rewrite !length_vxor; rewrite ?length_vxor; congruence.
  - intros j _. rewrite !get_vxor; rewrite ?length_vxor; try congruence.
    by rewrite xorb_assoc.
Qed.

Lemma vxor_zeros_l n v : length v = n → vxor (replicate n false) v = v.
Proof.
  intros H. apply row_ext.
  - rewrite length_vxor; by rewrite length_replicate.
  - intros j _. rewrite get_vxor by (by rewrite length_replicate).
    by rewrite get_zeros, xorb_false_l.
Qed.

Lemma vxor_zeros_r n v : length v = n → vxor v (replicate n false) = v.
Proof.
  intros H. rewrite vxor_comm by (by rewrite length_replicate).
  by apply vxor_zeros_l.
Qed.

Lemma vxor_cancel u v : length u = length v → vxor u (vxor u v) = v.
Proof.
  intros H. apply row_ext.
  - rewrite !length_vxor; rewrite ?length_vxor; congruence.
  - intros j _. rewrite !get_vxor; rewrite ?length_vxor; try congruence.
    by rewrite <- xorb_assoc, xorb_nilpotent, xorb_false_l.
Qed.

(** *** Spans *)

Lemma span_length R n v : Forall (λ r, length r = n) R → span R n v → length v = n.
Proof.
  intros HR. induction 1 as [|r v Hr _ IH]; [by rewrite length_replicate|].
  rewrite length_vxor; rewrite (Forall_forall _ R) in HR; rewrite (HR r Hr); done.
Qed.

Lemma span_row R n r : Forall (λ r, length r = n) R → r ∈ R → span R n r.
Proof.
  intros HR Hr. rewrite <- (vxor_zeros_r n r).
  - apply span_add; [done|constructor].
  - rewrite Forall_forall in HR. by apply HR.
Qed.

Lemma span_vxor R n v w :
  Forall (λ r, length r = n) R → span R n v → span R n w → span R n (vxor v w).
Proof.
  intros HR Hv Hw. pose proof (span_length R n w HR Hw) as Hlw.
  induction Hv as [|r v Hr Hv IH].
  - by rewrite vxor_zeros_l.
  - pose proof (span_length R n v HR Hv) as Hlv.
    assert (length r = n) as Hlr by (rewrite Forall_forall in HR; by apply HR).
    rewrite <- vxor_assoc by congruence. by apply span_add.
Qed.

(** The span is the least set of vectors that contains the rows and is
    closed under sums. *)
Lemma span_least R R' n v :
  Forall (λ r, length r = n) R' →
  (∀ r, r ∈ R → span R' n r) → span R n v → span R' n v.
Proof.
  intros HR' Hrows. induction 1 as [|r v Hr _ IH]; [constructor|].
  apply span_vxor; auto.
Qed.

Lemma span_same_rows R R' n v :
  Forall (λ r, length r = n) R → Forall (λ r, length r = n) R' →
  (∀ r, r ∈ R ↔ r ∈ R') → span R n v ↔ span R' n v.
Proof.
  intros HR HR' H. split; apply span_least; try done.
  - intros r Hr. apply span_row; [done|]. by apply H.
  - intros r Hr. apply span_row; [done|]. by apply H.
Qed.

(** *** Counting *)

Lemma card_span_unique R n N N' : card_span R n N → card_span R n N' → N = N'.
Proof.
  intros (l & Hnd & Hl & <-) (l' & Hnd' & Hl' & <-).
  apply Permutation_length, NoDup_Permutation; [done..|].
  intros v. by rewrite Hl, Hl'.
Qed.

Lemma card_span_same R R' n N :
  (∀ v, span R n v ↔ span R' n v) → card_span R n N → card_span R' n N.
Proof.
  intros H (l & Hnd & Hl & <-). exists l. split; [done|]. split; [|done].
  intros v. by rewrite Hl.
Qed.

(** A linear map that is one-to-one on vectors of length [n] carries the
    row space of [R] onto that of its image. *)
Lemma card_span_image (f : list bool → list bool) R n n' N :
  Forall (λ r, length r = n) R →
  (∀ v, length v = n → length (f v) = n') →
  f (replicate n false) = replicate n' false →
  (∀ u v, length u = n → length v = n → f (vxor u v) = vxor (f u) (f v)) →
  (∀ u v, length u = n → length v = n → f u = f v → u = v) →
  card_span R n N → card_span (f <$> R) n' N.
Proof.
  intros HR Hlen Hzero Hlin Hinj (l & Hnd & Hl & <-).
  assert (∀ w, span (f <$> R) n' w ↔ ∃ v, span R n v ∧ w = f v) as Himg.
  { intros w. split.
    - induction 1 as [|r' w Hr' _ (v & Hv & ->)].
      + exists (replicate n false). split; [constructor|done].
      + apply list_elem_of_fmap in Hr' as (r & -> & Hr).
        exists (vxor r v). split; [by apply span_add|].
        rewrite Hlin; [done| |by eapply span_length].
        rewrite Forall_forall in HR. by apply HR.
    - intros (v & Hv & ->). induction Hv as [|r v Hr Hv IH].
      + rewrite Hzero. constructor.
      + rewrite Hlin; [|rewrite Forall_forall in HR; by apply HR|by eapply span_length].
        apply span_add; [|done]. by apply list_elem_of_fmap_2. }
  exists (f <$> l). split; [|split; [|by rewrite length_fmap]].
  - apply NoDup_fmap_2_strong; [|done]. intros u v Hu Hv.
    apply Hinj; eapply span_length; try done; by apply Hl.
  - intros w. rewrite Himg, list_elem_of_fmap. split.
    + intros (v & -> & Hv). exists v. split; [|done]. by apply Hl.
    + intros (v & Hv & ->). exists v. split; [done|]. by apply Hl.
Qed.

End vectors.

(** ** Row and column operations and the size of the row space *)

Section operations.
Implicit Types (a : ndarray) (u v w : list bool) (R : list (list bool)).

Lemma same_card_refl a : same_card a a.
Proof. by intros N. Qed.

Lemma same_card_sym a a' : same_card a a' → same_card a' a.
Proof. intros H N. symmetry. apply H. Qed.

Lemma same_card_trans a1 a2 a3 : same_card a1 a2 → same_card a2 a3 → same_card a1 a3.
Proof. intros H1 H2 N. etrans; [apply H1|apply H2]. Qed.

Lemma same_span_same_card a a' :
  ncols a' = ncols a →
  (∀ v, span (body a) (ncols a) v ↔ span (body a') (ncols a) v) → same_card a a'.
Proof.
  intros Hc H N. rewrite Hc. split; apply card_span_same; [done|].
  intros v. by rewrite H.
Qed.

Lemma card_span_reindex f σ R n n' N :
  reads f σ n n' → (∀ i, i < n → ∃ j, j < n' ∧ σ j = i) →
  Forall (λ r, length r = n) R →
  card_span R n N → card_span (f <$> R) n' N.
Proof.
  intros Hf Hsurj HR. apply card_span_image; [done|..].
  - intros v Hv. by apply Hf.
  - destruct (Hf (replicate n false)) as [Hl He]; [by rewrite length_replicate|].
    apply row_ext; [by rewrite length_replicate|].
    intros j Hj. rewrite He by lia. by rewrite !get_zeros.
  - intros u v Hu Hv.
    destruct (Hf u Hu) as [Hlu Heu], (Hf v Hv) as [Hlv Hev].
    destruct (Hf (vxor u v)) as [Hl He]; [rewrite length_vxor; congruence|].
    apply row_ext; [rewrite length_vxor; congruence|].
    intros j Hj. rewrite He by lia.
    rewrite !get_vxor by congruence. rewrite Heu, Hev by lia. done.
  - intros u v Hu Hv Heq.
    destruct (Hf u Hu) as [Hlu Heu], (Hf v Hv) as [Hlv Hev].
    apply row_ext; [congruence|]. intros i Hi.
    destruct (Hsurj i) as (j & Hj & <-); [lia|].
    rewrite <- Heu, <- Hev by done. by rewrite Heq.
Qed.

(** *** Exchanging two rows *)

Lemma elem_of_tr_lookup R i j r :
  i < length R → j < length R →
  (∃ k, R !! tr i j k = Some r) ↔ r ∈ R.
Proof.
  intros Hi Hj. rewrite list_elem_of_lookup. split; intros [k Hk].
  - eauto.
  - exists (tr i j k). by rewrite tr_tr.
Qed.

Lemma swap_rows_same_card a i j :
  wf a → i < nrows a → j < nrows a →
  same_card a (default a (np.swap_rows a i j)).
Proof.
  intros Hwf Hi Hj.
  destruct (swap_rows_spec a i j Hwf Hi Hj) as (a' & -> & Hwf' & Hr' & Hc' & Hb).
  simpl. apply same_span_same_card; [done|]. intros v.
  destruct Hwf as [Hl Hall], Hwf' as [Hl' Hall']. rewrite Hc' in Hall'.
  apply span_same_rows; [done..|]. intros r.
  rewrite <- (elem_of_tr_lookup (body a) i j r) by lia.
  rewrite list_elem_of_lookup. by setoid_rewrite Hb.
Qed.

(** *** Adding one row to another *)

Lemma iadd_row_same_card a i k :
  wf a → i < nrows a → k < nrows a → i ≠ k →
  same_card a (default a (np.iadd_row a i k)).
Proof.
  intros Hwf Hi Hk Hne.
  destruct (wf_row a i Hwf Hi) as (x & Hx & Hlx).
  destruct (wf_row a k Hwf Hk) as (y & Hy & Hly).
  destruct (iadd_row_spec a i k Hwf Hi Hk) as (a' & Ha' & Hwf' & Hr' & Hc' & _).
  rewrite Ha'. simpl. apply same_span_same_card; [done|].
  assert (body a' = <[i := vxor x y]> (body a)) as Hb.
  { unfold np.iadd_row in Ha'. rewrite Hx, Hy in Ha'. simpl in Ha'.
    by injection Ha' as <-. }
  destruct Hwf as [Hl Hall], Hwf' as [Hl' Hall']. rewrite Hc' in Hall'.
  assert (body a' !! i = Some (vxor x y)) as Hi'.
  { rewrite Hb. apply list_lookup_insert_eq. lia. }
  assert (∀ p, p ≠ i → body a' !! p = body a !! p) as Hp.
  { intros p Hpi. rewrite Hb. by apply list_lookup_insert_ne. }
  intros v. split; apply span_least; try done.
  - intros r [p Hr]%list_elem_of_lookup.
    destruct (decide (p = i)) as [->|Hpi].
    + assert (r = x) as -> by congruence.
      replace x with (vxor y (vxor x y)).
      * apply span_add; [apply list_elem_of_lookup; exists k; by rewrite Hp|].
        apply span_row; [done|]. apply list_elem_of_lookup. eauto.
      * rewrite (vxor_comm x y) by congruence. apply vxor_cancel. congruence.
    + apply span_row; [done|]. apply list_elem_of_lookup. exists p. by rewrite Hp.
  - intros r [p Hr]%list_elem_of_lookup.
    destruct (decide (p = i)) as [->|Hpi].
    + assert (r = vxor x y) as -> by congruence.
      apply span_add; [apply list_elem_of_lookup; eauto|].
      apply span_row; [done|]. apply list_elem_of_lookup. eauto.
    + rewrite Hp in Hr by done.
      apply span_row; [done|]. apply list_elem_of_lookup. eauto.
Qed.

(** *** Exchanging two columns *)

Lemma reads_swap_in_row c1 c2 n :
  c1 < n → c2 < n → reads (swap_in_row c1 c2) (tr c1 c2) n n.
Proof.
  intros H1 H2 r Hr. unfold swap_in_row. split; [by rewrite !length_insert|].
  intros j Hj. unfold tr. destruct (decide (j = c2)) as [->|Hne2].
  - rewrite list_lookup_insert_eq by (rewrite length_insert; lia).
    repeat case_decide; subst; done.
  - rewrite list_lookup_insert_ne by done.
    destruct (decide (j = c1)) as [->|Hne1].
    + by rewrite list_lookup_insert_eq by lia.
    + by rewrite list_lookup_insert_ne by done.
Qed.

Lemma swap_in_row_involutive c1 c2 r :
  c1 < length r → c2 < length r → swap_in_row c1 c2 (swap_in_row c1 c2 r) = r.
Proof.
  intros H1 H2.
  destruct (reads_swap_in_row c1 c2 (length r) H1 H2 r eq_refl) as [Hl He].
  destruct (reads_swap_in_row c1 c2 (length r) H1 H2 _ Hl) as [Hl' He'].
  apply row_ext; [done|]. intros j Hj.
  rewrite He' by lia. rewrite He by (apply tr_lt; lia). by rewrite tr_tr.
Qed.

Lemma swap_cols_same_card a c1 c2 :
  wf a → c1 < ncols a → c2 < ncols a →
  same_card a (default a (np.swap_cols a c1 c2)).
Proof.
  intros [Hl Hall] H1 H2. unfold np.swap_cols. rewrite decide_True by done. simpl.
  fold (swap_in_row c1 c2).
  assert (∀ i, i < ncols a → ∃ j, j < ncols a ∧ tr c1 c2 j = i) as Hsurj.
  { intros i Hi. exists (tr c1 c2 i). split; [by apply tr_lt|apply tr_tr]. }
  intros N. simpl. split.
  - apply (card_span_reindex _ (tr c1 c2)); [by apply reads_swap_in_row|done..].
  - intros H.
    apply (card_span_reindex (swap_in_row c1 c2) (tr c1 c2) _ (ncols a) (ncols a)) in H;
      [|by apply reads_swap_in_row|done|].
    + rewrite <- list_fmap_compose in H.
      rewrite (list_fmap_ext _ id (body a)) in H; [by rewrite list_fmap_id in H|].
      intros i r Hr. simpl. apply swap_in_row_involutive;
        by rewrite (Forall_lookup_1 _ _ _ _ Hall Hr).
    + apply Forall_fmap. eapply Forall_impl; [done|]. intros r Hr. simpl.
      by apply reads_swap_in_row.
Qed.

End operations.

(** ** The rank counts the row space *)

Section rank_card.
Implicit Types (a : ndarray) (u v w c : list bool) (R : list (list bool)).

Lemma pivoted_same_card a k a' :
  wf a → k < nrows a → k < ncols a → pivoted a k = Some a' → same_card a a'.
Proof.
  intros Hwf Hr Hc. unfold pivoted.
  destruct (entry a k k); [intros [= <-]; apply same_card_refl|].
  destruct (np.nonzero2 (np.slice_from a k k)) as [|[p0 p1] l] eqn:Hnz; [done|].
  assert ((p0, p1) ∈ np.nonzero2 (np.slice_from a k k)) as Hin
    by (rewrite Hnz; apply list_elem_of_here).
  apply elem_of_nonzero2 in Hin. rewrite item_slice_from in Hin.
  apply item_true in Hin as (Hp0 & Hp1 & _); [|done].
  intros [= <-].
  destruct (swap_rows_spec a k (p0 + k) Hwf) as (a1 & Ha1 & Hwf1 & Hr1 & Hc1 & _);
    [lia..|].
  pose proof (swap_rows_same_card a k (p0 + k) Hwf) as Hs1. rewrite Ha1 in *.
  simpl in Hs1.
  destruct (decide (p0 + k ≠ k)), (decide (p1 + k ≠ k)); simpl.
  - eapply same_card_trans; [apply Hs1; lia|].
    apply swap_cols_same_card; [done|lia..].
  - apply Hs1; lia.
  - apply swap_cols_same_card; [done|lia..].
  - apply same_card_refl.
Qed.

Lemma foldl_iadd_same_card (l : list nat) k : ∀ a,
  wf a → k < nrows a → k ∉ l → (∀ i, i ∈ l → i < nrows a) →
  same_card a (foldl (λ a er, default a (np.iadd_row a er k)) a l).
Proof.
  induction l as [|er l IH]; intros a Hwf Hk Hnk Hlt; simpl.
  { apply same_card_refl. }
  apply not_elem_of_cons in Hnk as [Hne Hnk].
  destruct (iadd_row_spec a er k Hwf) as (a1 & Ha1 & Hwf1 & Hr1 & Hc1 & _);
    [apply Hlt; left|done|].
  eapply same_card_trans.
  - apply (iadd_row_same_card a er k); [done|apply Hlt; left|done|done].
  - rewrite Ha1. simpl. apply IH; [done|lia|done|].
    intros i Hi. rewrite Hr1. apply Hlt. by right.
Qed.

Lemma eliminated_same_card a k : wf a → k < nrows a → same_card a (eliminated a k).
Proof.
  intros Hwf Hk. apply foldl_iadd_same_card; [done..| |].
  - rewrite elem_of_eliminate_rows by done. tauto.
  - intros i. rewrite elem_of_eliminate_rows by done. tauto.
Qed.

Lemma reduced_same_card (rng : list nat) : ∀ a,
  wf a → (∀ k, k ∈ rng → k < nrows a ∧ k < ncols a) → same_card a (reduced a rng).
Proof.
  induction rng as [|k rng IH]; intros a Hwf Hrng; simpl.
  { apply same_card_refl. }
  destruct (Hrng k) as [Hr Hc]; [left|].
  pose proof (pivoted_spec a k Hwf Hr Hc) as Hp.
  destruct (pivoted a k) as [a'|] eqn:E; [|apply same_card_refl].
  destruct Hp as (Hwf' & Hr' & Hc' & _).
  destruct (eliminated_spec a' k Hwf') as (Hwfe & Hre & Hce & _); [lia|].
  eapply same_card_trans; [by eapply pivoted_same_card|].
  eapply same_card_trans; [apply (eliminated_same_card a' k); [done|lia]|].
  apply IH; [done|]. intros i Hi. rewrite Hre, Hce, Hr', Hc'. apply Hrng. by right.
Qed.

(** *** The row space of a matrix in canonical form *)

Lemma length_all_bools k : length (all_bools k) = 2 ^ k.
Proof.
  induction k as [|k IH]; [done|]. simpl.
  rewrite length_app, !length_fmap, IH. lia.
Qed.

Lemma elem_of_all_bools k c : c ∈ all_bools k ↔ length c = k.
Proof.
  revert c. induction k as [|k IH]; intros c; simpl.
  - rewrite list_elem_of_singleton. by destruct c.
  - rewrite elem_of_app, !list_elem_of_fmap. split.
    + intros [(c' & -> & Hc)|(c' & -> & Hc)]; simpl; f_equal; by apply IH.
    + destruct c as [|[] c']; [done|..]; intros [= Hc]; [left|right];
        exists c'; (split; [done|by apply IH]).
Qed.

Lemma NoDup_all_bools k : NoDup (all_bools k).
Proof.
  induction k as [|k IH]; simpl; [apply NoDup_singleton|].
  apply NoDup_app. split; [|split].
  - apply NoDup_fmap_2; [|done]. by intros ?? [=].
  - intros c (c1 & -> & _)%list_elem_of_fmap (c2 & [=] & _)%list_elem_of_fmap.
  - apply NoDup_fmap_2; [|done]. by intros ?? [=].
Qed.

Lemma length_comb n c R : Forall (λ r, length r = n) R → length (comb n c R) = n.
Proof.
  intros HR. revert c. induction HR as [|r R Hr HR IH]; intros [|x c]; simpl;
    try by rewrite length_replicate.
  destruct x; [|done]. rewrite length_vxor; by rewrite ?IH.
Qed.

Lemma span_comb R' n c R :
  Forall (λ r, length r = n) R' → (∀ r, r ∈ R → r ∈ R') → span R' n (comb n c R).
Proof.
  intros HR'. revert c. induction R as [|r R IH]; intros [|x c] Hsub; simpl;
    try constructor.
  destruct x.
  - apply span_add; [apply Hsub; left|]. apply IH. intros; apply Hsub; by right.
  - apply IH. intros; apply Hsub; by right.
Qed.

Lemma comb_zeros n k R : comb n (replicate k false) R = replicate n false.
Proof.
  revert R. induction k as [|k IH]; intros [|r R]; simpl; auto.
Qed.

(** Selecting one more time the row at position [i]. *)
Lemma comb_flip n : ∀ R c i r x,
  Forall (λ r, length r = n) R → length c = length R →
  R !! i = Some r → c !! i = Some x →
  comb n (<[i := negb x]> c) R = vxor r (comb n c R).
Proof.
  induction R as [|y R IH]; intros [|b c] i r x HR Hl Hr Hx; try done.
  apply Forall_cons in HR as [Hy HR]. simpl in Hl.
  pose proof (length_comb n c R HR) as Hlc.
  destruct i as [|i]; simpl in *.
  - injection Hr as ->. injection Hx as ->.
    destruct x; simpl; [|done]. rewrite vxor_cancel; [done|congruence].
  - pose proof (Forall_lookup_1 _ _ _ _ HR Hr) as Hlr. simpl in Hlr.
    rewrite (IH c i r x) by (done || lia).
    destruct b; [|done].
    rewrite !vxor_assoc by congruence. f_equal. apply vxor_comm. congruence.
Qed.

(** With unit vectors in front, the coefficients can be read off the sum. *)
Lemma comb_unit n : ∀ R c off j,
  length c = length R → Forall (λ r, length r = n) R →
  (∀ i r, R !! i = Some r → r.[j] = bool_decide (off + i = j)) →
  (comb n c R).[j] = if decide (off ≤ j < off + length c) then c.[j - off] else false.
Proof.
  induction R as [|y R IH]; intros [|b c] off j Hl HR Hu; try done; simpl.
  { rewrite get_zeros. by case_decide. }
  apply Forall_cons in HR as [Hy HR]. simpl in Hl.
  assert ((comb n c R).[j] =
          if decide (S off ≤ j < S off + length c) then c.[j - S off] else false) as Hrec.
  { apply IH; [lia|done|]. intros i r Hr. rewrite (Hu (S i) r Hr).
    apply bool_decide_ext. lia. }
  assert (y.[j] = bool_decide (off = j)) as Hyj.
  { rewrite (Hu 0 y eq_refl). apply bool_decide_ext. lia. }
  assert ((if b then vxor y (comb n c R) else comb n c R).[j]
          = xorb (b && bool_decide (off = j)) (comb n c R).[j]) as ->.
  { destruct b; simpl; [|done]. rewrite get_vxor, Hyj; [done|].
    rewrite length_comb; done. }
  rewrite Hrec. destruct (decide (off = j)) as [<-|Hne].
  - rewrite bool_decide_eq_true_2 by done.
    rewrite decide_False by lia. rewrite decide_True by lia.
    rewrite Nat.sub_diag. simpl. by rewrite andb_true_r, xorb_false_r.
  - rewrite bool_decide_eq_false_2 by done. rewrite andb_false_r, xorb_false_l.
    destruct (decide (S off ≤ j < S off + length c)).
    + rewrite decide_True by lia.
      replace (j - off) with (S (j - S off)) by lia. done.
    + rewrite decide_False by lia. done.
Qed.

Lemma canon_card a r : wf a → canon_at a r → card_span (body a) (ncols a) (2 ^ r).
Proof.
  intros Hwf (Hr & Hc & Hu & Hz). pose proof Hwf as [Hl Hall].
  set (n := ncols a). set (Rr := take r (body a)).
  assert (Forall (λ x, length x = n) Rr) as HRr by (by apply Forall_take).
  assert (length Rr = r) as HlRr by (unfold Rr; rewrite length_take; lia).
  assert (∀ c j, length c = r → j < r → (comb n c Rr).[j] = c.[j]) as Hread.
  { intros c j Hlc Hj.
    rewrite (comb_unit n Rr c 0 j); [| congruence | done |].
    - rewrite decide_True by lia. by rewrite Nat.sub_0_r.
    - intros i x Hx. pose proof (lookup_lt_Some _ _ _ Hx) as Hi.
      unfold Rr in Hx. rewrite lookup_take_lt in Hx by lia.
      rewrite <- (entry_row a i j x Hx). apply Hu; lia. }
  exists ((λ c, comb n c Rr) <$> all_bools r).
  split; [|split; [|by rewrite length_fmap, length_all_bools]].
  - apply NoDup_fmap_2_strong; [|apply NoDup_all_bools].
    intros c c' Hc1%elem_of_all_bools Hc2%elem_of_all_bools Heq.
    apply row_ext; [congruence|]. intros j Hj.
    rewrite <- (Hread c j), <- (Hread c' j) by lia. by rewrite Heq.
  - intros v. rewrite list_elem_of_fmap. split.
    + intros (c & -> & _). apply span_comb; [done|].
      intros x Hx. unfold Rr in Hx. apply elem_of_take in Hx as (i & Hx & _).
      by eapply list_elem_of_lookup_2.
    + induction 1 as [|x v Hx _ (c & -> & Hlc)].
      * exists (replicate r false). split; [by rewrite comb_zeros|].
        apply elem_of_all_bools. by rewrite length_replicate.
      * apply elem_of_all_bools in Hlc.
        apply list_elem_of_lookup in Hx as [i Hx].
        pose proof (lookup_lt_Some _ _ _ Hx) as Hi.
        destruct (decide (i < r)) as [Hir|Hir].
        -- destruct (lookup_lt_is_Some_2 c i) as [b Hb]; [lia|].
           exists (<[i := negb b]> c). split.
           ++ symmetry. apply comb_flip; [done|congruence| |done].
              unfold Rr. by rewrite lookup_take_lt.
           ++ apply elem_of_all_bools. by rewrite length_insert.
        -- exists c. split; [|by apply elem_of_all_bools].
           assert (x = replicate n false) as ->.
           { apply row_ext.
             - rewrite length_replicate. by eapply (Forall_lookup_1 _ _ _ _ Hall).
             - intros j _. rewrite get_zeros, <- (entry_row a i j x Hx).
               apply Hz. lia. }
           apply vxor_zeros_l. by apply length_comb.
Qed.

(** The rank computed by [get_rank] is the one for which the row space has
    [2 ^ rank] vectors. *)
Theorem rank_of_card a : wf a → card_span (body a) (ncols a) (2 ^ rank_of a).
Proof.
  intros Hwf. unfold rank_of. destruct (canonical_b a) eqn:Hc.
  - apply canon_card; [done|]. by apply canonical_b_canon.
  - destruct (reduced_full a Hwf) as (Hwf' & Hr' & Hc' & Hcan).
    apply (reduced_same_card (seq 0 (min (nrows a) (ncols a))) a Hwf).
    + intros k ?%elem_of_seq. lia.
    + by apply canon_card.
Qed.

Lemma same_card_rank_of a a' : wf a → wf a' → same_card a a' → rank_of a = rank_of a'.
Proof.
  intros Hwf Hwf' Hs.
  pose proof (rank_of_card a Hwf) as H1. pose proof (rank_of_card a' Hwf') as H2.
  apply Hs in H1. pose proof (card_span_unique _ _ _ _ H1 H2) as H.
  apply (Nat.pow_inj_r 2); [lia|done].
Qed.

End rank_card.

(** ** Index lists: [permute_row] and [permute_col] *)

Section index_lists.
Implicit Types (a : ndarray) (h : heap) (idx : list Z) (ks : list nat).

Lemma norm_index_lt n i k : norm_index n i = Some k → k < n.
Proof. unfold norm_index. repeat case_decide; intros [= <-]; lia. Qed.

Lemma take_rows_spec a idx ks :
  wf a → mapM (norm_index (nrows a)) idx = Some ks →
  ∃ a', np.take_rows a idx = Some a' ∧ wf a' ∧
        nrows a' = length idx ∧ ncols a' = ncols a ∧
        Forall2 (λ k r, body a !! k = Some r) ks (body a').
Proof.
  intros Hwf Hks. apply mapM_Some in Hks.
  assert (∃ rows, mapM (λ i, k ← norm_index (nrows a) i; body a !! k) idx = Some rows ∧
                  Forall2 (λ k r, body a !! k = Some r) ks rows) as (rows & Hrows & Hf).
  { induction Hks as [|i k idx ks Hk _ (rows & IH1 & IH2)]; [by exists []|].
    destruct (wf_row a k Hwf) as (r & Hr & _); [by eapply norm_index_lt|].
    exists (r :: rows). split; [|by constructor].
    rewrite mapM_Some. constructor; [by rewrite Hk|by apply mapM_Some]. }
  unfold np.take_rows. rewrite Hrows. simpl. eexists. split; [done|].
  split; [|done]. split; simpl.
  - apply Forall2_length in Hf, Hks. congruence.
  - apply Forall_forall. intros r [i Hr]%list_elem_of_lookup.
    destruct (Forall2_lookup_r _ _ _ _ _ Hf Hr) as (k & _ & Hk).
    by eapply wf_lookup.
Qed.

Lemma take_rows_None a idx :
  mapM (norm_index (nrows a)) idx = None → np.take_rows a idx = None.
Proof.
  intros Hks. unfold np.take_rows.
  destruct (mapM (λ i, k ← norm_index (nrows a) i; body a !! k) idx) as [rows|] eqn:E;
    [|done].
  exfalso. assert (is_Some (mapM (norm_index (nrows a)) idx)) as [? ?]; [|congruence].
  apply mapM_is_Some. apply mk_is_Some, mapM_is_Some in E.
  eapply Forall_impl; [done|]. intros i [r Hr]. simpl in *.
  destruct (norm_index (nrows a) i); [done|by simpl in Hr].
Qed.

Lemma take_cols_spec a idx ks :
  wf a → mapM (norm_index (ncols a)) idx = Some ks →
  ∃ a', np.take_cols a idx = Some a' ∧ wf a' ∧
        nrows a' = nrows a ∧ ncols a' = length idx ∧
        body a' = (λ r, (λ k, r.[k]) <$> ks) <$> body a.
Proof.
  intros [Hl Hall] Hks. unfold np.take_cols. rewrite Hks. simpl.
  eexists. split; [done|]. split; [|done].
  apply length_mapM in Hks. split; simpl; [by rewrite length_fmap|].
  apply Forall_fmap, Forall_forall. intros r _. simpl. by rewrite length_fmap.
Qed.

(** Transferring the size of the row space is enough for equal ranks. *)
Lemma card_transfer_rank_of a a' :
  wf a → wf a' →
  (∀ N, card_span (body a) (ncols a) N → card_span (body a') (ncols a') N) →
  rank_of a = rank_of a'.
Proof.
  intros Hwf Hwf' H. pose proof (H _ (rank_of_card a Hwf)) as H1.
  pose proof (card_span_unique _ _ _ _ H1 (rank_of_card a' Hwf')) as H2.
  apply (Nat.pow_inj_r 2); [lia|done].
Qed.

Lemma take_rows_rank a idx ks a' :
  wf a → mapM (norm_index (nrows a)) idx = Some ks → ks ≡ₚ seq 0 (nrows a) →
  np.take_rows a idx = Some a' → wf a' ∧ rank_of a' = rank_of a.
Proof.
  intros Hwf Hks Hperm Ha'.
  destruct (take_rows_spec a idx ks Hwf Hks) as (a1 & Ha1 & Hwf' & Hr' & Hc' & Hf).
  assert (a1 = a') as -> by congruence. split; [done|].
  symmetry. apply card_transfer_rank_of; [done..|]. intros N. rewrite Hc'.
  apply card_span_same. intros v.
  destruct Hwf as [Hl Hall], Hwf' as [Hl' Hall']. rewrite Hc' in Hall'.
  apply span_same_rows; [done..|]. intros r. rewrite !list_elem_of_lookup. split.
  - intros [k Hk]. assert (k ∈ ks) as [i Hi]%list_elem_of_lookup.
    { rewrite Hperm. apply elem_of_seq. apply lookup_lt_Some in Hk. lia. }
    destruct (Forall2_lookup_l _ _ _ _ _ Hf Hi) as (r' & Hr1 & Hr2).
    exists i. congruence.
  - intros [i Hi]. destruct (Forall2_lookup_r _ _ _ _ _ Hf Hi) as (k & _ & Hk). eauto.
Qed.

Lemma take_cols_rank a idx ks a' :
  wf a → mapM (norm_index (ncols a)) idx = Some ks → ks ≡ₚ seq 0 (ncols a) →
  np.take_cols a idx = Some a' → wf a' ∧ rank_of a' = rank_of a.
Proof.
  intros Hwf Hks Hperm Ha'.
  destruct (take_cols_spec a idx ks Hwf Hks) as (a1 & Ha1 & Hwf' & Hr' & Hc' & Hb).
  assert (a1 = a') as -> by congruence. split; [done|].
  symmetry. apply card_transfer_rank_of; [done..|]. intros N. rewrite Hc', Hb.
  pose proof (length_mapM _ _ _ Hks) as Hlen. rewrite Hlen.
  apply (card_span_reindex _ (λ j, default 0 (ks !! j))); [| |apply Hwf].
  - intros r Hr. split; [by rewrite length_fmap|].
    intros j Hj. rewrite list_lookup_fmap.
    destruct (lookup_lt_is_Some_2 ks j Hj) as [k ->]. done.
  - intros i Hi. assert (i ∈ ks) as [j Hj]%list_elem_of_lookup.
    { rewrite Hperm. apply elem_of_seq. lia. }
    exists j. split; [by eapply lookup_lt_Some|]. by rewrite Hj.
Qed.

Lemma run_permute_row h m l a idx :
  objs h !! m = Some l → arrs h !! l = Some a →
  permute_row m idx h =
  match np.take_rows a idx with
  | Some a' => Ok (tt, Heap (<[m := length (arrs h)]> (objs h)) (arrs h ++ [a']))
  | None => Raise IndexError
  end.
Proof.
  intros Ho Ha. unfold permute_row.
  erewrite bind_Ok by (by apply run_get_data).
  erewrite bind_Ok by (by apply run_load).
  destruct (np.take_rows a idx) as [a'|]; [|done].
  erewrite bind_Ok by done. erewrite bind_Ok by done.
  unfold set_data. simpl. rewrite decide_True; [done|]. by eapply lookup_lt_Some.
Qed.

Lemma run_permute_col h m l a idx :
  objs h !! m = Some l → arrs h !! l = Some a →
  permute_col m idx h =
  match np.take_cols a idx with
  | Some a' => Ok (tt, Heap (<[m := length (arrs h)]> (objs h)) (arrs h ++ [a']))
  | None => Raise IndexError
  end.
Proof.
  intros Ho Ha. unfold permute_col.
  erewrite bind_Ok by (by apply run_get_data).
  erewrite bind_Ok by (by apply run_load).
  destruct (np.take_cols a idx) as [a'|]; [|done].
  erewrite bind_Ok by done. erewrite bind_Ok by done.
  unfold set_data. simpl. rewrite decide_True; [done|]. by eapply lookup_lt_Some.
Qed.

Lemma run_swap_row_gen h m l a (i j : Z) :
  objs h !! m = Some l → arrs h !! l = Some a →
  swap_row m i j h =
  match r1 ← norm_index (nrows a) i; r2 ← norm_index (nrows a) j; np.swap_rows a r1 r2 with
  | Some a' => Ok (tt, upd h l a')
  | None => Raise IndexError
  end.
Proof.
  intros Ho Ha. unfold swap_row.
  erewrite bind_Ok by (by apply run_get_data).
  erewrite bind_Ok by (by apply run_load).
  destruct (norm_index (nrows a) i ≫= _) as [a'|]; [|done].
  erewrite bind_Ok by done. unfold store. rewrite decide_True; [done|].
  by eapply lookup_lt_Some.
Qed.

Lemma run_swap_col_gen h m l a (i j : Z) :
  objs h !! m = Some l → arrs h !! l = Some a →
  swap_col m i j h =
  match c1 ← norm_index (ncols a) i; c2 ← norm_index (ncols a) j; np.swap_cols a c1 c2 with
  | Some a' => Ok (tt, upd h l a')
  | None => Raise IndexError
  end.
Proof.
  intros Ho Ha. unfold swap_col.
  erewrite bind_Ok by (by apply run_get_data).
  erewrite bind_Ok by (by apply run_load).
  destruct (norm_index (ncols a) i ≫= _) as [a'|]; [|done].
  erewrite bind_Ok by done. unfold store. rewrite decide_True; [done|].
  by eapply lookup_lt_Some.
Qed.

Lemma eval_then_get_rank (op : M unit) h m h1 l1 a1 :
  op h = Ok (tt, h1) → objs h1 !! m = Some l1 → arrs h1 !! l1 = Some a1 → wf a1 →
  eval (op;; get_rank m) h = Ok (rank_of a1).
Proof.
  intros Hop Ho Ha Hwf. unfold eval. erewrite bind_Ok by exact Hop.
  destruct (run_get_rank h1 m l1 a1 Ho Ha Hwf) as (h' & -> & _). done.
Qed.

End index_lists.

(** ** Properties of the permutation and structure operations *)

(** C7: [get_rank] returns the same value on a matrix and on the matrix after
    one row swap, one column swap, or the application of a row or column
    permutation (an index list that is a bijection on the row or column
    indices). *)
Theorem get_rank_invariant h m l a :
  objs h !! m = Some l → arrs h !! l = Some a → wf a →
  ∃ r, eval (get_rank m) h = Ok r ∧
    (∀ i j, is_Some (norm_index (nrows a) i) → is_Some (norm_index (nrows a) j) →
            eval (swap_row m i j;; get_rank m) h = Ok r) ∧
    (∀ i j, is_Some (norm_index (ncols a) i) → is_Some (norm_index (ncols a) j) →
            eval (swap_col m i j;; get_rank m) h = Ok r) ∧
    (∀ idx ks, mapM (norm_index (nrows a)) idx = Some ks → ks ≡ₚ seq 0 (nrows a) →
               eval (permute_row m idx;; get_rank m) h = Ok r) ∧
    (∀ idx ks, mapM (norm_index (ncols a)) idx = Some ks → ks ≡ₚ seq 0 (ncols a) →
               eval (permute_col m idx;; get_rank m) h = Ok r).
Proof.
  intros Ho Ha Hwf. exists (rank_of a).
  pose proof (lookup_lt_Some _ _ _ Ho) as Hm.
  pose proof (lookup_lt_Some _ _ _ Ha) as Hl.
  split; [|split; [|split; [|split]]].
  - unfold eval. by destruct (run_get_rank h m l a Ho Ha Hwf) as (h' & -> & _).
  - intros i j [i' Hi] [j' Hj].
    destruct (swap_rows_spec a i' j' Hwf) as (a' & Ha' & Hwf' & _);
      [by eapply norm_index_lt..|].
    rewrite (same_card_rank_of a a'); [|done..|].
    + eapply (eval_then_get_rank _ h m (upd h l a') l);
        [|done|by eapply upd_lookup_eq|done].
      erewrite run_swap_row_gen by done. rewrite Hi, Hj. simpl. by rewrite Ha'.
    + pose proof (swap_rows_same_card a i' j' Hwf) as Hs. rewrite Ha' in Hs.
      apply Hs; by eapply norm_index_lt.
  - intros i j [i' Hi] [j' Hj].
    destruct (swap_cols_spec a i' j' Hwf) as (a' & Ha' & Hwf' & _);
      [by eapply norm_index_lt..|].
    rewrite (same_card_rank_of a a'); [|done..|].
    + eapply (eval_then_get_rank _ h m (upd h l a') l);
        [|done|by eapply upd_lookup_eq|done].
      erewrite run_swap_col_gen by done. rewrite Hi, Hj. simpl. by rewrite Ha'.
    + pose proof (swap_cols_same_card a i' j' Hwf) as Hs. rewrite Ha' in Hs.
      apply Hs; by eapply norm_index_lt.
  - intros idx ks Hks Hperm.
    destruct (take_rows_spec a idx ks Hwf Hks) as (a' & Ha' & _).
    destruct (take_rows_rank a idx ks a' Hwf Hks Hperm Ha') as [Hwf' <-].
    eapply (eval_then_get_rank _ h m
              (Heap (<[m := length (arrs h)]> (objs h)) (arrs h ++ [a'])));
      [| | |done].
    + erewrite run_permute_row by done. by rewrite Ha'.
    + simpl. by apply list_lookup_insert_eq.
    + simpl. apply lookup_snoc.
  - intros idx ks Hks Hperm.
    destruct (take_cols_spec a idx ks Hwf Hks) as (a' & Ha' & _).
    destruct (take_cols_rank a idx ks a' Hwf Hks Hperm Ha') as [Hwf' <-].
    eapply (eval_then_get_rank _ h m
              (Heap (<[m := length (arrs h)]> (objs h)) (arrs h ++ [a'])));
      [| | |done].
    + erewrite run_permute_col by done. by rewrite Ha'.
    + simpl. by apply list_lookup_insert_eq.
    + simpl. apply lookup_snoc.
Qed.

Lemma get_rank_invariant_witness :
  ∃ r, eval (get_rank 0) (h0 A3) = Ok r ∧
    (∀ i j, is_Some (norm_index 3 i) → is_Some (norm_index 3 j) →
            eval (swap_row 0 i j;; get_rank 0) (h0 A3) = Ok r) ∧
    (∀ i j, is_Some (norm_index 3 i) → is_Some (norm_index 3 j) →
            eval (swap_col 0 i j;; get_rank 0) (h0 A3) = Ok r) ∧
    (∀ idx ks, mapM (norm_index 3) idx = Some ks → ks ≡ₚ seq 0 3 →
               eval (permute_row 0 idx;; get_rank 0) (h0 A3) = Ok r) ∧
    (∀ idx ks, mapM (norm_index 3) idx = Some ks → ks ≡ₚ seq 0 3 →
               eval (permute_col 0 idx;; get_rank 0) (h0 A3) = Ok r).
Proof.
  apply (get_rank_invariant (h0 A3) 0 0 A3);
    [reflexivity | reflexivity | apply wf_iff; reflexivity].
Defined.

(** C8, as the code has it: [permute_row] and [permute_col] do not check
    that the index list is a bijection.  When every entry is a valid index
    ([-n <= i < n]) the call succeeds and rebinds [data] to a new array
    whose row (column) [i] is row (column) [idx[i]] of the old one, whether
    or not indices repeat; when some entry is out of range the call raises
    [IndexError]. *)
Theorem permute_unchecked h m l a idx :
  objs h !! m = Some l → arrs h !! l = Some a → wf a →
  (∀ ks, mapM (norm_index (nrows a)) idx = Some ks →
     ∃ a', permute_row m idx h
           = Ok (tt, Heap (<[m := length (arrs h)]> (objs h)) (arrs h ++ [a'])) ∧
           nrows a' = length idx ∧ ncols a' = ncols a ∧
           ∀ i k, ks !! i = Some k → body a' !! i = body a !! k) ∧
  (mapM (norm_index (nrows a)) idx = None → permute_row m idx h = Raise IndexError) ∧
  (∀ ks, mapM (norm_index (ncols a)) idx = Some ks →
     ∃ a', permute_col m idx h
           = Ok (tt, Heap (<[m := length (arrs h)]> (objs h)) (arrs h ++ [a'])) ∧
           nrows a' = nrows a ∧ ncols a' = length idx ∧
           ∀ i j k, i < nrows a → ks !! j = Some k → entry a' i j = entry a i k) ∧
  (mapM (norm_index (ncols a)) idx = None → permute_col m idx h = Raise IndexError).
Proof.
  intros Ho Ha Hwf. split; [|split; [|split]].
  - intros ks Hks.
    destruct (take_rows_spec a idx ks Hwf Hks) as (a' & Ha' & Hwf' & Hr' & Hc' & Hf).
    exists a'. erewrite run_permute_row by done. rewrite Ha'.
    do 3 (split; [done|]). intros i k Hk.
    destruct (Forall2_lookup_l _ _ _ _ _ Hf Hk) as (r & Hr1 & Hr2). congruence.
  - intros Hks. erewrite run_permute_row by done. by rewrite take_rows_None.
  - intros ks Hks.
    destruct (take_cols_spec a idx ks Hwf Hks) as (a' & Ha' & Hwf' & Hr' & Hc' & Hb).
    exists a'. erewrite run_permute_col by done. rewrite Ha'.
    do 3 (split; [done|]). intros i j k Hi Hk.
    destruct (wf_row a i Hwf Hi) as (r & Hr & _).
    unfold entry, item. rewrite Hb, list_lookup_fmap, Hr. simpl.
    by rewrite list_lookup_fmap, Hk.
  - intros Hks. erewrite run_permute_col by done.
    unfold np.take_cols. by rewrite Hks.
Qed.

Lemma permute_unchecked_witness :
  ∃ a', permute_row 0 [1; -2; 1]%Z (h0 I2) = Ok (tt, Heap [1] [I2; a']) ∧
        body a' = [[false; true]; [true; false]; [false; true]].
Proof.
  destruct (permute_unchecked (h0 I2) 0 0 I2 [1; -2; 1]%Z eq_refl eq_refl
              (proj2 (wf_iff I2) eq_refl)) as (H & _).
  destruct (H [1; 0; 1] eq_refl) as (a' & Hrun & _ & _ & Hrows).
  exists a'. split; [exact Hrun|].
  assert (length (body a') = 3) as Hlen.
  { unfold permute_row in Hrun. vm_compute in Hrun. by injection Hrun as <-. }
  destruct a' as [? ? [|r0 [|r1 [|r2 [|? ?]]]]]; try discriminate Hlen.
  simpl. f_equal; [|f_equal; [|f_equal]].
  - by injection (Hrows 0 1 eq_refl).
  - by injection (Hrows 1 0 eq_refl).
  - by injection (Hrows 2 1 eq_refl).
Defined.

(** C8 as stated fails: the index list [[0, 0]] is not a bijection on
    [0..1], and [permute_row] raises nothing: it rebinds the matrix to the
    array with row [0] twice. *)
Lemma permute_row_accepts_non_bijection :
  ¬ ([0; 0] ≡ₚ seq 0 2) ∧
  permute_row 0 [0; 0]%Z (h0 I2)
  = Ok (tt, Heap [1] [I2; Array 2 2 [[true; false]; [true; false]]]).
Proof.
  split; [|reflexivity].
  intros H. assert (1 ∈ [0; 0]) as Hin.
  { rewrite H. apply elem_of_seq. lia. }
  apply elem_of_cons in Hin as [?|Hin]; [done|].
  apply elem_of_cons in Hin as [?|Hin]; [done|]. by apply elem_of_nil in Hin.
Qed.

(** ** Properties of [is_canonical_form] and [forward_eliminate] *)

(** C6: a matrix whose diagonal has a zero entry followed, further down, by
    a nonzero entry is rejected by [is_canonical_form]. *)
Theorem is_canonical_form_rejects_gap h m l a i j :
  objs h !! m = Some l → arrs h !! l = Some a → wf a →
  i < j → j < min (nrows a) (ncols a) →
  entry a i i = false → entry a j j = true →
  eval (is_canonical_form m) h = Ok false.
Proof.
  intros Ho Ha Hwf Hij Hj Hi0 Hj1. unfold eval.
  erewrite run_is_canonical_form by done.
  destruct (canonical_b a) eqn:Hc; [|done]. exfalso.
  destruct (canonical_b_canon a Hwf Hc) as (_ & _ & Hu & Hz).
  destruct (decide (j < diag_rank a)) as [Hlt|Hge].
  - rewrite Hu in Hi0 by lia. by rewrite bool_decide_eq_true_2 in Hi0.
  - rewrite Hz in Hj1 by lia. done.
Qed.

Lemma is_canonical_form_rejects_gap_witness :
  eval (is_canonical_form 0) (h0 gap3) = Ok false.
Proof.
  apply (is_canonical_form_rejects_gap (h0 gap3) 0 0 gap3 1 2);
    [reflexivity | reflexivity | apply wf_iff; reflexivity
    | lia | simpl; lia | reflexivity | reflexivity].
Defined.

(** C5: the row and the column permutation that [forward_eliminate]
    returns are rearrangements of [0..rows-1] and [0..cols-1], whatever the
    right-hand side is and wherever it is stored. *)
Theorem forward_eliminate_permutations h self l a b copy mat_a b' rp cp h' :
  objs h !! self = Some l → arrs h !! l = Some a →
  forward_eliminate self b copy h = Ok ((mat_a, b', rp, cp), h') →
  rp ≡ₚ seq 0 (nrows a) ∧ cp ≡ₚ seq 0 (ncols a).
Proof.
  intros Ho Ha H. unfold forward_eliminate in H.
  inv_bind H. inv_bind H. inv_bind H. inv_bind H. inv_bind H.
  destruct v3 as [rp' cp']. injection H as -> -> -> -> ->.
  apply eliminate_loop_perm in E3 as [Hrp Hcp].
  apply get_data_inv in E0 as [Ho1 ->]. apply load_inv in E1 as [Ha1 ->].
  assert (v1 = a) as ->; [|done].
  destruct copy.
  - inv_bind E. apply get_data_inv in E0 as [Ho' ->].
    unfold MatGF2_of_data in E. inv_bind E. apply load_inv in E0 as [Ha' ->].
    assert (v = l) as -> by congruence. assert (v2 = a) as -> by congruence.
    injection E as <- <-. simpl in *.
    rewrite lookup_snoc in Ho1. injection Ho1 as <-.
    rewrite lookup_snoc in Ha1. by injection Ha1.
  - injection E as <- <-. congruence.
Qed.

Lemma forward_eliminate_permutations_witness :
  [2; 0; 1] ≡ₚ seq 0 3 ∧ [2; 1; 0] ≡ₚ seq 0 3.
Proof.
  apply (forward_eliminate_permutations (h0 P3) 0 0 P3 None false 0 1
           [2; 0; 1] [2; 1; 0]
           (Heap [0; 1]
              [Array 3 3 [[true; false; false]; [false; true; true]; [false; false; false]];
               np.zeros 3 1]));
    reflexivity.
Defined.

Section elimination_setup.

(** [forward_eliminate] up to its loop: the matrix to work on lives at
    [la] and holds the entries of [self]. *)
Lemma forward_eliminate_setup h self l a b (copy : bool) :
  objs h !! self = Some l → arrs h !! l = Some a →
  match b with Some (OfMat mb) => is_Some (objs h !! mb) | _ => True end →
  ∃ mat_a b' la h2,
    extends h h2 ∧ objs h2 !! mat_a = Some la ∧ arrs h2 !! la = Some a ∧
    (if copy then mat_a = length (objs h) else mat_a = self) ∧
    forward_eliminate self b copy h =
    (eliminate_loop mat_a b' (seq 0 (min (nrows a) (ncols a)))
       (seq 0 (nrows a)) (seq 0 (ncols a))
     ≫= λ p : list nat * list nat,
          (mret (mat_a, b', p.1, p.2) : M (MatGF2 * MatGF2 * list nat * list nat))) h2.
Proof.
  intros Ho Ha Hb.
  set (h1 := if copy then Heap (objs h ++ [length (arrs h)]) (arrs h ++ [a]) else h).
  set (mat_a := if copy then length (objs h) else self).
  set (la := if copy then length (arrs h) else l).
  assert ((if copy then l ← get_data self; MatGF2_of_data l else mret self) h
          = Ok (mat_a, h1)) as E1.
  { subst h1 mat_a. destruct copy; [|done].
    erewrite bind_Ok by (by apply run_get_data). unfold MatGF2_of_data.
    by erewrite bind_Ok by (by apply run_load). }
  assert (objs h1 !! mat_a = Some la ∧ arrs h1 !! la = Some a ∧ extends h h1)
    as (Ho1 & Ha1 & Hext1).
  { subst h1 mat_a la. destruct copy; [|auto using extends_refl].
    simpl. rewrite !lookup_snoc. do 2 (split; [done|]).
    split; intros; simpl; by apply lookup_app_l_Some. }
  set (arg := match b with None => OfArray (np.zeros (nrows a) 1) | Some b0 => b0 end).
  assert (∃ h2, MatGF2_init arg h1 = Ok (length (objs h1), h2) ∧ extends h1 h2)
    as (h2 & E2 & Hext2).
  { assert (∀ x, ∃ h2, MatGF2_init (OfArray x) h1 = Ok (length (objs h1), h2) ∧
                       extends h1 h2) as Hnew.
    { intros x. eexists. split; [done|].
      split; intros; simpl; by apply lookup_app_l_Some. }
    subst arg. destruct b as [[mb|x]|]; [|apply Hnew..].
    destruct Hb as [lb Hlb]. exists (Heap (objs h1 ++ [lb]) (arrs h1)).
    split; [apply run_init_mat; by apply Hext1|].
    split; intros; simpl; [by apply lookup_app_l_Some|done]. }
  exists mat_a, (length (objs h1)), la, h2.
  split; [by eapply extends_trans|].
  split; [by apply Hext2|]. split; [by apply Hext2|].
  split; [subst mat_a; by destruct copy|].
  unfold forward_eliminate.
  erewrite bind_Ok by exact E1.
  erewrite bind_Ok by (by apply run_get_data).
  erewrite bind_Ok by (by apply run_load).
  fold arg. erewrite bind_Ok by exact E2.
  unfold mbind, M_bind. by destruct (eliminate_loop _ _ _ _ _ h2) as [[[] ?]|].
Qed.

End elimination_setup.

(** C9: on a matrix that satisfies [is_canonical_form], [forward_eliminate]
    changes no entry and returns the identity permutations: nothing that
    was in the store before the call has changed, and the matrix it returns
    has the entries of the receiver. *)
Theorem forward_eliminate_canonical h self l a b copy :
  objs h !! self = Some l → arrs h !! l = Some a → wf a →
  match b with Some (OfMat mb) => is_Some (objs h !! mb) | _ => True end →
  eval (is_canonical_form self) h = Ok true →
  ∃ mat_a b' h',
    forward_eliminate self b copy h
    = Ok ((mat_a, b', seq 0 (nrows a), seq 0 (ncols a)), h') ∧
    extends h h' ∧
    (∃ la, objs h' !! mat_a = Some la ∧ arrs h' !! la = Some a) ∧
    (copy = false → mat_a = self).
Proof.
  intros Ho Ha Hwf Hb Hc. unfold eval in Hc.
  erewrite run_is_canonical_form in Hc by done. injection Hc as Hc.
  apply canonical_b_canon in Hc; [|done].
  destruct (forward_eliminate_setup h self l a b copy Ho Ha Hb)
    as (mat_a & b' & la & h2 & Hext & Ho2 & Ha2 & Hm & ->).
  exists mat_a, b', h2. split; [|split; [done|split; [eauto|]]].
  - rewrite (bind_Ok _ _ h2 (seq 0 (nrows a), seq 0 (ncols a)) h2); [done|].
    by eapply (run_loop_canonical mat_a b' la a (diag_rank a)).
  - intros ->. done.
Qed.

Lemma forward_eliminate_canonical_witness :
  ∃ mat_a b' h',
    forward_eliminate 0 (Some (OfMat 0)) false (h0 I2)
    = Ok ((mat_a, b', seq 0 2, seq 0 2), h') ∧
    extends (h0 I2) h' ∧
    (∃ la, objs h' !! mat_a = Some la ∧ arrs h' !! la = Some I2) ∧
    (false = false → mat_a = 0).
Proof.
  apply (forward_eliminate_canonical (h0 I2) 0 0 I2 (Some (OfMat 0)) false);
    [reflexivity | reflexivity | apply wf_iff; reflexivity
    | by exists 0 | reflexivity].
Defined.

(** ** backward_substitute *)

Section solver_run.
Implicit Types (a bb : ndarray) (h : heap) (b_col : list bool).

Lemma rank_of_le a : wf a → rank_of a ≤ min (nrows a) (ncols a).
Proof.
  intros Hwf. unfold rank_of. destruct (canonical_b a); [apply diag_rank_le|].
  destruct (reduced_full a Hwf) as (_ & Hr & Hc & _).
  etrans; [apply diag_rank_le|]. by rewrite Hr, Hc.
Qed.

Lemma length_symbols n : length (symbols n) = n.
Proof. unfold symbols. by rewrite length_fmap, length_seq. Qed.

(** The [^=] steps of one pivot row. *)
Lemma run_xor_kernels (kernels : list sympy) (ks : list nat) : ∀ sol,
  (∀ k, k ∈ ks → k < length kernels) →
  ∃ sol', ofold (λ sol k, s ← kernels !! k; Some (Xor sol s)) sol ks = Some sol' ∧
          (sol ≠ nan → sol' ≠ nan) ∧ (ks = [] → sol' = sol).
Proof.
  induction ks as [|k ks IH]; intros sol Hks; simpl; [by exists sol|].
  destruct (lookup_lt_is_Some_2 kernels k) as [s ->]; [apply Hks; left|]. simpl.
  destruct (IH (Xor sol s)) as (sol' & -> & Hne & _); [intros; apply Hks; by right|].
  exists sol'. split; [done|]. split; [|done]. intros _. by apply Hne.
Qed.

Lemma pivot_entry_spec a b_col rank row :
  wf a → rank ≤ ncols a → row < nrows a → row < length b_col →
  ∃ e, pivot_entry a b_col rank (symbols (ncols a - rank)) row = Some e ∧ e ≠ nan ∧
       (rank = ncols a → e = if b_col.[row] then strue else sfalse).
Proof.
  intros Hwf Hrank Hrow Hb. unfold pivot_entry.
  destruct (lookup_lt_is_Some_2 b_col row Hb) as [bit Hbit].
  destruct (wf_row a row Hwf Hrow) as (r & Hr & Hlr).
  rewrite Hbit, Hr. simpl.
  destruct (run_xor_kernels (symbols (ncols a - rank)) (np.nonzero (drop rank r))
              (if bit then strue else sfalse)) as (e & -> & Hne & Hnil).
  { intros k Hk%elem_of_nonzero%lookup_lt_Some.
    rewrite length_drop in Hk. rewrite length_symbols. lia. }
  exists e. split; [done|]. split; [apply Hne; by destruct bit|].
  intros ->. apply Hnil. rewrite drop_ge by lia. done.
Qed.

Lemma run_pivot_rows a b_col rank kernels (g : nat → sympy) k : ∀ acc,
  (∀ row, row < k → pivot_entry a b_col rank kernels row = Some (g row)) →
  ofold (λ x_col row,
           bit ← b_col !! row;
           let sol := if (bit : bool) then strue else sfalse in
           r ← body a !! row;
           let kernel_index := np.nonzero (drop rank r) in
           sol ← ofold (λ sol k, s ← kernels !! k; Some (Xor sol s)) sol kernel_index;
           Some (sol :: x_col))
    acc (reverse (seq 0 k))
  = Some ((g <$> seq 0 k) ++ acc).
Proof.
  induction k as [|k IH]; intros acc Hg; [done|].
  rewrite seq_S, reverse_snoc. simpl.
  specialize (Hg k ltac:(lia)) as Hk. unfold pivot_entry in Hk.
  destruct (b_col !! k) as [bit|]; [|done]. simpl in *.
  destruct (body a !! k) as [r|]; [|done]. simpl in *.
  rewrite Hk. simpl. rewrite IH by (intros; apply Hg; lia).
  by rewrite fmap_app, <- app_assoc.
Qed.

Lemma run_free_rows rank m n : ∀ o acc,
  o + n ≤ m →
  ofold (λ x_col row, s ← symbols m !! (row - rank); Some (x_col ++ [s]))
    acc (seq (rank + o) n)
  = Some (acc ++ (Symbol <$> seq o n)).
Proof.
  induction n as [|n IH]; intros o acc Hn; simpl; [by rewrite app_nil_r|].
  replace (rank + o - rank) with o by lia.
  assert (symbols m !! o = Some (Symbol o)) as ->.
  { unfold symbols. by rewrite list_lookup_fmap, lookup_seq_lt by lia. }
  simpl. replace (S (rank + o)) with (rank + S o) by lia.
  rewrite IH by lia. by rewrite <- app_assoc.
Qed.

Lemma get_column bb j i : (np.column bb j).[i] = entry bb i j.
Proof.
  unfold np.column, entry, item. rewrite list_lookup_fmap.
  by destruct (body bb !! i).
Qed.

Lemma drop_zero_iff b_col rank :
  np.count_nonzero1 (drop rank b_col) = 0 ↔ ∀ i, rank ≤ i → b_col.[i] = false.
Proof.
  rewrite count_nonzero1_0. split.
  - intros H i Hi. specialize (H (i - rank)). rewrite lookup_drop in H.
    by replace (rank + (i - rank)) with i in H by lia.
  - intros H i. rewrite lookup_drop. apply H. lia.
Qed.

(** One column of the solution. *)
Lemma solve_col_spec a b_col rank :
  wf a → rank ≤ nrows a → rank ≤ ncols a → rank ≤ length b_col →
  ∃ x_col, solve_col a b_col rank (symbols (ncols a - rank)) = Some x_col ∧
    length x_col = ncols a ∧
    ((∃ i, rank ≤ i ∧ b_col.[i] = true) → Forall (λ e, e = nan) x_col) ∧
    ((∀ i, rank ≤ i → b_col.[i] = false) →
       Forall (λ e, e ≠ nan) x_col ∧
       (rank = ncols a →
        x_col = (λ row, if b_col.[row] then strue else sfalse) <$> seq 0 rank)).
Proof.
  intros Hwf Hr Hc Hb. unfold solve_col.
  destruct (np.count_nonzero1 (drop rank b_col) =? 0) eqn:Hcnt; simpl.
  - apply Nat.eqb_eq in Hcnt. rewrite drop_zero_iff in Hcnt.
    set (g := λ row, default nan (pivot_entry a b_col rank (symbols (ncols a - rank)) row)).
    assert (∀ row, row < rank →
              pivot_entry a b_col rank (symbols (ncols a - rank)) row = Some (g row) ∧
              g row ≠ nan ∧
              (rank = ncols a → g row = if b_col.[row] then strue else sfalse)) as Hg.
    { intros row Hrow. unfold g.
      destruct (pivot_entry_spec a b_col rank row) as (e & -> & ? & ?); (done || lia). }
    rewrite (run_pivot_rows a b_col rank _ g) by (intros; by apply Hg). simpl.
    rewrite app_nil_r.
    pose proof (run_free_rows rank (ncols a - rank) (ncols a - rank) 0 (g <$> seq 0 rank)) as Hfree.
    rewrite Nat.add_0_r in Hfree. rewrite Hfree by lia.
    eexists. split; [done|]. split; [|split].
    + rewrite length_app, !length_fmap, !length_seq. lia.
    + intros (i & Hi & Hbi). by rewrite Hcnt in Hbi.
    + intros _. split.
      * apply Forall_app. split; apply Forall_fmap, Forall_forall.
        -- intros row ?%elem_of_seq. simpl. apply Hg. lia.
        -- by intros k _.
      * intros Hfull. rewrite Hfull, Nat.sub_diag. simpl. rewrite app_nil_r.
        rewrite <- Hfull. apply list_fmap_ext. intros i row Hrow.
        apply lookup_seq in Hrow as [-> ?]. apply Hg; lia.
  - apply Nat.eqb_neq in Hcnt. eexists. split; [done|].
    split; [by rewrite length_fmap, length_seq|]. split.
    + intros _. apply Forall_fmap, Forall_forall. by intros.
    + intros Hz. by rewrite <- drop_zero_iff in Hz.
Qed.

(** Reading [np.array(x).T] entry by entry. *)
Lemma array_T_entry {X} (x : list (list X)) (c i j : nat) :
  Forall (λ col, length col = c) x → i < c → j < length x →
  array_T x !! i ≫= (.!! j) = x !! j ≫= (.!! i).
Proof.
  intros Hx Hi Hj. unfold array_T. destruct x as [|col0 x0] eqn:E; [simpl in Hj; lia|].
  rewrite <- E in *. assert (length col0 = c) as ->.
  { rewrite E in Hx. by apply Forall_cons in Hx as [? _]. }
  rewrite list_lookup_fmap, lookup_seq_lt by done. simpl. clear E col0 x0.
  revert j Hj. induction Hx as [|col x Hcol _ IH]; intros j Hj; [simpl in Hj; lia|].
  simpl. destruct (lookup_lt_is_Some_2 col i) as [e He]; [lia|]. rewrite He.
  destruct j as [|j]; simpl; [done|]. apply IH. simpl in Hj. lia.
Qed.

Lemma run_backward_substitute h self l a b bb :
  objs h !! self = Some l → arrs h !! l = Some a → wf a →
  rhs_array h (nrows a) (Some b) = Some bb → wf bb → nrows bb = nrows a →
  ∃ xcols h',
    backward_substitute self b h
    = Ok ((array_T xcols, symbols (ncols a - rank_of a)), h') ∧
    extends h h' ∧
    Forall2 (λ j x_col, solve_col a (np.column bb j) (rank_of a)
                          (symbols (ncols a - rank_of a)) = Some x_col)
      (seq 0 (ncols bb)) xcols.
Proof.
  intros Ho Ha Hwf Hb Hwfb Hrows. pose proof (rank_of_le a Hwf) as Hrk.
  destruct (run_get_rank h self l a Ho Ha Hwf) as (h1 & Hrank & Hext1).
  assert (∃ b' lb h2, MatGF2_init b h1 = Ok (b', h2) ∧ extends h1 h2 ∧
            objs h2 !! b' = Some lb ∧ arrs h2 !! lb = Some bb)
    as (b' & lb & h2 & Hinit & Hext2 & Hob & Hab).
  { destruct b as [mb|x]; simpl in Hb.
    - destruct (objs h !! mb) as [lb|] eqn:Hmb; [|done]. simpl in Hb.
      exists (length (objs h1)), lb, (Heap (objs h1 ++ [lb]) (arrs h1)).
      split; [apply run_init_mat; by apply Hext1|].
      split; [split; intros; simpl; [by apply lookup_app_l_Some|done]|].
      simpl. rewrite lookup_snoc. split; [done|]. by apply Hext1.
    - injection Hb as ->. eexists _, _, _. split; [done|].
      split; [split; intros; simpl; by apply lookup_app_l_Some|].
      simpl. by rewrite !lookup_snoc. }
  assert (∃ xcols, mapM (λ col, solve_col a (np.column bb col) (rank_of a)
                                  (symbols (ncols a - rank_of a)))
                     (seq 0 (ncols bb)) = Some xcols) as [xcols Hx].
  { apply mapM_is_Some, Forall_forall. intros j _. simpl.
    destruct (solve_col_spec a (np.column bb j) (rank_of a) Hwf) as (x & -> & _);
      [lia..| |done].
    unfold np.column. rewrite length_fmap. destruct Hwfb as [-> _]. lia. }
  exists xcols, h2. split; [|split; [by eapply extends_trans|by apply mapM_Some]].
  unfold backward_substitute.
  erewrite bind_Ok by exact Hrank.
  erewrite bind_Ok by exact Hinit.
  erewrite bind_Ok by (apply run_get_data; by apply Hext2, Hext1).
  erewrite bind_Ok by (apply run_load; by apply Hext2, Hext1).
  erewrite bind_Ok by (by apply run_get_data).
  erewrite bind_Ok by (by apply run_load).
  rewrite Hx. done.
Qed.

End solver_run.

(** ** Properties of the solver *)

(** C10: [backward_substitute] is a read-only query: it returns, and
    nothing that was in the store before the call has changed; in
    particular the receiver and [b] have the entries they had. *)
Theorem backward_substitute_frame h self l a b bb :
  objs h !! self = Some l → arrs h !! l = Some a → wf a →
  rhs_array h (nrows a) (Some b) = Some bb → wf bb → nrows bb = nrows a →
  ∃ x kernels h',
    backward_substitute self b h = Ok ((x, kernels), h') ∧
    extends h h' ∧
    objs h' !! self = Some l ∧ arrs h' !! l = Some a ∧
    rhs_array h' (nrows a) (Some b) = Some bb.
Proof.
  intros Ho Ha Hwf Hb Hwfb Hrows.
  destruct (run_backward_substitute h self l a b bb Ho Ha Hwf Hb Hwfb Hrows)
    as (xcols & h' & Hrun & Hext & _).
  exists (array_T xcols), (symbols (ncols a - rank_of a)), h'.
  split; [done|]. split; [done|]. destruct Hext as [Hxo Hxa].
  split; [by apply Hxo|]. split; [by apply Hxa|].
  destruct b as [mb|x]; [|done]. simpl in *.
  destruct (objs h !! mb) as [lb|] eqn:Hmb; [|done]. simpl in Hb.
  pose proof (Hxo _ _ Hmb) as Hmb'. unfold MatGF2, loc in *.
  rewrite Hmb'. simpl. by apply Hxa.
Qed.

Lemma backward_substitute_frame_witness :
  ∃ x kernels h',
    backward_substitute 0 (OfMat 1) (Heap [0; 1] [A2; b2]) = Ok ((x, kernels), h') ∧
    extends (Heap [0; 1] [A2; b2]) h' ∧
    objs h' !! 0 = Some 0 ∧ arrs h' !! 0 = Some A2 ∧
    rhs_array h' 2 (Some (OfMat 1)) = Some b2.
Proof.
  apply (backward_substitute_frame (Heap [0; 1] [A2; b2]) 0 0 A2 (OfMat 1) b2);
    [reflexivity | reflexivity | apply wf_iff; reflexivity
    | reflexivity | apply wf_iff; reflexivity | reflexivity].
Defined.

Section solver_entries.

Lemma count_nonzero1_pos (v : list bool) :
  np.count_nonzero1 v ≠ 0 → ∃ j, v.[j] = true.
Proof.
  unfold np.count_nonzero1. induction v as [|x v IH]; [done|].
  destruct x; [by exists 0|]. rewrite filter_cons, decide_False by done.
  intros [j Hj]%IH. by exists (S j).
Qed.

(** The entries of [x] from the columns the solver builds. *)
Lemma solution_entries a bb (r : nat) (xcols : list (list sympy)) j i :
  wf a → r ≤ nrows a → r ≤ ncols a → nrows bb = nrows a → wf bb →
  Forall2 (λ j x_col, solve_col a (np.column bb j) r (symbols (ncols a - r))
                      = Some x_col) (seq 0 (ncols bb)) xcols →
  j < ncols bb → i < ncols a →
  ∃ x_col e, solve_col a (np.column bb j) r (symbols (ncols a - r)) = Some x_col ∧
             x_col !! i = Some e ∧ array_T xcols !! i ≫= (.!! j) = Some e.
Proof.
  intros Hwf Hr Hc Hrows Hwfb Hf Hj Hi.
  assert (Forall (λ col, length col = ncols a) xcols) as Hlen.
  { apply Forall_forall. intros col [k Hk]%list_elem_of_lookup.
    destruct (Forall2_lookup_r _ _ _ _ _ Hf Hk) as (j' & _ & Hsol).
    destruct (solve_col_spec a (np.column bb j') r Hwf Hr Hc) as (x & Hx & Hl & _).
    - unfold np.column. rewrite length_fmap. destruct Hwfb as [-> _]. lia.
    - congruence. }
  pose proof (Forall2_length _ _ _ Hf) as Hn. rewrite length_seq in Hn.
  destruct (Forall2_lookup_l _ _ _ j j Hf) as (x_col & Hx & Hsol);
    [by apply lookup_seq_lt|].
  pose proof (Forall_lookup_1 _ _ _ _ Hlen Hx) as Hl. simpl in Hl.
  destruct (lookup_lt_is_Some_2 x_col i) as [e He]; [lia|].
  exists x_col, e. split; [done|]. split; [done|].
  rewrite (array_T_entry xcols (ncols a) i j) by (done || lia).
  by rewrite Hx.
Qed.

End solver_entries.

(** C2: for a matrix of rank [r] (the value of [get_rank]) and a
    right-hand side with as many rows, column [j] of the solution is the
    unsatisfiable marker in all its [cols] rows when column [j] of [b] has
    a nonzero entry at a row index [>= r], and otherwise none of its
    entries is the marker; so a column of markers (of a matrix that has a
    column at all) tells that [b] has such an entry. *)
Theorem backward_substitute_unsat h self l a b bb :
  objs h !! self = Some l → arrs h !! l = Some a → wf a →
  rhs_array h (nrows a) (Some b) = Some bb → wf bb → nrows bb = nrows a →
  ∃ r x kernels h',
    eval (get_rank self) h = Ok r ∧
    backward_substitute self b h = Ok ((x, kernels), h') ∧
    ∀ j, j < ncols bb →
      ((∃ i, r ≤ i ∧ entry bb i j = true) →
         ∀ i, i < ncols a → x !! i ≫= (.!! j) = Some nan) ∧
      (¬ (∃ i, r ≤ i ∧ entry bb i j = true) →
         ∀ i, i < ncols a → ∃ e, x !! i ≫= (.!! j) = Some e ∧ e ≠ nan) ∧
      (0 < ncols a → (∀ i, i < ncols a → x !! i ≫= (.!! j) = Some nan) →
         ∃ i, r ≤ i ∧ entry bb i j = true).
Proof.
  intros Ho Ha Hwf Hb Hwfb Hrows. pose proof (rank_of_le a Hwf) as Hrk.
  destruct (run_backward_substitute h self l a b bb Ho Ha Hwf Hb Hwfb Hrows)
    as (xcols & h' & Hrun & _ & Hf).
  exists (rank_of a), (array_T xcols), (symbols (ncols a - rank_of a)), h'.
  split; [|split; [done|]].
  { unfold eval. by destruct (run_get_rank h self l a Ho Ha Hwf) as (h1 & -> & _). }
  intros j Hj.
  assert (length (np.column bb j) = nrows a) as Hlc.
  { unfold np.column. rewrite length_fmap. by destruct Hwfb as [-> _]. }
  split; [|split].
  - intros (i0 & Hi0 & He0) i Hi.
    destruct (solution_entries a bb (rank_of a) xcols j i) as (x_col & e & Hsol & He & ->);
      [done|lia|lia|done..|].
    destruct (solve_col_spec a (np.column bb j) (rank_of a) Hwf) as (x' & Hx' & _ & Hnan & _);
      [lia..|].
    assert (x' = x_col) as -> by congruence.
    f_equal. eapply (Forall_lookup_1 _ _ _ _ (Hnan _) He).
    Unshelve. exists i0. by rewrite get_column.
  - intros Hno i Hi.
    destruct (solution_entries a bb (rank_of a) xcols j i) as (x_col & e & Hsol & He & ->);
      [done|lia|lia|done..|].
    destruct (solve_col_spec a (np.column bb j) (rank_of a) Hwf) as (x' & Hx' & _ & _ & Hok);
      [lia..|].
    assert (x' = x_col) as -> by congruence.
    exists e. split; [done|].
    destruct Hok as [Hok _].
    + intros i' Hi'. rewrite get_column.
      destruct (entry bb i' j) eqn:E; [|done]. exfalso. apply Hno. eauto.
    + apply (Forall_lookup_1 _ _ _ _ Hok He).
  - intros Hpos Hall.
    destruct (decide (np.count_nonzero1 (drop (rank_of a) (np.column bb j)) = 0))
      as [Hz|Hnz].
    + exfalso. rewrite drop_zero_iff in Hz.
      destruct (solution_entries a bb (rank_of a) xcols j 0) as (x_col & e & Hsol & He & Hx);
        [done|lia|lia|done..|].
      destruct (solve_col_spec a (np.column bb j) (rank_of a) Hwf) as (x' & Hx' & _ & _ & Hok);
        [lia..|].
      assert (x' = x_col) as -> by congruence.
      destruct (Hok Hz) as [Hok' _].
      pose proof (Forall_lookup_1 _ _ _ _ Hok' He) as Hne. simpl in Hne.
      rewrite (Hall 0 Hpos) in Hx. congruence.
    + destruct (count_nonzero1_pos _ Hnz) as [j' Hj'].
      exists (rank_of a + j'). split; [lia|].
      rewrite <- get_column. by rewrite lookup_drop in Hj'.
Qed.

Lemma backward_substitute_unsat_witness :
  ∃ r x kernels h',
    eval (get_rank 0) (h0 A2) = Ok r ∧
    backward_substitute 0 (OfArray b2) (h0 A2) = Ok ((x, kernels), h') ∧
    ∀ j, j < 1 →
      ((∃ i, r ≤ i ∧ entry b2 i j = true) →
         ∀ i, i < 2 → x !! i ≫= (.!! j) = Some nan) ∧
      (¬ (∃ i, r ≤ i ∧ entry b2 i j = true) →
         ∀ i, i < 2 → ∃ e, x !! i ≫= (.!! j) = Some e ∧ e ≠ nan) ∧
      (0 < 2 → (∀ i, i < 2 → x !! i ≫= (.!! j) = Some nan) →
         ∃ i, r ≤ i ∧ entry b2 i j = true).
Proof.
  apply (backward_substitute_unsat (h0 A2) 0 0 A2 (OfArray b2) b2);
    [reflexivity | reflexivity | apply wf_iff; reflexivity
    | reflexivity | apply wf_iff; reflexivity | reflexivity].
Defined.

Section full_rank.

Lemma dot_zero (r v : list bool) : (∀ j, r.[j] = false) → np.dot r v = false.
Proof.
  revert v. induction r as [|x r IH]; intros [|y v] Hz; try done.
  unfold np.dot in *. simpl. rewrite (IH v); [|intros j; apply (Hz (S j))].
  specialize (Hz 0). simpl in Hz. by subst.
Qed.

Lemma dot_unit (r : list bool) : ∀ (v : list bool) i,
  length r = length v → (∀ j, r.[j] = bool_decide (i = j)) → np.dot r v = v.[i].
Proof.
  induction r as [|x r IH]; intros [|y v] i Hl Hu; try done.
  unfold np.dot in *. simpl. pose proof (Hu 0) as H0. simpl in H0.
  destruct i as [|i].
  - rewrite H0, bool_decide_eq_true_2 by done. simpl.
    change (foldr xorb false (zip_with andb r v)) with (np.dot r v).
    rewrite dot_zero; [by destruct y|].
    intros j. specialize (Hu (S j)). simpl in Hu. exact Hu.
  - rewrite H0, bool_decide_eq_false_2 by done. simpl.
    apply IH; [by injection Hl|]. intros j. specialize (Hu (S j)). simpl in Hu.
    rewrite Hu. apply bool_decide_ext. lia.
Qed.

Lemma column_column_vector n (v : list bool) :
  np.column (Array n 1 ((λ x, [x]) <$> v)) 0 = v.
Proof.
  unfold np.column. simpl. rewrite <- list_fmap_compose.
  rewrite <- (list_fmap_id v) at 2. by apply list_fmap_ext.
Qed.

(** [A @ x = b] for [A = [[I]; [0]]]. *)
Lemma matmul_canon_full a (xj bj : list bool) :
  wf a → canon_at a (ncols a) → length xj = ncols a → length bj = nrows a →
  (∀ i, i < ncols a → bj.[i] = xj.[i]) → (∀ i, ncols a ≤ i → bj.[i] = false) →
  np.matmul a (column_vector xj) = Some (column_vector bj).
Proof.
  intros Hwf (Hr & _ & Hu & Hz) Hlx Hlb Hfront Hback.
  unfold np.matmul. rewrite decide_True by done. f_equal.
  unfold column_vector. simpl. destruct Hwf as [Hl Hall].
  f_equal; [done|]. rewrite column_column_vector.
  apply list_eq. intros i. rewrite !list_lookup_fmap.
  destruct (decide (i < nrows a)) as [Hi|Hi].
  - destruct (lookup_lt_is_Some_2 (body a) i) as [r Hrow]; [lia|].
    destruct (lookup_lt_is_Some_2 bj i) as [y Hy]; [lia|].
    rewrite Hrow, Hy. simpl. do 2 f_equal.
    pose proof (Forall_lookup_1 _ _ _ _ Hall Hrow) as Hlr. simpl in Hlr.
    assert (y = bj.[i]) as -> by (by rewrite Hy).
    destruct (decide (i < ncols a)) as [Hic|Hic].
    + rewrite Hfront by done. apply dot_unit; [congruence|].
      intros j. rewrite <- (entry_row a i j r Hrow).
      destruct (decide (j < ncols a)); [by apply Hu|].
      rewrite entry_out_col by (by split || lia).
      symmetry. apply bool_decide_eq_false_2. lia.
    + rewrite Hback by lia. apply dot_zero.
      intros j. rewrite <- (entry_row a i j r Hrow). apply Hz. lia.
  - rewrite !lookup_ge_None_2 by lia. done.
Qed.

(** [A @ x] as the method computes it: a new matrix over the product. *)
Lemma run_matmul h self l a x c :
  objs h !! self = Some l → arrs h !! l = Some a → np.matmul a x = Some c →
  eval (m ← matmul self (OfArray x); lm ← get_data m; load lm) h = Ok c.
Proof.
  intros Ho Ha Hc. unfold eval, matmul.
  erewrite bind_Ok; last first.
  { erewrite bind_Ok by done.
    erewrite bind_Ok by (apply run_get_data; simpl; by apply lookup_app_l_Some).
    erewrite bind_Ok by (apply run_load; simpl; by apply lookup_app_l_Some).
    erewrite bind_Ok by (apply run_get_data; simpl; apply lookup_snoc).
    erewrite bind_Ok by (apply run_load; simpl; apply lookup_snoc).
    rewrite Hc. erewrite bind_Ok by done. done. }
  erewrite bind_Ok by (apply run_get_data; simpl; apply lookup_snoc).
  erewrite run_load by (simpl; apply lookup_snoc). done.
Qed.

End full_rank.

(** C3, as the code has it: for a matrix in canonical form of full column
    rank and a right-hand side with as many rows whose rows from index
    [rank] on are zero, [backward_substitute] returns no free symbol and a
    solution of boolean constants, and [A @ x = b] holds for every column
    of [b] over GF(2): the product of the matrix with column [j] of [x] is
    column [j] of [b]. *)
Theorem backward_substitute_full_rank h self l a b bb :
  objs h !! self = Some l → arrs h !! l = Some a → wf a →
  rhs_array h (nrows a) (Some b) = Some bb → wf bb → nrows bb = nrows a →
  eval (is_canonical_form self) h = Ok true →
  eval (get_rank self) h = Ok (ncols a) →
  (∀ i j, ncols a ≤ i → entry bb i j = false) →
  ∃ x h',
    backward_substitute self b h = Ok ((x, []), h') ∧
    ∀ j, j < ncols bb →
      ∃ xj : list bool,
        length xj = ncols a ∧
        (∀ i, i < ncols a →
           x !! i ≫= (.!! j) = Some (if xj.[i] then strue else sfalse)) ∧
        eval (m ← matmul self (OfArray (column_vector xj)); lm ← get_data m; load lm) h'
        = Ok (column_vector (np.column bb j)).
Proof.
  intros Ho Ha Hwf Hb Hwfb Hrows Hcanon Hrank Hzero.
  pose proof (rank_of_le a Hwf) as Hrk.
  unfold eval in Hcanon. erewrite run_is_canonical_form in Hcanon by done.
  injection Hcanon as Hcanon.
  assert (rank_of a = ncols a) as Hfull.
  { unfold eval in Hrank.
    destruct (run_get_rank h self l a Ho Ha Hwf) as (h1 & E & _).
    rewrite E in Hrank. by injection Hrank. }
  assert (canon_at a (ncols a)) as Hcan.
  { rewrite <- Hfull. unfold rank_of. rewrite Hcanon. by apply canonical_b_canon. }
  destruct (run_backward_substitute h self l a b bb Ho Ha Hwf Hb Hwfb Hrows)
    as (xcols & h' & Hrun & [Hxo Hxa] & Hf).
  rewrite Hfull, Nat.sub_diag in Hrun, Hf.
  exists (array_T xcols), h'. split; [done|]. intros j Hj.
  assert (length (np.column bb j) = nrows a) as Hlc.
  { unfold np.column. rewrite length_fmap. by destruct Hwfb as [-> _]. }
  exists ((λ row, default false (np.column bb j !! row)) <$> seq 0 (ncols a)).
  assert (∀ i, i < ncols a →
            default false (((λ row, default false (np.column bb j !! row))
                              <$> seq 0 (ncols a)) !! i)
            = default false (np.column bb j !! i)) as Hxj.
  { intros i Hi. by rewrite list_lookup_fmap, lookup_seq_lt by done. }
  split; [by rewrite length_fmap, length_seq|]. split.
  - intros i Hi. rewrite Hxj by done.
    destruct (solution_entries a bb (ncols a) xcols j i) as (x_col & e & Hsol & He & ->);
      [done|lia|lia|done|done|by rewrite Nat.sub_diag|done..|].
    destruct (solve_col_spec a (np.column bb j) (ncols a) Hwf) as (x' & Hx' & _ & _ & Hok);
      [lia..|].
    rewrite Nat.sub_diag in Hsol, Hx'. assert (x' = x_col) as -> by congruence.
    destruct Hok as [_ Hval].
    { intros i' Hi'. rewrite get_column. by apply Hzero. }
    rewrite Hval in He by done. rewrite list_lookup_fmap, lookup_seq_lt in He by done.
    done.
  - apply (run_matmul h' self l a); [by apply Hxo|by apply Hxa|].
    apply matmul_canon_full; [done|done|by rewrite length_fmap, length_seq|done| |].
    + intros i Hi. by rewrite Hxj.
    + intros i Hi. rewrite get_column. by apply Hzero.
Qed.

Lemma backward_substitute_full_rank_witness :
  ∃ x h',
    backward_substitute 0 (OfArray (Array 2 2 [[true; false]; [true; true]])) (h0 I2)
    = Ok ((x, []), h') ∧
    ∀ j, j < 2 →
      ∃ xj : list bool,
        length xj = 2 ∧
        (∀ i, i < 2 →
           x !! i ≫= (.!! j) = Some (if xj.[i] then strue else sfalse)) ∧
        eval (m ← matmul 0 (OfArray (column_vector xj)); lm ← get_data m; load lm) h'
        = Ok (column_vector (np.column (Array 2 2 [[true; false]; [true; true]]) j)).
Proof.
  apply (backward_substitute_full_rank (h0 I2) 0 0 I2
           (OfArray (Array 2 2 [[true; false]; [true; true]]))
           (Array 2 2 [[true; false]; [true; true]]));
    [reflexivity | reflexivity | apply wf_iff; reflexivity
    | reflexivity | apply wf_iff; reflexivity | reflexivity
    | reflexivity | reflexivity |].
  intros i j Hi. unfold entry, item. simpl in *.
  do 2 (destruct i as [|i]; [lia|]). done.
Defined.

(** C3 as stated fails: [T21] is in canonical form and of full column
    rank, [[0]; [1]] has as many rows, and the solution is the
    unsatisfiable marker, not a boolean constant. *)
Lemma backward_substitute_full_rank_unsat :
  eval (is_canonical_form 0) (h0 T21) = Ok true ∧
  eval (get_rank 0) (h0 T21) = Ok (ncols T21) ∧
  eval (backward_substitute 0 (OfArray (Array 2 1 [[false]; [true]]))) (h0 T21)
  = Ok ([[nan]], []).
Proof. repeat split; reflexivity. Qed.

(** ** The right-hand side and the matrix in one array

    [MatGF2(b)] keeps the array of a [MatGF2] argument.  With
    [copy=False] and a [b] that is the receiver itself (or any [MatGF2]
    over the receiver's array) every row operation of the loop is applied
    to that one array twice, first through [mat_a] and then through [b]:
    a row swap is undone and a row addition cancels. *)

(** C4 at [A.forward_eliminate(b=A)], [A = [[0, 0], [0, 1]]]: the pivot is
    found at [(1, 1)]; the row swap is done twice, the column swap once,
    and the entry at [(0, 0)] is [0]: the assertion fails. *)
Lemma forward_eliminate_shared_assertion :
  forward_eliminate 0 (Some (OfMat 0)) false (h0 Z2) = Raise AssertionError.
Proof. reflexivity. Qed.

(** C1 at [A.forward_eliminate(b=A)], [A = [[1, 0], [1, 1]]]: the run
    completes, the entries are what they were, and the returned matrix is
    not in canonical form. *)
Lemma forward_eliminate_shared_not_canonical :
  ∃ b' h',
    forward_eliminate 0 (Some (OfMat 0)) false (h0 L2)
    = Ok ((0, b', [0; 1], [0; 1]), h') ∧
    arrs h' !! 0 = Some L2 ∧
    eval (is_canonical_form 0) h' = Ok false.
Proof. exists 1, (Heap [0; 0] [L2]). repeat split; reflexivity. Qed.

(** When [b] is stored apart from the matrix that is eliminated, a run
    that completes returns a matrix in canonical form. *)
Theorem forward_eliminate_apart_canonical h self l a b copy bb mat_a b' rp cp h' :
  objs h !! self = Some l → arrs h !! l = Some a → wf a →
  rhs_array h (nrows a) b = Some bb → wf bb → stored_apart h self b copy →
  forward_eliminate self b copy h = Ok ((mat_a, b', rp, cp), h') →
  eval (is_canonical_form mat_a) h' = Ok true.
Proof.
  intros Ho Ha Hwf Hb Hwfb Hapart Hrun.
  pose proof (forward_eliminate_spec h self l a b copy bb Ho Ha Hwf Hb Hwfb Hapart) as H.
  rewrite Hrun in H. destruct H as (la & lb & _ & Hst & _).
  destruct Hst. unfold eval. erewrite run_is_canonical_form by done.
  destruct (reduced_full a Hwf) as (Hwf' & _ & _ & Hcan).
  by rewrite (canon_canonical_b _ _ Hwf' Hcan).
Qed.

Lemma forward_eliminate_apart_canonical_witness :
  eval (is_canonical_form 0)
    (Heap [0; 1]
       [Array 3 3 [[true; false; true]; [false; true; true]; [false; false; false]];
        Array 3 1 [[true]; [false]; [false]]])
  = Ok true.
Proof.
  apply (forward_eliminate_apart_canonical (h0 A3) 0 0 A3 (Some (OfArray b3)) false b3
           0 1 [0; 1; 2] [0; 1; 2]);
    [reflexivity | reflexivity | apply wf_iff; reflexivity
    | reflexivity | apply wf_iff; reflexivity | by right | reflexivity].
Defined.



(** The value of [get_rank] is the rank in the sense of linear algebra:
    the row space of a matrix on which [get_rank] returns [r] has [2 ^ r]
    vectors. *)
Theorem get_rank_counts_row_space h m l a :
  objs h !! m = Some l → arrs h !! l = Some a → wf a →
  ∃ r, eval (get_rank m) h = Ok r ∧ r ≤ min (nrows a) (ncols a) ∧
       card_span (body a) (ncols a) (2 ^ r).
Proof.
  intros Ho Ha Hwf. exists (rank_of a). split; [|split].
  - unfold eval. by destruct (run_get_rank h m l a Ho Ha Hwf) as (h' & -> & _).
  - by apply rank_of_le.
  - by apply rank_of_card.
Qed.

Lemma get_rank_counts_row_space_witness :
  ∃ r, eval (get_rank 0) (h0 A3) = Ok r ∧ r ≤ 3 ∧ card_span (body A3) 3 (2 ^ r).
Proof.
  apply (get_rank_counts_row_space (h0 A3) 0 0 A3);
    [reflexivity | reflexivity | apply wf_iff; reflexivity].
Defined.

(** * The rest of the class *)

(** ** Rebinding [self.data] *)

Section rebinding.
Implicit Types (a b : ndarray) (h : heap) (m : MatGF2) (l : loc).

Lemma run_data_of h m l a :
  objs h !! m = Some l → arrs h !! l = Some a → data_of m h = Ok (a, h).
Proof.
  intros Ho Ha. unfold data_of. erewrite bind_Ok by (by apply run_get_data).
  by apply run_load.
Qed.

Lemma run_rebind h m l a' :
  objs h !! m = Some l →
  (l' ← new_array a'; set_data m l') h = Ok (tt, rebound h m a').
Proof.
  intros Ho. unfold new_array, set_data, mbind, M_bind. simpl.
  apply lookup_lt_Some in Ho. by rewrite decide_True.
Qed.

Lemma rebound_data h m l a' :
  objs h !! m = Some l →
  objs (rebound h m a') !! m = Some (length (arrs h)) ∧
  arrs (rebound h m a') !! length (arrs h) = Some a'.
Proof.
  intros Ho%lookup_lt_Some. simpl. split.
  - by apply list_lookup_insert_eq.
  - by apply lookup_snoc.
Qed.

Lemma rebound_arrs h m a' l a :
  arrs h !! l = Some a → arrs (rebound h m a') !! l = Some a.
Proof. intros H. simpl. by apply lookup_app_l_Some. Qed.

Lemma rebound_objs h m a' m' :
  m' ≠ m → objs (rebound h m a') !! m' = objs h !! m'.
Proof. intros H. simpl. by apply list_lookup_insert_ne. Qed.

Lemma run_data_of_rebound h m l a' :
  objs h !! m = Some l → data_of m (rebound h m a') = Ok (a', rebound h m a').
Proof.
  intros Ho. destruct (rebound_data h m l a' Ho) as [H1 H2].
  by eapply run_data_of.
Qed.

Lemma run_add_row h m l a v row :
  objs h !! m = Some l → arrs h !! l = Some a →
  add_row m v row h =
  match numpy.reshape_row (default (np.zeros 1 (ncols a)) v) (ncols a) with
  | None => Raise ValueError
  | Some v' =>
      match numpy.insert_axis0 a (default (Z.of_nat (nrows a)) row) v' with
      | None => Raise IndexError
      | Some a' => Ok (tt, rebound h m a')
      end
  end.
Proof.
  intros Ho Ha. unfold add_row.
  erewrite bind_Ok by (by apply run_get_data).
  erewrite bind_Ok by (by apply run_load).
  destruct (numpy.reshape_row _ _) as [v'|]; [|done].
  erewrite bind_Ok by reflexivity.
  destruct (numpy.insert_axis0 _ _ _) as [a'|]; [|done].
  erewrite bind_Ok by reflexivity. by eapply run_rebind.
Qed.

Lemma run_add_col h m l a v col :
  objs h !! m = Some l → arrs h !! l = Some a →
  add_col m v col h =
  match numpy.reshape_row (default (np.zeros 1 (nrows a)) v) (nrows a) with
  | None => Raise ValueError
  | Some v' =>
      match numpy.insert_axis1 a (default (Z.of_nat (ncols a)) col) v' with
      | None => Raise IndexError
      | Some a' => Ok (tt, rebound h m a')
      end
  end.
Proof.
  intros Ho Ha. unfold add_col.
  erewrite bind_Ok by (by apply run_get_data).
  erewrite bind_Ok by (by apply run_load).
  destruct (numpy.reshape_row _ _) as [v'|]; [|done].
  erewrite bind_Ok by reflexivity.
  destruct (numpy.insert_axis1 _ _ _) as [a'|]; [|done].
  erewrite bind_Ok by reflexivity. by eapply run_rebind.
Qed.

Lemma run_remove_row h m l a row :
  objs h !! m = Some l → arrs h !! l = Some a →
  remove_row m row h =
  match numpy.delete_axis0 a row with
  | None => Raise IndexError
  | Some a' => Ok (tt, rebound h m a')
  end.
Proof.
  intros Ho Ha. unfold remove_row.
  erewrite bind_Ok by (by apply run_get_data).
  erewrite bind_Ok by (by apply run_load).
  destruct (numpy.delete_axis0 _ _) as [a'|]; [|done].
  erewrite bind_Ok by reflexivity. by eapply run_rebind.
Qed.

Lemma run_remove_col h m l a col :
  objs h !! m = Some l → arrs h !! l = Some a →
  remove_col m col h =
  match numpy.delete_axis1 a col with
  | None => Raise IndexError
  | Some a' => Ok (tt, rebound h m a')
  end.
Proof.
  intros Ho Ha. unfold remove_col.
  erewrite bind_Ok by (by apply run_get_data).
  erewrite bind_Ok by (by apply run_load).
  destruct (numpy.delete_axis1 _ _) as [a'|]; [|done].
  erewrite bind_Ok by reflexivity. by eapply run_rebind.
Qed.

Lemma run_concatenate h m l a mb lb b axis :
  objs h !! m = Some l → arrs h !! l = Some a →
  objs h !! mb = Some lb → arrs h !! lb = Some b →
  concatenate m mb axis h =
  match numpy.concatenate a b axis with
  | None => Raise ValueError
  | Some a' => Ok (tt, rebound h m a')
  end.
Proof.
  intros Ho Ha Hob Hb. unfold concatenate.
  erewrite bind_Ok by (by apply run_get_data).
  erewrite bind_Ok by (by apply run_load).
  erewrite bind_Ok by (by apply run_get_data).
  erewrite bind_Ok by (by apply run_load).
  destruct (numpy.concatenate _ _ _) as [a'|]; [|done].
  erewrite bind_Ok by reflexivity. by eapply run_rebind.
Qed.

End rebinding.

(** ** Inserting and deleting rows and columns *)

Section edits.
Implicit Types (a b v : ndarray) (h : heap) (m : MatGF2) (l : loc) (i j k : nat).

Lemma insert_index_nat n k :
  k ≤ n → numpy.insert_index n (Z.of_nat k) = Some k.
Proof.
  intros H. unfold numpy.insert_index. rewrite decide_True by lia.
  by rewrite Nat2Z.id.
Qed.

Lemma insert_index_neg n (z : Z) :
  (- Z.of_nat n ≤ z < 0)%Z →
  numpy.insert_index n z = Some (Z.to_nat (z + Z.of_nat n)) ∧
  norm_index n z = Some (Z.to_nat (z + Z.of_nat n)) ∧
  norm_index (S n) z = Some (S (Z.to_nat (z + Z.of_nat n))).
Proof.
  intros H. unfold numpy.insert_index, norm_index.
  rewrite !(decide_False (P := (0 ≤ z ≤ _)%Z)) by lia.
  rewrite !(decide_False (P := (0 ≤ z < _)%Z)) by lia.
  rewrite !decide_True by lia. repeat split. f_equal. lia.
Qed.

Lemma length_mjoin_wf v : wf v → length (mjoin (body v)) = nrows v * ncols v.
Proof.
  intros [Hl Hf]. rewrite <- Hl. clear Hl.
  induction Hf as [|r R Hr Hf IH]; [done|].
  simpl. rewrite length_app, IH, Hr. done.
Qed.

Lemma reshape_row_size v c :
  wf v → nrows v * ncols v = c →
  numpy.reshape_row v c = Some (Array 1 c [mjoin (body v)]).
Proof.
  intros Hwf Hs. unfold numpy.reshape_row.
  by rewrite decide_True by (by rewrite length_mjoin_wf).
Qed.

Lemma reshape_row_None v c :
  wf v → nrows v * ncols v ≠ c → numpy.reshape_row v c = None.
Proof.
  intros Hwf Hs. unfold numpy.reshape_row.
  by rewrite decide_False by (by rewrite length_mjoin_wf).
Qed.

Lemma delete_inserted {X} (l : list X) k x :
  k ≤ length l → delete k (take k l ++ x :: drop k l) = l.
Proof.
  revert k. induction l as [|z l IH]; intros [|k] Hk; simpl in *; try done; [lia|].
  f_equal. apply IH. lia.
Qed.

Lemma delete_after_inserted {X} (l : list X) k x y :
  l !! k = Some y →
  delete (S k) (take k l ++ x :: drop k l) = <[k := x]> l.
Proof.
  revert k. induction l as [|z l IH]; intros [|k] Hk; simpl in *; try done.
  f_equal. by apply IH.
Qed.

Lemma delete_inserted_cols (R : list (list bool)) (xs : list bool) k :
  Forall (λ r, k ≤ length r) R → length R ≤ length xs →
  delete k <$> zip_with (λ r x, take k r ++ x :: drop k r) R xs = R.
Proof.
  intros HR. revert xs. induction HR as [|r R Hr HR IH]; intros [|x xs] Hl;
    simpl in *; try done; [lia|].
  rewrite delete_inserted by done. f_equal. apply IH. lia.
Qed.

(** [add_row] on an array of the right size: the row lands at the
    position the index stands for. *)
Lemma run_add_row_at h m l a v row p :
  objs h !! m = Some l → arrs h !! l = Some a →
  wf v → nrows v * ncols v = ncols a →
  numpy.insert_index (nrows a) (default (Z.of_nat (nrows a)) row) = Some p →
  add_row m (Some v) row h =
  Ok (tt, rebound h m (Array (nrows a + 1) (ncols a)
                         (take p (body a) ++ mjoin (body v) :: drop p (body a)))).
Proof.
  intros Ho Ha Hwfv Hs Hp. erewrite run_add_row by done. simpl.
  rewrite reshape_row_size by done. unfold numpy.insert_axis0. by rewrite Hp.
Qed.

Lemma run_add_col_at h m l a v col p :
  objs h !! m = Some l → arrs h !! l = Some a →
  wf v → nrows v * ncols v = nrows a →
  numpy.insert_index (ncols a) (default (Z.of_nat (ncols a)) col) = Some p →
  add_col m (Some v) col h =
  Ok (tt, rebound h m (Array (nrows a) (ncols a + 1)
                         (zip_with (λ r x, take p r ++ x :: drop p r)
                            (body a) (mjoin (body v))))).
Proof.
  intros Ho Ha Hwfv Hs Hp. erewrite run_add_col by done. simpl.
  rewrite reshape_row_size by done. unfold numpy.insert_axis1. rewrite Hp. simpl.
  by rewrite app_nil_r.
Qed.

Lemma run_remove_row_at h m l a k :
  objs h !! m = Some l → arrs h !! l = Some a → k < nrows a →
  remove_row m (Z.of_nat k) h =
  Ok (tt, rebound h m (Array (nrows a - 1) (ncols a) (delete k (body a)))).
Proof.
  intros Ho Ha Hk. erewrite run_remove_row by done.
  unfold numpy.delete_axis0. rewrite norm_index_nat, decide_True by done. done.
Qed.

Lemma run_remove_col_at h m l a k :
  objs h !! m = Some l → arrs h !! l = Some a → k < ncols a →
  remove_col m (Z.of_nat k) h =
  Ok (tt, rebound h m (Array (nrows a) (ncols a - 1) (delete k <$> body a))).
Proof.
  intros Ho Ha Hk. erewrite run_remove_col by done.
  unfold numpy.delete_axis1. rewrite norm_index_nat, decide_True by done. done.
Qed.

(** Reading [self.data] after two rebinding steps. *)
Lemma eval_two_steps (op1 op2 : M unit) h m l a1 a2 :
  objs h !! m = Some l →
  op1 h = Ok (tt, rebound h m a1) →
  op2 (rebound h m a1) = Ok (tt, rebound (rebound h m a1) m a2) →
  eval (op1;; op2;; data_of m) h = Ok a2.
Proof.
  intros Ho H1 H2. unfold eval.
  erewrite bind_Ok by exact H1. erewrite bind_Ok by exact H2.
  destruct (rebound_data h m l a1 Ho) as [Ho1 _].
  by erewrite run_data_of_rebound.
Qed.

Lemma eval_one_step (op1 : M unit) h m l a1 :
  objs h !! m = Some l →
  op1 h = Ok (tt, rebound h m a1) →
  eval (op1;; data_of m) h = Ok a1.
Proof.
  intros Ho H1. unfold eval.
  erewrite bind_Ok by exact H1. by erewrite run_data_of_rebound.
Qed.

End edits.

(** A row added at a position counted from the front is the row that
    [remove_row] removes at that position; a row added without a position
    is the last one. *)
Theorem add_row_remove_row h m l a v k :
  objs h !! m = Some l → arrs h !! l = Some a → wf a →
  wf v → nrows v * ncols v = ncols a → k ≤ nrows a →
  eval (add_row m (Some v) (Some (Z.of_nat k));;
        remove_row m (Z.of_nat k);; data_of m) h = Ok a ∧
  eval (add_row m (Some v) None;; remove_row m (-1);; data_of m) h = Ok a.
Proof.
  intros Ho Ha Hwf Hwfv Hs Hk.
  destruct (rebound_data h m l
              (Array (nrows a + 1) (ncols a)
                 (take k (body a) ++ mjoin (body v) :: drop k (body a))) Ho) as [Ho1 Ha1].
  destruct (rebound_data h m l
              (Array (nrows a + 1) (ncols a)
                 (take (nrows a) (body a) ++ mjoin (body v) :: drop (nrows a) (body a))) Ho)
    as [Ho2 Ha2].
  destruct Hwf as [Hlen _]. split.
  - eapply eval_two_steps; [done| |].
    + eapply run_add_row_at; [done..|]. by apply insert_index_nat.
    + erewrite run_remove_row_at; [|done..|simpl; lia]. simpl.
      rewrite delete_inserted by lia.
      replace (nrows a + 1 - 1) with (nrows a) by lia. by destruct a.
  - eapply eval_two_steps; [done| |].
    + eapply run_add_row_at; [done..|]. by apply insert_index_nat.
    + erewrite run_remove_row; [|done..]. unfold numpy.delete_axis0. simpl.
      assert (norm_index (nrows a + 1) (-1) = Some (nrows a)) as ->.
      { unfold norm_index. rewrite decide_False by lia. rewrite decide_True by lia.
        f_equal. lia. }
      simpl. rewrite delete_inserted by lia.
      replace (nrows a + 1 - 1) with (nrows a) by lia. by destruct a.
Qed.

Lemma add_row_remove_row_witness :
  eval (add_row 0 (Some T21) (Some (Z.of_nat 1));;
        remove_row 0 (Z.of_nat 1);; data_of 0) (h0 A2) = Ok A2 ∧
  eval (add_row 0 (Some T21) None;; remove_row 0 (-1);; data_of 0) (h0 A2) = Ok A2.
Proof.
  apply (add_row_remove_row (h0 A2) 0 0 A2 T21 1);
    [reflexivity | reflexivity | apply wf_iff; reflexivity
    | apply wf_iff; reflexivity | reflexivity | simpl; lia].
Defined.

(** The same for columns. *)
Theorem add_col_remove_col h m l a v k :
  objs h !! m = Some l → arrs h !! l = Some a → wf a →
  wf v → nrows v * ncols v = nrows a → k ≤ ncols a →
  eval (add_col m (Some v) (Some (Z.of_nat k));;
        remove_col m (Z.of_nat k);; data_of m) h = Ok a ∧
  eval (add_col m (Some v) None;; remove_col m (-1);; data_of m) h = Ok a.
Proof.
  intros Ho Ha Hwf Hwfv Hs Hk.
  pose proof (length_mjoin_wf v Hwfv) as Hflat.
  destruct Hwf as [Hlen Hrows].
  assert (∀ p, p ≤ ncols a →
            delete p <$> zip_with (λ r x, take p r ++ x :: drop p r)
                           (body a) (mjoin (body v)) = body a) as Hdel.
  { intros p Hp. apply delete_inserted_cols; [|lia].
    eapply Forall_impl; [exact Hrows|]. simpl. lia. }
  split.
  - destruct (rebound_data h m l
                (Array (nrows a) (ncols a + 1)
                   (zip_with (λ r x, take k r ++ x :: drop k r)
                      (body a) (mjoin (body v)))) Ho) as [Ho1 Ha1].
    eapply eval_two_steps; [done| |].
    + eapply run_add_col_at; [done..|]. by apply insert_index_nat.
    + erewrite run_remove_col_at; [|done..|simpl; lia]. simpl.
      rewrite Hdel by done.
      replace (ncols a + 1 - 1) with (ncols a) by lia. by destruct a.
  - destruct (rebound_data h m l
                (Array (nrows a) (ncols a + 1)
                   (zip_with (λ r x, take (ncols a) r ++ x :: drop (ncols a) r)
                      (body a) (mjoin (body v)))) Ho) as [Ho1 Ha1].
    eapply eval_two_steps; [done| |].
    + eapply run_add_col_at; [done..|]. by apply insert_index_nat.
    + erewrite run_remove_col; [|done..]. unfold numpy.delete_axis1. simpl.
      assert (norm_index (ncols a + 1) (-1) = Some (ncols a)) as ->.
      { unfold norm_index. rewrite decide_False by lia. rewrite decide_True by lia.
        f_equal. lia. }
      simpl. rewrite Hdel by done.
      replace (ncols a + 1 - 1) with (ncols a) by lia. by destruct a.
Qed.

Lemma add_col_remove_col_witness :
  eval (add_col 0 (Some T21) (Some (Z.of_nat 1));;
        remove_col 0 (Z.of_nat 1);; data_of 0) (h0 A2) = Ok A2 ∧
  eval (add_col 0 (Some T21) None;; remove_col 0 (-1);; data_of 0) (h0 A2) = Ok A2.
Proof.
  apply (add_col_remove_col (h0 A2) 0 0 A2 T21 1);
    [reflexivity | reflexivity | apply wf_iff; reflexivity
    | apply wf_iff; reflexivity | reflexivity | simpl; lia].
Defined.

(** With a negative position [z], [add_row] puts the new row before the
    row that [z] denotes, so that [z] still denotes the old row: the
    [remove_row] that follows removes the old row, not the new one, and
    the pair overwrites row [z]. *)
Theorem add_row_negative_index h m l a v (z : Z) :
  objs h !! m = Some l → arrs h !! l = Some a → wf a →
  wf v → nrows v * ncols v = ncols a → (- Z.of_nat (nrows a) ≤ z < 0)%Z →
  let p := Z.to_nat (z + Z.of_nat (nrows a)) in
  eval (add_row m (Some v) (Some z);; data_of m) h
  = Ok (Array (nrows a + 1) (ncols a)
          (take p (body a) ++ mjoin (body v) :: drop p (body a))) ∧
  eval (add_row m (Some v) (Some z);; remove_row m z;; data_of m) h
  = Ok (Array (nrows a) (ncols a) (<[p := mjoin (body v)]> (body a))).
Proof.
  intros Ho Ha Hwf Hwfv Hs Hz p.
  destruct (insert_index_neg (nrows a) z Hz) as (Hi & Hn & Hn').
  fold p in Hi, Hn, Hn'.
  assert (add_row m (Some v) (Some z) h
          = Ok (tt, rebound h m (Array (nrows a + 1) (ncols a)
                  (take p (body a) ++ mjoin (body v) :: drop p (body a))))) as Hadd.
  { by eapply run_add_row_at. }
  split; [by eapply eval_one_step|].
  destruct (rebound_data h m l
              (Array (nrows a + 1) (ncols a)
                 (take p (body a) ++ mjoin (body v) :: drop p (body a))) Ho) as [Ho1 Ha1].
  eapply eval_two_steps; [done|exact Hadd|].
  erewrite run_remove_row; [|done..]. unfold numpy.delete_axis0. simpl.
  replace (nrows a + 1) with (S (nrows a)) by lia. rewrite Hn'. simpl.
  destruct Hwf as [Hlen _].
  destruct (lookup_lt_is_Some_2 (body a) p) as [y Hy]; [subst p; lia|].
  rewrite (delete_after_inserted _ _ _ y Hy).
  by rewrite Nat.sub_0_r.
Qed.

Lemma add_row_negative_index_witness :
  let p := Z.to_nat (-1 + Z.of_nat 2) in
  eval (add_row 0 (Some T21) (Some (-1)%Z);; data_of 0) (h0 I2)
  = Ok (Array (2 + 1) 2 (take p (body I2) ++ mjoin (body T21) :: drop p (body I2))) ∧
  eval (add_row 0 (Some T21) (Some (-1)%Z);; remove_row 0 (-1);; data_of 0) (h0 I2)
  = Ok (Array 2 2 (<[p := mjoin (body T21)]> (body I2))).
Proof.
  apply (add_row_negative_index (h0 I2) 0 0 I2 T21 (-1));
    [reflexivity | reflexivity | apply wf_iff; reflexivity
    | apply wf_iff; reflexivity | reflexivity | simpl; lia].
Defined.

(** ** Sharing and copying *)

Section sharing.
Implicit Types (a b c : ndarray) (h : heap) (m w : MatGF2) (l : loc).

Lemma allocated_new h c :
  objs (allocated h c) !! length (objs h) = Some (length (arrs h)) ∧
  arrs (allocated h c) !! length (arrs h) = Some c.
Proof. split; apply lookup_snoc. Qed.

Lemma extends_allocated h c : extends h (allocated h c).
Proof. split; intros; simpl; by apply lookup_app_l_Some. Qed.

Lemma run_copy h m l a :
  objs h !! m = Some l → arrs h !! l = Some a →
  copy m h = Ok (length (objs h), allocated h a).
Proof.
  intros Ho Ha. unfold copy.
  erewrite bind_Ok by (by apply run_get_data).
  erewrite bind_Ok by (by apply run_load). done.
Qed.

End sharing.

(** A [MatGF2] built from a [MatGF2] shares its array: an edit in place
    made through the one is seen through the other.  A [copy] has an array
    of its own. *)
Theorem init_shares_copy_does_not h m l a i j :
  objs h !! m = Some l → arrs h !! l = Some a → wf a →
  i < nrows a → j < nrows a →
  ∃ a', (∀ k, body a' !! k = body a !! tr i j k) ∧
    eval (w ← MatGF2_init (OfMat m);
          swap_row w (Z.of_nat i) (Z.of_nat j);; data_of m) h = Ok a' ∧
    eval (w ← copy m;
          swap_row w (Z.of_nat i) (Z.of_nat j);; data_of m) h = Ok a.
Proof.
  intros Ho Ha Hwf Hi Hj.
  destruct (swap_rows_spec a i j Hwf Hi Hj) as (a' & Hsw & _ & _ & _ & Hrows).
  exists a'. split; [done|]. split.
  - unfold eval. erewrite bind_Ok by (by apply run_init_mat).
    erewrite bind_Ok; last first.
    { erewrite (run_swap_row _ _ l a); [|apply lookup_snoc|done].
      rewrite decide_True by done. by rewrite Hsw. }
    erewrite run_data_of; [done| |].
    + simpl. by apply lookup_app_l_Some.
    + simpl. apply list_lookup_insert_eq. by eapply lookup_lt_Some.
  - unfold eval. erewrite bind_Ok by (by eapply run_copy).
    destruct (allocated_new h a) as [Hn1 Hn2].
    erewrite bind_Ok; last first.
    { erewrite (run_swap_row _ _ (length (arrs h)) a); [|done..].
      rewrite decide_True by done. by rewrite Hsw. }
    erewrite run_data_of; [done| |].
    + simpl. by apply lookup_app_l_Some.
    + simpl. rewrite list_lookup_insert_ne by (apply lookup_lt_Some in Ha; lia).
      by apply lookup_app_l_Some.
Qed.

Lemma init_shares_copy_does_not_witness :
  ∃ a', (∀ k, body a' !! k = body A3 !! tr 0 2 k) ∧
    eval (w ← MatGF2_init (OfMat 0);
          swap_row w (Z.of_nat 0) (Z.of_nat 2);; data_of 0) (h0 A3) = Ok a' ∧
    eval (w ← copy 0;
          swap_row w (Z.of_nat 0) (Z.of_nat 2);; data_of 0) (h0 A3) = Ok A3.
Proof.
  apply (init_shares_copy_does_not (h0 A3) 0 0 A3 0 2);
    [reflexivity | reflexivity | apply wf_iff; reflexivity | simpl; lia | simpl; lia].
Defined.

(** The methods that add, remove, join or permute rows and columns never
    write to an array: the matrix gets a new one.  An object that shared
    the array keeps the old contents, and shares no longer. *)
Theorem edits_rebind h m l a w e h' :
  objs h !! m = Some l → arrs h !! l = Some a → objs h !! w = Some l → w ≠ m →
  run_edit m e h = Ok (tt, h') →
  objs h' !! w = Some l ∧ arrs h' !! l = Some a ∧
  objs h' !! m = Some (length (arrs h)) ∧ length (arrs h) ≠ l ∧
  (∀ l' x, arrs h !! l' = Some x → arrs h' !! l' = Some x).
Proof.
  intros Ho Ha Hw Hne Hrun.
  assert (∃ a', h' = rebound h m a') as [a' ->].
  { destruct e; simpl in Hrun.
    - erewrite run_add_row in Hrun by done.
      destruct (numpy.reshape_row _ _); [|done].
      destruct (numpy.insert_axis0 _ _ _); [|done]. injection Hrun as <-. eauto.
    - erewrite run_add_col in Hrun by done.
      destruct (numpy.reshape_row _ _); [|done].
      destruct (numpy.insert_axis1 _ _ _); [|done]. injection Hrun as <-. eauto.
    - erewrite run_remove_row in Hrun by done.
      destruct (numpy.delete_axis0 _ _); [|done]. injection Hrun as <-. eauto.
    - erewrite run_remove_col in Hrun by done.
      destruct (numpy.delete_axis1 _ _); [|done]. injection Hrun as <-. eauto.
    - destruct (objs h !! other) as [lb|] eqn:Hob;
        [destruct (arrs h !! lb) as [b|] eqn:Hb|].
      + erewrite run_concatenate in Hrun by done.
        destruct (numpy.concatenate _ _ _); [|done]. injection Hrun as <-. eauto.
      + unfold concatenate, get_data, load, mbind, M_bind in Hrun.
        unfold MatGF2, loc in *. rewrite Ho, Ha, Hob, Hb in Hrun. done.
      + unfold concatenate, get_data, load, mbind, M_bind in Hrun.
        unfold MatGF2, loc in *. rewrite Ho, Ha, Hob in Hrun. done.
    - erewrite run_permute_row in Hrun by done.
      destruct (np.take_rows _ _); [|done]. injection Hrun as <-. eauto.
    - erewrite run_permute_col in Hrun by done.
      destruct (np.take_cols _ _); [|done]. injection Hrun as <-. eauto. }
  destruct (rebound_data h m l a' Ho) as [H1 _].
  split; [by rewrite rebound_objs|]. split; [by apply rebound_arrs|].
  split; [done|]. split; [apply lookup_lt_Some in Ha; lia|].
  intros l' x. apply rebound_arrs.
Qed.

Lemma edits_rebind_witness :
  objs (rebound (Heap [0; 0] [A2]) 0 (Array (2 + 1) 2 [[true; true]; [true; true]; [false; false]]))
    !! 1 = Some 0 ∧
  arrs (rebound (Heap [0; 0] [A2]) 0 (Array (2 + 1) 2 [[true; true]; [true; true]; [false; false]]))
    !! 0 = Some A2 ∧
  objs (rebound (Heap [0; 0] [A2]) 0 (Array (2 + 1) 2 [[true; true]; [true; true]; [false; false]]))
    !! 0 = Some (length (arrs (Heap [0; 0] [A2]))) ∧
  length (arrs (Heap [0; 0] [A2])) ≠ 0 ∧
  (∀ l' x, arrs (Heap [0; 0] [A2]) !! l' = Some x →
     arrs (rebound (Heap [0; 0] [A2]) 0
             (Array (2 + 1) 2 [[true; true]; [true; true]; [false; false]])) !! l' = Some x).
Proof.
  apply (edits_rebind (Heap [0; 0] [A2]) 0 0 A2 1 (AddRow None None));
    [reflexivity | reflexivity | reflexivity | lia | reflexivity].
Defined.

(** ** Elementwise operations and products *)

Section arithmetic.
Implicit Types (a b : ndarray) (h : heap) (m w : MatGF2) (l : loc) (i j k : nat).

Lemma wf_tabulate (g : nat → nat → bool) r c :
  wf (Array r c ((λ i, (λ j, g i j) <$> seq 0 c) <$> seq 0 r)).
Proof.
  split; simpl; [by rewrite length_fmap, length_seq|].
  apply Forall_fmap, Forall_forall. intros i _. simpl.
  by rewrite length_fmap, length_seq.
Qed.

Lemma entry_tabulate (g : nat → nat → bool) r c i j :
  i < r → j < c →
  entry (Array r c ((λ i, (λ j, g i j) <$> seq 0 c) <$> seq 0 r)) i j = g i j.
Proof.
  intros Hi Hj. unfold entry, item. simpl.
  rewrite list_lookup_fmap, lookup_seq_lt by done. simpl.
  rewrite list_lookup_fmap, lookup_seq_lt by done. done.
Qed.

Lemma stretched_in a i j :
  i < nrows a → j < ncols a → numpy.stretched a i j = entry a i j.
Proof.
  intros Hi Hj. unfold numpy.stretched.
  do 2 case_decide; repeat f_equal; lia.
Qed.

Lemma broadcast_dim_to m n : n = m ∨ n = 1 → numpy.broadcast_dim m n = Some m.
Proof.
  intros H. unfold numpy.broadcast_dim. repeat case_decide; try done.
  - f_equal. lia.
  - lia.
Qed.

(** An elementwise operation with an operand that broadcasts to the shape
    of the other one. *)
Lemma elementwise_to (f : bool → bool → bool) a b :
  wf a → broadcasts_to b a →
  ∃ c, numpy.elementwise f a b = Some c ∧ wf c ∧
       nrows c = nrows a ∧ ncols c = ncols a ∧
       ∀ i j, i < nrows a → j < ncols a →
         entry c i j = f (entry a i j) (numpy.stretched b i j).
Proof.
  intros Hwf [Hr Hc]. unfold numpy.elementwise.
  rewrite !broadcast_dim_to by done. simpl. eexists. split; [done|].
  split; [apply wf_tabulate|]. split; [done|]. split; [done|].
  intros i j Hi Hj. simpl in *. rewrite entry_tabulate by done.
  by rewrite stretched_in.
Qed.

Lemma broadcasts_to_same a b :
  nrows b = nrows a → ncols b = ncols a → broadcasts_to b a.
Proof. intros. split; by left. Qed.

Lemma all_tabulate (g : nat → nat → bool) r c :
  numpy.all (Array r c ((λ i, (λ j, g i j) <$> seq 0 c) <$> seq 0 r)) = true ↔
  ∀ i j, i < r → j < c → g i j = true.
Proof.
  unfold numpy.all. simpl. rewrite forallb_forall. split.
  - intros H i j Hi Hj.
    specialize (H ((λ j, g i j) <$> seq 0 c)).
    rewrite forallb_forall in H.
    apply (H ltac:(apply list_elem_of_In, list_elem_of_fmap; exists i; split;
                   [done|apply elem_of_seq; lia]) (g i j)).
    apply list_elem_of_In, list_elem_of_fmap. exists j. split; [done|].
    apply elem_of_seq. lia.
  - intros H row [i [-> Hi%elem_of_seq]]%list_elem_of_In%list_elem_of_fmap.
    apply forallb_forall.
    intros x [j [-> Hj%elem_of_seq]]%list_elem_of_In%list_elem_of_fmap.
    simpl. apply H; lia.
Qed.

(** On arrays of one shape [==] followed by [np.all] is equality. *)
Lemma equal_same_shape a b :
  wf a → wf b → nrows b = nrows a → ncols b = ncols a →
  ∃ e, numpy.equal a b = Some e ∧ numpy.all e = bool_decide (a = b).
Proof.
  intros Hwfa Hwfb Hr Hc. unfold numpy.equal, numpy.elementwise.
  rewrite !broadcast_dim_to by (by left). simpl. eexists. split; [done|].
  apply eq_true_iff_eq. rewrite all_tabulate, bool_decide_eq_true. split.
  - intros H. apply array_ext; try done. intros i j Hi Hj.
    specialize (H i j Hi Hj). rewrite !stretched_in in H by lia.
    by apply eqb_prop.
  - intros <- i j Hi Hj. apply eqb_reflx.
Qed.

Lemma xsum_ext (g g' : nat → bool) n :
  (∀ k, k < n → g k = g' k) → xsum g n = xsum g' n.
Proof.
  induction n as [|n IH]; intros H; simpl; [done|].
  rewrite IH, H by (intros; try apply H; lia). done.
Qed.

Lemma xsum_false n : xsum (λ _, false) n = false.
Proof. induction n as [|n IH]; simpl; [done|]. by rewrite IH. Qed.

Lemma xsum_xorb (g g' : nat → bool) n :
  xsum (λ k, xorb (g k) (g' k)) n = xorb (xsum g n) (xsum g' n).
Proof.
  induction n as [|n IH]; simpl; [done|]. rewrite IH.
  by destruct (xsum g n), (xsum g' n), (g n), (g' n).
Qed.

Lemma xsum_andb_l (x : bool) (g : nat → bool) n :
  xsum (λ k, x && g k) n = x && xsum g n.
Proof.
  induction n as [|n IH]; simpl; [by destruct x|]. rewrite IH.
  by destruct x, (xsum g n), (g n).
Qed.

Lemma xsum_andb_r (x : bool) (g : nat → bool) n :
  xsum (λ k, g k && x) n = xsum g n && x.
Proof.
  induction n as [|n IH]; simpl; [done|]. rewrite IH.
  by destruct x, (xsum g n), (g n).
Qed.

Lemma xsum_swap (g : nat → nat → bool) n n' :
  xsum (λ k, xsum (λ k', g k k') n') n = xsum (λ k', xsum (λ k, g k k') n) n'.
Proof.
  induction n as [|n IH]; simpl.
  - by rewrite xsum_false.
  - by rewrite IH, xsum_xorb.
Qed.

Lemma xsum_S_l (g : nat → bool) n :
  xsum g (S n) = xorb (g 0) (xsum (λ k, g (S k)) n).
Proof.
  induction n as [|n IH]; [simpl; by destruct (g 0)|].
  change (xsum g (S (S n))) with (xorb (xsum g (S n)) (g (S n))).
  rewrite IH. simpl. by destruct (g 0), (xsum (λ k, g (S k)) n), (g (S n)).
Qed.

(** A sum with one nonzero term. *)
Lemma xsum_single (g : nat → bool) n p :
  p < n → (∀ k, k < n → k ≠ p → g k = false) → xsum g n = g p.
Proof.
  induction n as [|n IH]; intros Hp Hg; [lia|]. simpl.
  destruct (decide (p = n)) as [->|Hne].
  - rewrite (xsum_ext g (λ _, false)), xsum_false by (intros; apply Hg; lia). done.
  - rewrite IH, (Hg n) by (try lia; intros; apply Hg; lia). by destruct (g p).
Qed.

Lemma dot_xsum (u v : list bool) n :
  length u = n → length v = n → np.dot u v = xsum (λ k, u.[k] && v.[k]) n.
Proof.
  revert v n. induction u as [|x u IH]; intros [|y v] [|n] Hu Hv; try done.
  rewrite xsum_S_l. simpl in Hu, Hv. unfold np.dot in *. simpl.
  rewrite (IH v n) by lia. done.
Qed.

Lemma length_column a j : wf a → length (np.column a j) = nrows a.
Proof. intros [Hl _]. unfold np.column. by rewrite length_fmap. Qed.

Lemma matmul_spec a b :
  wf a → wf b → ncols a = nrows b →
  ∃ c, np.matmul a b = Some c ∧ wf c ∧ nrows c = nrows a ∧ ncols c = ncols b ∧
       ∀ i j, i < nrows a → j < ncols b →
         entry c i j = xsum (λ k, entry a i k && entry b k j) (ncols a).
Proof.
  intros Hwfa Hwfb Hin. unfold np.matmul. rewrite decide_True by done.
  eexists. split; [done|]. split; [|split; [done|split; [done|]]].
  - destruct Hwfa as [Hl _]. split; simpl; [by rewrite length_fmap|].
    apply Forall_fmap, Forall_forall. intros r _. simpl.
    by rewrite length_fmap, length_seq.
  - intros i j Hi Hj.
    destruct (wf_row a i Hwfa Hi) as (r & Hr & Hlr).
    unfold entry at 1, item. simpl. rewrite list_lookup_fmap, Hr. simpl.
    rewrite list_lookup_fmap, lookup_seq_lt by done. simpl.
    rewrite (dot_xsum r (np.column b j) (ncols a)); [|done|by rewrite length_column].
    apply xsum_ext. intros k Hk.
    by rewrite get_column, (entry_row a i k r Hr).
Qed.

(** The product is associative. *)
Lemma matmul_assoc a b c ab bc :
  wf a → wf b → wf c →
  np.matmul a b = Some ab → np.matmul b c = Some bc →
  ∃ abc, np.matmul ab c = Some abc ∧ np.matmul a bc = Some abc.
Proof.
  intros Hwfa Hwfb Hwfc Hab Hbc.
  assert (ncols a = nrows b) as Hi1.
  { unfold np.matmul in Hab. by case_decide. }
  assert (ncols b = nrows c) as Hi2.
  { unfold np.matmul in Hbc. by case_decide. }
  destruct (matmul_spec a b Hwfa Hwfb Hi1) as (ab' & Hab' & Hwfab & Hrab & Hcab & Heab).
  destruct (matmul_spec b c Hwfb Hwfc Hi2) as (bc' & Hbc' & Hwfbc & Hrbc & Hcbc & Hebc).
  assert (ab' = ab) as -> by congruence. assert (bc' = bc) as -> by congruence.
  destruct (matmul_spec ab c Hwfab Hwfc) as (x & Hx & Hwfx & Hrx & Hcx & Hex); [lia|].
  destruct (matmul_spec a bc Hwfa Hwfbc) as (y & Hy & Hwfy & Hry & Hcy & Hey); [lia|].
  exists x. split; [done|]. rewrite Hy. f_equal. symmetry.
  apply array_ext; [done|done|lia|lia|]. intros i j Hi Hj.
  rewrite Hex, Hey by lia. rewrite Hcab.
  trans (xsum (λ k, xsum (λ k', entry a i k' && entry b k' k && entry c k j)
                      (ncols a)) (ncols b)).
  { apply xsum_ext. intros k Hk. rewrite Heab by lia. by rewrite xsum_andb_r. }
  rewrite xsum_swap. apply xsum_ext. intros k' Hk'.
  rewrite Hebc by lia. rewrite <- xsum_andb_l. apply xsum_ext. intros k Hk.
  by rewrite andb_assoc.
Qed.

(** The product distributes over the sum. *)
Lemma matmul_add_distr a b c s ab ac :
  wf a → wf b → wf c → nrows c = nrows b → ncols c = ncols b →
  numpy.add b c = Some s → np.matmul a b = Some ab → np.matmul a c = Some ac →
  ∃ x, np.matmul a s = Some x ∧ numpy.add ab ac = Some x ∧ wf x.
Proof.
  intros Hwfa Hwfb Hwfc Hr Hc Hs Hab Hac.
  assert (ncols a = nrows b) as Hin.
  { unfold np.matmul in Hab. by case_decide. }
  destruct (elementwise_to xorb b c Hwfb (broadcasts_to_same _ _ Hr Hc))
    as (s' & Hs' & Hwfs & Hrs & Hcs & Hes).
  assert (s' = s) as -> by (unfold numpy.add in Hs; congruence).
  destruct (matmul_spec a b Hwfa Hwfb Hin) as (ab' & Hab' & Hwfab & Hrab & Hcab & Heab).
  assert (ab' = ab) as -> by congruence.
  destruct (matmul_spec a c Hwfa Hwfc) as (ac' & Hac' & Hwfac & Hrac & Hcac & Heac); [lia|].
  assert (ac' = ac) as -> by congruence.
  destruct (matmul_spec a s Hwfa Hwfs) as (x & Hx & Hwfx & Hrx & Hcx & Hex); [lia|].
  destruct (elementwise_to xorb ab ac Hwfab) as (y & Hy & Hwfy & Hry & Hcy & Hey).
  { apply broadcasts_to_same; lia. }
  exists x. split; [done|]. split; [|done]. unfold numpy.add. rewrite Hy. f_equal.
  apply array_ext; [done|done|lia|lia|]. intros i j Hi Hj.
  rewrite Hey, Hex by lia. rewrite stretched_in by lia.
  rewrite Heab, Heac by lia. rewrite <- xsum_xorb. apply xsum_ext. intros k Hk.
  rewrite Hes by lia. rewrite stretched_in by lia.
  by destruct (entry a i k), (entry b k j), (entry c k j).
Qed.

End arithmetic.

(** ** The operators on the store *)

Section operators.
Implicit Types (a b : ndarray) (h : heap) (m w : MatGF2) (l : loc) (o : array_like).

Lemma extends_operand_store h o : extends h (operand_store h o).
Proof. destruct o; [apply extends_refl|apply extends_allocated]. Qed.

Lemma rhs_array_extends h h' n o b :
  extends h h' → rhs_array h n (Some o) = Some b → rhs_array h' n (Some o) = Some b.
Proof.
  intros [H1 H2]. destruct o as [mb|b0]; simpl; [|done].
  destruct (objs h !! mb) as [lb|] eqn:Hob; [|done]. simpl. intros Hb.
  unfold MatGF2, loc in *. rewrite (H1 _ _ Hob). simpl. by apply H2.
Qed.

Lemma run_operator_eq op h m l a o b :
  objs h !! m = Some l → arrs h !! l = Some a → rhs_array h 0 (Some o) = Some b →
  run_operator op m o h =
  match operator_value op a b with
  | Some c => Ok (length (objs (operand_store h o)), allocated (operand_store h o) c)
  | None => Raise ValueError
  end.
Proof.
  intros Ho Ha Hb.
  assert (∃ other,
            match o with
            | OfArray _ => MatGF2_init o
            | OfMat mb => mret mb
            end h = Ok (other, operand_store h o) ∧
            ∃ lb, objs (operand_store h o) !! other = Some lb ∧
                  arrs (operand_store h o) !! lb = Some b) as (other & Hw & lb & Hob & Hab).
  { destruct o as [mb|b0]; simpl in *.
    - exists mb. split; [done|].
      destruct (objs h !! mb) as [lb|] eqn:Hob; [|done]. eauto.
    - injection Hb as ->. eexists. split; [done|]. eexists. split; apply lookup_snoc. }
  destruct (extends_operand_store h o) as [E1 E2].
  destruct op; simpl;
    unfold __add__, __sub__, __mul__, matmul;
    (erewrite bind_Ok by exact Hw);
    (erewrite bind_Ok by (apply run_get_data, E1, Ho));
    (erewrite bind_Ok by (apply run_load, E2, Ha));
    (erewrite bind_Ok by (apply run_get_data, Hob));
    (erewrite bind_Ok by (apply run_load, Hab));
    match goal with |- context [lift _ ?x] => destruct x end;
    try done.
Qed.

(** A step of a computation that applies an operator. *)
Lemma operator_step op h m l a o b c :
  objs h !! m = Some l → arrs h !! l = Some a → rhs_array h 0 (Some o) = Some b →
  operator_value op a b = Some c →
  ∃ w lw h', run_operator op m o h = Ok (w, h') ∧ extends h h' ∧
             objs h' !! w = Some lw ∧ arrs h' !! lw = Some c ∧
             objs h !! w = None ∧ arrs h !! lw = None.
Proof.
  intros Ho Ha Hb Hc. erewrite run_operator_eq by done. rewrite Hc.
  do 3 eexists. split; [done|].
  destruct (allocated_new (operand_store h o) c) as [H1 H2].
  split; [|split; [exact H1|split; [exact H2|]]].
  - eapply extends_trans; [apply extends_operand_store|apply extends_allocated].
  - destruct o; simpl; split; apply lookup_ge_None_2; rewrite ?length_app; lia.
Qed.

Lemma run_eq h m1 l1 a m2 l2 b :
  objs h !! m1 = Some l1 → arrs h !! l1 = Some a →
  objs h !! m2 = Some l2 → arrs h !! l2 = Some b →
  __eq__ m1 m2 h =
  match numpy.equal a b with
  | Some e => Ok (numpy.all e, h)
  | None => Raise ValueError
  end.
Proof.
  intros Ho1 Ha1 Ho2 Ha2. unfold __eq__.
  erewrite bind_Ok by (by apply run_get_data).
  erewrite bind_Ok by (by apply run_load).
  erewrite bind_Ok by (by apply run_get_data).
  erewrite bind_Ok by (by apply run_load).
  by destruct (numpy.equal a b).
Qed.

End operators.

(** Subtracting and adding the same operand gives back the matrix:
    [(A - B) + B == A], for every [B] that broadcasts to the shape of
    [A]. *)
Theorem sub_then_add h m l a o b :
  objs h !! m = Some l → arrs h !! l = Some a → wf a →
  rhs_array h 0 (Some o) = Some b → wf b → broadcasts_to b a →
  eval (d ← __sub__ m o; s ← __add__ d o; __eq__ s m) h = Ok true.
Proof.
  intros Ho Ha Hwf Hb Hwfb Hbc.
  destruct (elementwise_to xorb a b Hwf Hbc) as (c1 & Hc1 & Hwf1 & Hr1 & Hcc1 & He1).
  destruct (operator_step Sub h m l a o b c1 Ho Ha Hb Hc1)
    as (d & ld & h1 & Hrun1 & Hext1 & Hod & Had & _).
  assert (broadcasts_to b c1) as Hbc1.
  { destruct Hbc. split; congruence. }
  destruct (elementwise_to xorb c1 b Hwf1 Hbc1) as (c2 & Hc2 & Hwf2 & Hr2 & Hcc2 & He2).
  assert (c2 = a) as ->.
  { apply array_ext; [done|done|lia|lia|]. intros i j Hi Hj.
    rewrite He2, He1 by lia. by destruct (entry a i j), (numpy.stretched b i j). }
  destruct (operator_step Add h1 d ld c1 o b a Hod Had
              (rhs_array_extends _ _ _ _ _ Hext1 Hb) Hc2)
    as (s & ls & h2 & Hrun2 & Hext2 & Hos & Has & _).
  unfold eval. erewrite bind_Ok by exact Hrun1. erewrite bind_Ok by exact Hrun2.
  destruct (extends_trans _ _ _ Hext1 Hext2) as [E1 E2].
  erewrite run_eq; [|exact Hos|exact Has|apply E1, Ho|apply E2, Ha].
  destruct (equal_same_shape a a Hwf Hwf eq_refl eq_refl) as (e & -> & ->).
  by rewrite bool_decide_eq_true_2.
Qed.

Lemma sub_then_add_witness :
  eval (d ← __sub__ 0 (OfArray (Array 1 2 [[true; false]]));
        s ← __add__ d (OfArray (Array 1 2 [[true; false]])); __eq__ s 0) (h0 A2)
  = Ok true.
Proof.
  apply (sub_then_add (h0 A2) 0 0 A2 (OfArray (Array 1 2 [[true; false]]))
           (Array 1 2 [[true; false]]));
    [reflexivity | reflexivity | apply wf_iff; reflexivity | reflexivity
    | apply wf_iff; reflexivity | split; [by right|by left]].
Defined.

(** The matrix product is associative: [(A @ B) @ C == A @ (B @ C)]. *)
Theorem matmul_associative h m1 l1 a m2 l2 b o c :
  objs h !! m1 = Some l1 → arrs h !! l1 = Some a → wf a →
  objs h !! m2 = Some l2 → arrs h !! l2 = Some b → wf b →
  rhs_array h 0 (Some o) = Some c → wf c →
  ncols a = nrows b → ncols b = nrows c →
  eval (ab ← matmul m1 (OfMat m2); x ← matmul ab o;
        bc ← matmul m2 o; y ← matmul m1 (OfMat bc);
        __eq__ x y) h = Ok true.
Proof.
  intros Ho1 Ha1 Hwfa Ho2 Ha2 Hwfb Hc Hwfc Hi1 Hi2.
  destruct (matmul_spec a b Hwfa Hwfb Hi1) as (ab & Hab & Hwfab & Hrab & Hcab & _).
  destruct (matmul_spec b c Hwfb Hwfc Hi2) as (bc & Hbc & Hwfbc & Hrbc & Hcbc & _).
  destruct (matmul_assoc a b c ab bc Hwfa Hwfb Hwfc Hab Hbc) as (abc & Hx & Hy).
  destruct (matmul_spec ab c Hwfab Hwfc) as (abc' & Hx' & Hwfx & _); [lia|].
  assert (abc' = abc) as -> by congruence.
  destruct (operator_step MatMul h m1 l1 a (OfMat m2) b ab Ho1 Ha1)
    as (w1 & lw1 & h1 & Hrun1 & [E1 F1] & Hw1 & Hlw1 & _); [|done|].
  { simpl. unfold MatGF2, loc in *. by rewrite Ho2. }
  destruct (operator_step MatMul h1 w1 lw1 ab o c abc Hw1 Hlw1)
    as (w2 & lw2 & h2 & Hrun2 & [E2 F2] & Hw2 & Hlw2 & _); [|done|].
  { by apply (rhs_array_extends h). }
  destruct (operator_step MatMul h2 m2 l2 b o c bc)
    as (w3 & lw3 & h3 & Hrun3 & [E3 F3] & Hw3 & Hlw3 & _); [auto..| |done|].
  { apply (rhs_array_extends h); [|done]. split; auto. }
  destruct (operator_step MatMul h3 m1 l1 a (OfMat w3) bc abc)
    as (w4 & lw4 & h4 & Hrun4 & [E4 F4] & Hw4 & Hlw4 & _); [auto..| |done|].
  { simpl. unfold MatGF2, loc in *. by rewrite Hw3. }
  unfold eval.
  erewrite bind_Ok by exact Hrun1. erewrite bind_Ok by exact Hrun2.
  erewrite bind_Ok by exact Hrun3. erewrite bind_Ok by exact Hrun4.
  erewrite run_eq; [|apply E4, E3, Hw2|apply F4, F3, Hlw2|exact Hw4|exact Hlw4].
  destruct (equal_same_shape abc abc Hwfx Hwfx eq_refl eq_refl) as (e & -> & ->).
  by rewrite bool_decide_eq_true_2.
Qed.

Lemma matmul_associative_witness :
  eval (ab ← matmul 0 (OfMat 0); x ← matmul ab (OfArray T21);
        bc ← matmul 0 (OfArray T21); y ← matmul 0 (OfMat bc);
        __eq__ x y) (h0 L2) = Ok true.
Proof.
  apply (matmul_associative (h0 L2) 0 0 L2 0 0 L2 (OfArray T21) T21);
    [reflexivity | reflexivity | apply wf_iff; reflexivity
    | reflexivity | reflexivity | apply wf_iff; reflexivity
    | reflexivity | apply wf_iff; reflexivity | reflexivity | reflexivity].
Defined.

(** The product distributes over the sum:
    [A @ (B + C) == A @ B + A @ C]. *)
Theorem matmul_distributes h m1 l1 a m2 l2 b o c :
  objs h !! m1 = Some l1 → arrs h !! l1 = Some a → wf a →
  objs h !! m2 = Some l2 → arrs h !! l2 = Some b → wf b →
  rhs_array h 0 (Some o) = Some c → wf c →
  ncols a = nrows b → nrows c = nrows b → ncols c = ncols b →
  eval (s ← __add__ m2 o; x ← matmul m1 (OfMat s);
        ab ← matmul m1 (OfMat m2); ac ← matmul m1 o;
        y ← __add__ ab (OfMat ac);
        __eq__ x y) h = Ok true.
Proof.
  intros Ho1 Ha1 Hwfa Ho2 Ha2 Hwfb Hc Hwfc Hin Hr Hcc.
  destruct (elementwise_to xorb b c Hwfb (broadcasts_to_same _ _ Hr Hcc))
    as (s & Hs & Hwfs & Hrs & Hcs & _).
  destruct (matmul_spec a b Hwfa Hwfb Hin) as (ab & Hab & Hwfab & _).
  destruct (matmul_spec a c Hwfa Hwfc) as (ac & Hac & Hwfac & _); [lia|].
  destruct (matmul_add_distr a b c s ab ac) as (x & Hx & Hy & Hwfx); [done..|].
  destruct (operator_step Add h m2 l2 b o c s Ho2 Ha2 Hc Hs)
    as (w1 & lw1 & h1 & Hrun1 & [E1 F1] & Hw1 & Hlw1 & _).
  destruct (operator_step MatMul h1 m1 l1 a (OfMat w1) s x)
    as (w2 & lw2 & h2 & Hrun2 & [E2 F2] & Hw2 & Hlw2 & _); [auto..| |done|].
  { simpl. unfold MatGF2, loc in *. by rewrite Hw1. }
  destruct (operator_step MatMul h2 m1 l1 a (OfMat m2) b ab)
    as (w3 & lw3 & h3 & Hrun3 & [E3 F3] & Hw3 & Hlw3 & _); [auto..| |done|].
  { simpl. unfold MatGF2, loc in *. rewrite (E2 _ _ (E1 _ _ Ho2)). simpl. auto. }
  destruct (operator_step MatMul h3 m1 l1 a o c ac)
    as (w4 & lw4 & h4 & Hrun4 & [E4 F4] & Hw4 & Hlw4 & _); [auto..| |done|].
  { apply (rhs_array_extends h); [|done]. split; auto. }
  destruct (operator_step Add h4 w3 lw3 ab (OfMat w4) ac x)
    as (w5 & lw5 & h5 & Hrun5 & [E5 F5] & Hw5 & Hlw5 & _); [auto..| |done|].
  { simpl. unfold MatGF2, loc in *. by rewrite Hw4. }
  unfold eval.
  erewrite bind_Ok by exact Hrun1. erewrite bind_Ok by exact Hrun2.
  erewrite bind_Ok by exact Hrun3. erewrite bind_Ok by exact Hrun4.
  erewrite bind_Ok by exact Hrun5.
  erewrite run_eq; [|apply E5, E4, E3, Hw2|apply F5, F4, F3, Hlw2|exact Hw5|exact Hlw5].
  destruct (equal_same_shape x x Hwfx Hwfx eq_refl eq_refl) as (e & -> & ->).
  by rewrite bool_decide_eq_true_2.
Qed.

Lemma matmul_distributes_witness :
  eval (s ← __add__ 0 (OfArray I2); x ← matmul 0 (OfMat s);
        ab ← matmul 0 (OfMat 0); ac ← matmul 0 (OfArray I2);
        y ← __add__ ab (OfMat ac);
        __eq__ x y) (h0 L2) = Ok true.
Proof.
  apply (matmul_distributes (h0 L2) 0 0 L2 0 0 L2 (OfArray I2) I2);
    [reflexivity | reflexivity | apply wf_iff; reflexivity
    | reflexivity | reflexivity | apply wf_iff; reflexivity
    | reflexivity | apply wf_iff; reflexivity
    | reflexivity | reflexivity | reflexivity].
Defined.

(** On two matrices of one shape [__eq__] decides whether the arrays are
    equal, and changes nothing. *)
Theorem eq_on_one_shape h m1 l1 a m2 l2 b :
  objs h !! m1 = Some l1 → arrs h !! l1 = Some a → wf a →
  objs h !! m2 = Some l2 → arrs h !! l2 = Some b → wf b →
  nrows b = nrows a → ncols b = ncols a →
  __eq__ m1 m2 h = Ok (bool_decide (a = b), h).
Proof.
  intros Ho1 Ha1 Hwfa Ho2 Ha2 Hwfb Hr Hc. erewrite run_eq by done.
  by destruct (equal_same_shape a b Hwfa Hwfb Hr Hc) as (e & -> & ->).
Qed.

Lemma eq_on_one_shape_witness :
  __eq__ 0 1 (Heap [0; 1] [A2; I2]) = Ok (bool_decide (A2 = I2), Heap [0; 1] [A2; I2]).
Proof.
  apply (eq_on_one_shape (Heap [0; 1] [A2; I2]) 0 0 A2 1 1 I2);
    [reflexivity | reflexivity | apply wf_iff; reflexivity
    | reflexivity | reflexivity | apply wf_iff; reflexivity
    | reflexivity | reflexivity].
Defined.

(** [__eq__] compares after broadcasting, so it does not compare the
    shapes: a matrix with one row (or one column) is equal to every
    matrix that repeats it. *)
Theorem eq_broadcasts h m1 l1 a m2 l2 b :
  objs h !! m1 = Some l1 → arrs h !! l1 = Some a → wf a →
  objs h !! m2 = Some l2 → arrs h !! l2 = Some b →
  broadcasts_to b a →
  ∃ r, __eq__ m1 m2 h = Ok (r, h) ∧
       (r = true ↔
        ∀ i j, i < nrows a → j < ncols a → entry a i j = numpy.stretched b i j).
Proof.
  intros Ho1 Ha1 Hwfa Ho2 Ha2 [Hr Hc]. erewrite run_eq by done.
  unfold numpy.equal, numpy.elementwise. rewrite !broadcast_dim_to by done. simpl.
  eexists. split; [done|]. rewrite all_tabulate. split.
  - intros H i j Hi Hj. specialize (H i j Hi Hj).
    rewrite stretched_in in H by done. by apply eqb_prop.
  - intros H i j Hi Hj. rewrite stretched_in, H by done. apply eqb_reflx.
Qed.

Lemma eq_broadcasts_witness :
  ∃ r, __eq__ 0 1 (Heap [0; 1] [A2; Array 1 2 [[true; true]]])
       = Ok (r, Heap [0; 1] [A2; Array 1 2 [[true; true]]]) ∧
       (r = true ↔
        ∀ i j, i < 2 → j < 2 →
          entry A2 i j = numpy.stretched (Array 1 2 [[true; true]]) i j).
Proof.
  apply (eq_broadcasts (Heap [0; 1] [A2; Array 1 2 [[true; true]]]) 0 0 A2 1 1
           (Array 1 2 [[true; true]]));
    [reflexivity | reflexivity | apply wf_iff; reflexivity
    | reflexivity | reflexivity | split; [by right|by left]].
Defined.

(** The operators never change what exists: they return a new object over
    a new array, and fail with [ValueError] exactly when the shapes do not
    fit. *)
Theorem operators_allocate op h m l a o b :
  objs h !! m = Some l → arrs h !! l = Some a → rhs_array h 0 (Some o) = Some b →
  match run_operator op m o h with
  | Ok (w, h') =>
      extends h h' ∧ objs h !! w = None ∧
      ∃ lw c, objs h' !! w = Some lw ∧ arrs h !! lw = None ∧
              arrs h' !! lw = Some c ∧ operator_value op a b = Some c
  | Raise e => e = ValueError ∧ operator_value op a b = None
  end.
Proof.
  intros Ho Ha Hb. destruct (operator_value op a b) as [c|] eqn:Hc.
  - destruct (operator_step op h m l a o b c Ho Ha Hb Hc)
      as (w & lw & h' & -> & He & H1 & H2 & H3 & H4).
    split; [done|]. split; [done|]. eauto 10.
  - erewrite run_operator_eq by done. by rewrite Hc.
Qed.

Lemma operators_allocate_witness :
  match run_operator MatMul 0 (OfArray T21) (h0 A2) with
  | Ok (w, h') =>
      extends (h0 A2) h' ∧ objs (h0 A2) !! w = None ∧
      ∃ lw c, objs h' !! w = Some lw ∧ arrs (h0 A2) !! lw = None ∧
              arrs h' !! lw = Some c ∧ operator_value MatMul A2 T21 = Some c
  | Raise e => e = ValueError ∧ operator_value MatMul A2 T21 = None
  end.
Proof.
  apply (operators_allocate MatMul (h0 A2) 0 0 A2 (OfArray T21) T21);
    reflexivity.
Defined.

(** ** Rows and columns added or removed, and the rank *)

Section edit_ranks.
Implicit Types (a : ndarray) (u v w : list bool) (R : list (list bool)) (n k : nat).

(** A row space that is the image of another one is not larger. *)
Lemma card_span_le (g : list bool → list bool) R n N R' n' N' :
  card_span R n N → card_span R' n' N' →
  (∀ v, span R' n' v → ∃ u, span R n u ∧ g u = v) → N' ≤ N.
Proof.
  intros (l & Hnd & Hl & <-) (l' & Hnd' & Hl' & <-) H.
  rewrite <- (length_fmap g l). apply submseteq_length, NoDup_submseteq; [done|].
  intros v Hv. apply Hl', H in Hv as (u & Hu & <-).
  apply list_elem_of_fmap_2. by apply Hl.
Qed.

Lemma rank_of_mono a a' :
  wf a → wf a' →
  (∀ N N', card_span (body a) (ncols a) N → card_span (body a') (ncols a') N' → N' ≤ N) →
  rank_of a' ≤ rank_of a.
Proof.
  intros Hwf Hwf' H. apply (Nat.pow_le_mono_r_iff 2); [lia|].
  apply H; by apply rank_of_card.
Qed.

Lemma rank_of_mono_double a a' :
  wf a → wf a' →
  (∀ N N', card_span (body a) (ncols a) N → card_span (body a') (ncols a') N' →
           N' ≤ 2 * N) →
  rank_of a' ≤ rank_of a + 1.
Proof.
  intros Hwf Hwf' H. apply (Nat.pow_le_mono_r_iff 2); [lia|].
  rewrite Nat.add_1_r, Nat.pow_succ_r'.
  apply H; by apply rank_of_card.
Qed.

Lemma span_cons_cases R n v w :
  Forall (λ r, length r = n) R → length v = n →
  span (v :: R) n w → span R n w ∨ ∃ u, span R n u ∧ w = vxor v u.
Proof.
  intros HR Hv. induction 1 as [|r w Hr Hw IH].
  { left. constructor. }
  apply elem_of_cons in Hr as [->|Hr].
  - destruct IH as [IH|(u & Hu & ->)]; [right; eauto|].
    left. rewrite vxor_cancel; [done|].
    rewrite (span_length R n u HR Hu). done.
  - assert (length r = n) as Hlr by (rewrite Forall_forall in HR; by apply HR).
    destruct IH as [IH|(u & Hu & ->)]; [left; by apply span_add|].
    pose proof (span_length R n u HR Hu) as Hlu.
    right. exists (vxor r u). split; [by apply span_add|].
    rewrite !vxor_assoc by congruence. f_equal. apply vxor_comm. congruence.
Qed.

Lemma span_inserted R n v k w :
  Forall (λ r, length r = n) R → length v = n →
  span (take k R ++ v :: drop k R) n w ↔ span (v :: R) n w.
Proof.
  intros HR Hv. apply span_same_rows.
  - apply Forall_app. split; [by apply Forall_take|].
    apply Forall_cons. split; [done|by apply Forall_drop].
  - by apply Forall_cons.
  - intros r. rewrite elem_of_app, !elem_of_cons.
    rewrite <- (take_drop k R) at 3. rewrite elem_of_app. tauto.
Qed.

(** One more row: the row space grows, to at most twice its size. *)
Lemma card_span_inserted R n v k N N' :
  Forall (λ r, length r = n) R → length v = n →
  card_span R n N → card_span (take k R ++ v :: drop k R) n N' →
  N ≤ N' ∧ N' ≤ 2 * N.
Proof.
  intros HR Hv HN HN'.
  apply (card_span_same _ (v :: R)) in HN'; [|intros w; by apply span_inserted].
  split.
  - apply (card_span_le id (v :: R) n N' R n N); [done..|].
    intros w Hw. exists w. split; [|done].
    revert Hw. apply span_least; [by apply Forall_cons|].
    intros r Hr. apply span_row; [by apply Forall_cons|by right].
  - destruct HN as (l & Hnd & Hl & <-), HN' as (l' & Hnd' & Hl' & <-).
    replace (2 * length l) with (length (l ++ (vxor v <$> l)))
      by (rewrite length_app, length_fmap; lia).
    apply submseteq_length, NoDup_submseteq; [done|].
    intros w Hw. apply Hl' in Hw.
    destruct (span_cons_cases R n v w HR Hv Hw) as [Hw'|(u & Hu & ->)].
    + apply elem_of_app. left. by apply Hl.
    + apply elem_of_app. right. apply list_elem_of_fmap_2. by apply Hl.
Qed.

Lemma wf_inserted_row a k v :
  wf a → length v = ncols a →
  wf (Array (nrows a + 1) (ncols a) (take k (body a) ++ v :: drop k (body a))).
Proof.
  intros [Hl HR] Hv. split; simpl.
  - rewrite length_app. simpl. rewrite length_take, length_drop. lia.
  - apply Forall_app. split; [by apply Forall_take|].
    apply Forall_cons. split; [done|by apply Forall_drop].
Qed.

Lemma rank_inserted_row a k v :
  wf a → length v = ncols a →
  let a' := Array (nrows a + 1) (ncols a) (take k (body a) ++ v :: drop k (body a)) in
  rank_of a ≤ rank_of a' ∧ rank_of a' ≤ rank_of a + 1 ∧
  (v = replicate (ncols a) false → rank_of a' = rank_of a).
Proof.
  intros Hwf Hv a'. pose proof (wf_inserted_row a k v Hwf Hv) as Hwf'.
  destruct Hwf as [Hl HR]. split; [|split].
  - apply rank_of_mono; [done..|]. intros N' N HN' HN.
    by destruct (card_span_inserted (body a) (ncols a) v k N N' HR Hv HN HN').
  - apply rank_of_mono_double; [done..|]. intros N N' HN HN'.
    by destruct (card_span_inserted (body a) (ncols a) v k N N' HR Hv HN HN').
  - intros ->. symmetry. apply card_transfer_rank_of; [done..|].
    intros N. apply card_span_same. intros w. simpl.
    rewrite span_inserted by done. split.
    + apply span_least; [by apply Forall_cons|].
      intros r Hr. apply span_row; [by apply Forall_cons|by right].
    + apply span_least; [done|].
      intros r [->|Hr]%elem_of_cons; [constructor|by apply span_row].
Qed.

Lemma inserted_deleted {X} (l : list X) k y :
  l !! k = Some y → take k (delete k l) ++ y :: drop k (delete k l) = l.
Proof.
  revert k. induction l as [|z l IH]; intros [|k] Hk; simpl in *; try done.
  - by injection Hk as ->.
  - f_equal. by apply IH.
Qed.

Lemma rank_deleted_row a k :
  wf a → k < nrows a →
  let a' := Array (nrows a - 1) (ncols a) (delete k (body a)) in
  wf a' ∧ rank_of a' ≤ rank_of a ∧ rank_of a ≤ rank_of a' + 1.
Proof.
  intros Hwf Hk a'. pose proof Hwf as [Hl HR].
  destruct (lookup_lt_is_Some_2 (body a) k) as [y Hy]; [lia|].
  assert (wf a') as Hwf'.
  { split; simpl; [rewrite length_delete by eauto; lia|].
    rewrite delete_take_drop. apply Forall_app.
    split; [by apply Forall_take|by apply Forall_drop]. }
  assert (length y = ncols a) as Hly by (by eapply (Forall_lookup_1 _ _ _ _ HR)).
  pose proof (rank_inserted_row a' k y Hwf' Hly) as H. simpl in H.
  rewrite (inserted_deleted _ _ _ Hy) in H.
  replace (nrows a - 1 + 1) with (nrows a) in H by lia.
  replace (Array (nrows a) (ncols a) (body a)) with a in H by (by destruct a).
  split; [done|]. split; apply H.
Qed.

(** *** Columns *)

Lemma delete_replicate (x : bool) n k :
  k < n → delete k (replicate n x) = replicate (n - 1) x.
Proof.
  revert k. induction n as [|n IH]; intros [|k] H; simpl; try lia.
  - by rewrite Nat.sub_0_r.
  - rewrite IH by lia. destruct n; [lia|]. simpl. by rewrite Nat.sub_0_r.
Qed.

Lemma delete_vxor u v k :
  length u = length v → delete k (vxor u v) = vxor (delete k u) (delete k v).
Proof.
  unfold vxor. revert v k.
  induction u as [|x u IH]; intros [|y v] [|k] H; simpl in *; try done.
  f_equal. apply IH. lia.
Qed.

Lemma delete_determined u v k n :
  length u = n → length v = n → k < n →
  delete k u = delete k v → u.[k] = v.[k] → u = v.
Proof.
  intros Hu Hv Hk Hd Hb. apply row_ext; [lia|]. intros j Hj.
  destruct (decide (j = k)) as [->|Hne]; [done|].
  destruct (decide (j < k)).
  - rewrite <- (list_lookup_delete_lt u k j), <- (list_lookup_delete_lt v k j) by done.
    by rewrite Hd.
  - destruct j as [|j]; [lia|].
    rewrite <- (list_lookup_delete_ge u k j), <- (list_lookup_delete_ge v k j) by lia.
    by rewrite Hd.
Qed.

Lemma span_fmap (f : list bool → list bool) R n n' w :
  Forall (λ r, length r = n) R →
  f (replicate n false) = replicate n' false →
  (∀ u v, length u = n → length v = n → f (vxor u v) = vxor (f u) (f v)) →
  span (f <$> R) n' w ↔ ∃ v, span R n v ∧ w = f v.
Proof.
  intros HR Hzero Hlin. split.
  - induction 1 as [|r' w Hr' _ (v & Hv & ->)].
    + exists (replicate n false). split; [constructor|done].
    + apply list_elem_of_fmap in Hr' as (r & -> & Hr).
      exists (vxor r v). split; [by apply span_add|].
      rewrite Hlin; [done| |by eapply span_length].
      rewrite Forall_forall in HR. by apply HR.
  - intros (v & Hv & ->). induction Hv as [|r v Hr Hv IH].
    + rewrite Hzero. constructor.
    + rewrite Hlin; [|rewrite Forall_forall in HR; by apply HR|by eapply span_length].
      apply span_add; [|done]. by apply list_elem_of_fmap_2.
Qed.

Lemma span_deleted_col R n k w :
  Forall (λ r, length r = n) R → k < n →
  span (delete k <$> R) (n - 1) w ↔ ∃ v, span R n v ∧ w = delete k v.
Proof.
  intros HR Hk. apply span_fmap; [done|by apply delete_replicate|].
  intros u v Hu Hv. apply delete_vxor. congruence.
Qed.

(** One column less: the row space shrinks, to at least half its size. *)
Lemma card_span_deleted_col R n k N N' :
  Forall (λ r, length r = n) R → k < n →
  card_span R n N → card_span (delete k <$> R) (n - 1) N' →
  N' ≤ N ∧ N ≤ 2 * N'.
Proof.
  intros HR Hk HN HN'. split.
  - apply (card_span_le (delete k) R n N (delete k <$> R) (n - 1) N'); [done..|].
    intros w (v & Hv & ->)%span_deleted_col; [eauto|done..].
  - destruct HN as (l & Hnd & Hl & <-), HN' as (l' & Hnd' & Hl' & <-).
    assert (∀ (P : list bool → Prop) `{!∀ x, Decision (P x)},
              (∀ u v, P u → P v → u.[k] = v.[k]) →
              length (filter P l) ≤ length l') as Hpart.
    { intros P ? HP. rewrite <- (length_fmap (delete k)).
      apply submseteq_length, NoDup_submseteq.
      - apply NoDup_fmap_2_strong; [|by apply NoDup_filter].
        intros u v [Pu Hu]%list_elem_of_filter [Pv Hv]%list_elem_of_filter Hd.
        apply (delete_determined u v k n); [| |done|done|by apply HP];
          eapply span_length; try done; by apply Hl.
      - intros w (u & -> & [_ Hu]%list_elem_of_filter)%list_elem_of_fmap.
        apply Hl', span_deleted_col; [done..|]. exists u. split; [|done].
        by apply Hl. }
    rewrite <- (filter_app_complement (λ u, u.[k] = true) l), length_app.
    pose proof (Hpart (λ u, u.[k] = true) _) as H1.
    pose proof (Hpart (λ u, ¬ u.[k] = true) _) as H2.
    assert (length (filter (λ u, u.[k] = true) l) ≤ length l') by (apply H1; congruence).
    assert (length (filter (λ u, ¬ u.[k] = true) l) ≤ length l'); [|lia].
    apply H2. intros u v Hu Hv. destruct u.[k], v.[k]; done.
Qed.

Lemma rank_deleted_col a k :
  wf a → k < ncols a →
  let a' := Array (nrows a) (ncols a - 1) (delete k <$> body a) in
  wf a' ∧ rank_of a' ≤ rank_of a ∧ rank_of a ≤ rank_of a' + 1.
Proof.
  intros Hwf Hk a'. pose proof Hwf as [Hl HR].
  assert (wf a') as Hwf'.
  { split; simpl; [by rewrite length_fmap|].
    apply Forall_fmap. eapply Forall_impl; [exact HR|]. simpl.
    intros r Hr. rewrite length_delete; [lia|]. apply lookup_lt_is_Some. lia. }
  split; [done|]. split.
  - apply rank_of_mono; [done..|]. intros N N' HN HN'.
    by destruct (card_span_deleted_col (body a) (ncols a) k N N' HR Hk HN HN').
  - apply rank_of_mono_double; [done..|]. intros N' N HN' HN.
    by destruct (card_span_deleted_col (body a) (ncols a) k N N' HR Hk HN HN').
Qed.

Lemma wf_inserted_col a k xs :
  wf a → length xs = nrows a → k ≤ ncols a →
  wf (Array (nrows a) (ncols a + 1)
        (zip_with (λ r x, take k r ++ x :: drop k r) (body a) xs)).
Proof.
  intros [Hl HR] Hxs Hk. split; simpl.
  - rewrite length_zip_with. lia.
  - apply Forall_forall. intros r' (r & x & -> & Hr & _)%elem_of_zip_with.
    rewrite Forall_forall in HR. specialize (HR r Hr).
    rewrite length_app. simpl. rewrite length_take, length_drop. lia.
Qed.

Lemma insert_false_replicate n k :
  k ≤ n →
  take k (replicate n false) ++ false :: drop k (replicate n false)
  = replicate (n + 1) false.
Proof.
  revert n. induction k as [|k IH]; intros n Hk.
  - simpl. by rewrite Nat.add_1_r.
  - destruct n as [|n]; [lia|]. simpl. f_equal. apply IH. lia.
Qed.

Lemma insert_false_vxor u v k :
  length u = length v →
  take k (vxor u v) ++ false :: drop k (vxor u v)
  = vxor (take k u ++ false :: drop k u) (take k v ++ false :: drop k v).
Proof.
  unfold vxor. revert u v.
  induction k as [|k IH]; intros [|x u] [|y v] H; simpl in *; try done.
  f_equal. apply IH. lia.
Qed.

Lemma zip_with_replicate_r {X} (f : list bool → bool → X) R (x : bool) :
  zip_with f R (replicate (length R) x) = (λ r, f r x) <$> R.
Proof. induction R as [|r R IH]; simpl; [done|]. by rewrite IH. Qed.

Lemma rank_inserted_col a k xs :
  wf a → length xs = nrows a → k ≤ ncols a →
  let a' := Array (nrows a) (ncols a + 1)
              (zip_with (λ r x, take k r ++ x :: drop k r) (body a) xs) in
  rank_of a ≤ rank_of a' ∧ rank_of a' ≤ rank_of a + 1 ∧
  (xs = replicate (nrows a) false → rank_of a' = rank_of a).
Proof.
  intros Hwf Hxs Hk a'. pose proof (wf_inserted_col a k xs Hwf Hxs Hk) as Hwf'.
  pose proof (rank_deleted_col a' k Hwf') as H. simpl in H.
  pose proof Hwf as [Hl HR].
  rewrite delete_inserted_cols in H; [| |lia].
  2:{ eapply Forall_impl; [exact HR|]. simpl. lia. }
  replace (ncols a + 1 - 1) with (ncols a) in H by lia.
  replace (Array (nrows a) (ncols a) (body a)) with a in H by (by destruct a).
  destruct H as (_ & H1 & H2); [lia|]. split; [done|]. split; [done|].
  intros ->. symmetry. apply card_transfer_rank_of; [done..|].
  intros N HN. subst a'. simpl. rewrite <- Hl, zip_with_replicate_r.
  apply (card_span_image (λ r, take k r ++ false :: drop k r)
           (body a) (ncols a) (ncols a + 1) N); try done.
  - intros v Hv. rewrite length_app. simpl. rewrite length_take, length_drop. lia.
  - by apply insert_false_replicate.
  - intros u v Hu Hv. apply insert_false_vxor. congruence.
  - intros u v Hu Hv Hf.
    rewrite <- (delete_inserted u k false), <- (delete_inserted v k false) by lia.
    by rewrite Hf.
Qed.

End edit_ranks.

Section edit_ranks_run.
Implicit Types (a : ndarray) (h : heap) (m : MatGF2) (l : loc).

Lemma insert_index_range n (z : Z) :
  (- Z.of_nat n ≤ z ≤ Z.of_nat n)%Z → ∃ p, numpy.insert_index n z = Some p ∧ p ≤ n.
Proof.
  intros H. unfold numpy.insert_index. destruct (decide (0 ≤ z ≤ Z.of_nat n)%Z).
  - eexists. split; [done|]. lia.
  - rewrite decide_True by lia. eexists. split; [done|]. lia.
Qed.

Lemma norm_index_range n (z : Z) :
  (- Z.of_nat n ≤ z < Z.of_nat n)%Z → ∃ k, norm_index n z = Some k ∧ k < n.
Proof.
  intros H. unfold norm_index. destruct (decide (0 ≤ z < Z.of_nat n)%Z).
  - eexists. split; [done|]. lia.
  - rewrite decide_True by lia. eexists. split; [done|]. lia.
Qed.

(** The row or column that [add_row] and [add_col] insert: the elements of
    [array_to_add], or zeros. *)
Lemma reshape_row_default v c :
  match v with Some x => wf x ∧ nrows x * ncols x = c | None => True end →
  ∃ flat, numpy.reshape_row (default (np.zeros 1 c) v) c = Some (Array 1 c [flat]) ∧
          length flat = c ∧ (v = None → flat = replicate c false).
Proof.
  destruct v as [x|]; simpl.
  - intros [Hwf Hs]. exists (mjoin (body x)). rewrite reshape_row_size by done.
    split; [done|]. split; [|done]. by rewrite length_mjoin_wf.
  - intros _. exists (replicate c false). unfold numpy.reshape_row. simpl.
    rewrite app_nil_r, length_replicate, decide_True by done. done.
Qed.

Lemma run_add_row_gen h m l a v row :
  objs h !! m = Some l → arrs h !! l = Some a →
  match v with Some x => wf x ∧ nrows x * ncols x = ncols a | None => True end →
  match row with
  | Some z => (- Z.of_nat (nrows a) ≤ z ≤ Z.of_nat (nrows a))%Z
  | None => True
  end →
  ∃ p flat, p ≤ nrows a ∧ length flat = ncols a ∧
    (v = None → flat = replicate (ncols a) false) ∧
    add_row m v row h =
    Ok (tt, rebound h m (Array (nrows a + 1) (ncols a)
                           (take p (body a) ++ flat :: drop p (body a)))).
Proof.
  intros Ho Ha Hv Hrow.
  destruct (reshape_row_default v (ncols a) Hv) as (flat & Hre & Hlen & Hz).
  destruct (insert_index_range (nrows a) (default (Z.of_nat (nrows a)) row))
    as (p & Hp & Hple); [destruct row; simpl; lia|].
  exists p, flat. do 3 (split; [done|]).
  erewrite run_add_row by done. rewrite Hre. unfold numpy.insert_axis0.
  by rewrite Hp.
Qed.

Lemma run_add_col_gen h m l a v col :
  objs h !! m = Some l → arrs h !! l = Some a →
  match v with Some x => wf x ∧ nrows x * ncols x = nrows a | None => True end →
  match col with
  | Some z => (- Z.of_nat (ncols a) ≤ z ≤ Z.of_nat (ncols a))%Z
  | None => True
  end →
  ∃ p flat, p ≤ ncols a ∧ length flat = nrows a ∧
    (v = None → flat = replicate (nrows a) false) ∧
    add_col m v col h =
    Ok (tt, rebound h m (Array (nrows a) (ncols a + 1)
                           (zip_with (λ r x, take p r ++ x :: drop p r)
                              (body a) flat))).
Proof.
  intros Ho Ha Hv Hcol.
  destruct (reshape_row_default v (nrows a) Hv) as (flat & Hre & Hlen & Hz).
  destruct (insert_index_range (ncols a) (default (Z.of_nat (ncols a)) col))
    as (p & Hp & Hple); [destruct col; simpl; lia|].
  exists p, flat. do 3 (split; [done|]).
  erewrite run_add_col by done. rewrite Hre. unfold numpy.insert_axis1.
  rewrite Hp. simpl. by rewrite app_nil_r.
Qed.

End edit_ranks_run.

(** Adding a row never lowers the rank and raises it by at most one; a
    row of zeros (no [array_to_add]) keeps it. *)
Theorem add_row_rank h m l a v row :
  objs h !! m = Some l → arrs h !! l = Some a → wf a →
  match v with Some x => wf x ∧ nrows x * ncols x = ncols a | None => True end →
  match row with
  | Some z => (- Z.of_nat (nrows a) ≤ z ≤ Z.of_nat (nrows a))%Z
  | None => True
  end →
  ∃ r r', eval (get_rank m) h = Ok r ∧
          eval (add_row m v row;; get_rank m) h = Ok r' ∧
          r ≤ r' ∧ r' ≤ r + 1 ∧ (v = None → r' = r).
Proof.
  intros Ho Ha Hwf Hv Hrow.
  destruct (run_add_row_gen h m l a v row Ho Ha Hv Hrow)
    as (p & flat & Hp & Hlen & Hz & Hrun).
  destruct (rebound_data h m l
              (Array (nrows a + 1) (ncols a)
                 (take p (body a) ++ flat :: drop p (body a))) Ho) as [Ho1 Ha1].
  pose proof (rank_inserted_row a p flat Hwf Hlen) as (H1 & H2 & H3).
  exists (rank_of a), (rank_of (Array (nrows a + 1) (ncols a)
                                  (take p (body a) ++ flat :: drop p (body a)))).
  split; [|split; [|auto]].
  - unfold eval. by destruct (run_get_rank h m l a Ho Ha Hwf) as (h' & -> & _).
  - eapply eval_then_get_rank; [exact Hrun|exact Ho1|exact Ha1|].
    by apply wf_inserted_row.
Qed.

Lemma add_row_rank_witness :
  ∃ r r', eval (get_rank 0) (h0 A3) = Ok r ∧
          eval (add_row 0 None (Some (-2)%Z);; get_rank 0) (h0 A3) = Ok r' ∧
          r ≤ r' ∧ r' ≤ r + 1 ∧ (@None ndarray = None → r' = r).
Proof.
  apply (add_row_rank (h0 A3) 0 0 A3 None (Some (-2)%Z));
    [reflexivity | reflexivity | apply wf_iff; reflexivity | done | simpl; lia].
Defined.

(** Removing a row never raises the rank and lowers it by at most one. *)
Theorem remove_row_rank h m l a (z : Z) :
  objs h !! m = Some l → arrs h !! l = Some a → wf a →
  (- Z.of_nat (nrows a) ≤ z < Z.of_nat (nrows a))%Z →
  ∃ r r', eval (get_rank m) h = Ok r ∧
          eval (remove_row m z;; get_rank m) h = Ok r' ∧
          r' ≤ r ∧ r ≤ r' + 1.
Proof.
  intros Ho Ha Hwf Hz.
  destruct (norm_index_range (nrows a) z Hz) as (k & Hk & Hlt).
  destruct (rebound_data h m l
              (Array (nrows a - 1) (ncols a) (delete k (body a))) Ho) as [Ho1 Ha1].
  pose proof (rank_deleted_row a k Hwf Hlt) as (Hwf' & H1 & H2).
  exists (rank_of a), (rank_of (Array (nrows a - 1) (ncols a) (delete k (body a)))).
  split; [|split; [|auto]].
  - unfold eval. by destruct (run_get_rank h m l a Ho Ha Hwf) as (h' & -> & _).
  - eapply eval_then_get_rank; [|exact Ho1|exact Ha1|done].
    erewrite run_remove_row by done. unfold numpy.delete_axis0. by rewrite Hk.
Qed.

Lemma remove_row_rank_witness :
  ∃ r r', eval (get_rank 0) (h0 A3) = Ok r ∧
          eval (remove_row 0 (-1);; get_rank 0) (h0 A3) = Ok r' ∧
          r' ≤ r ∧ r ≤ r' + 1.
Proof.
  apply (remove_row_rank (h0 A3) 0 0 A3 (-1));
    [reflexivity | reflexivity | apply wf_iff; reflexivity | simpl; lia].
Defined.

(** Adding a column never lowers the rank and raises it by at most one; a
    column of zeros keeps it. *)
Theorem add_col_rank h m l a v col :
  objs h !! m = Some l → arrs h !! l = Some a → wf a →
  match v with Some x => wf x ∧ nrows x * ncols x = nrows a | None => True end →
  match col with
  | Some z => (- Z.of_nat (ncols a) ≤ z ≤ Z.of_nat (ncols a))%Z
  | None => True
  end →
  ∃ r r', eval (get_rank m) h = Ok r ∧
          eval (add_col m v col;; get_rank m) h = Ok r' ∧
          r ≤ r' ∧ r' ≤ r + 1 ∧ (v = None → r' = r).
Proof.
  intros Ho Ha Hwf Hv Hcol.
  destruct (run_add_col_gen h m l a v col Ho Ha Hv Hcol)
    as (p & flat & Hp & Hlen & Hz & Hrun).
  destruct (rebound_data h m l
              (Array (nrows a) (ncols a + 1)
                 (zip_with (λ r x, take p r ++ x :: drop p r) (body a) flat)) Ho)
    as [Ho1 Ha1].
  pose proof (rank_inserted_col a p flat Hwf Hlen Hp) as (H1 & H2 & H3).
  exists (rank_of a),
    (rank_of (Array (nrows a) (ncols a + 1)
                (zip_with (λ r x, take p r ++ x :: drop p r) (body a) flat))).
  split; [|split; [|auto]].
  - unfold eval. by destruct (run_get_rank h m l a Ho Ha Hwf) as (h' & -> & _).
  - eapply eval_then_get_rank; [exact Hrun|exact Ho1|exact Ha1|].
    by apply wf_inserted_col.
Qed.

Lemma add_col_rank_witness :
  ∃ r r', eval (get_rank 0) (h0 A3) = Ok r ∧
          eval (add_col 0 (Some b3) None;; get_rank 0) (h0 A3) = Ok r' ∧
          r ≤ r' ∧ r' ≤ r + 1 ∧ (Some b3 = None → r' = r).
Proof.
  apply (add_col_rank (h0 A3) 0 0 A3 (Some b3) None);
    [reflexivity | reflexivity | apply wf_iff; reflexivity
    | split; [apply wf_iff; reflexivity|reflexivity] | done].
Defined.

(** Removing a column never raises the rank and lowers it by at most
    one. *)
Theorem remove_col_rank h m l a (z : Z) :
  objs h !! m = Some l → arrs h !! l = Some a → wf a →
  (- Z.of_nat (ncols a) ≤ z < Z.of_nat (ncols a))%Z →
  ∃ r r', eval (get_rank m) h = Ok r ∧
          eval (remove_col m z;; get_rank m) h = Ok r' ∧
          r' ≤ r ∧ r ≤ r' + 1.
Proof.
  intros Ho Ha Hwf Hz.
  destruct (norm_index_range (ncols a) z Hz) as (k & Hk & Hlt).
  destruct (rebound_data h m l
              (Array (nrows a) (ncols a - 1) (delete k <$> body a)) Ho) as [Ho1 Ha1].
  pose proof (rank_deleted_col a k Hwf Hlt) as (Hwf' & H1 & H2).
  exists (rank_of a), (rank_of (Array (nrows a) (ncols a - 1) (delete k <$> body a))).
  split; [|split; [|auto]].
  - unfold eval. by destruct (run_get_rank h m l a Ho Ha Hwf) as (h' & -> & _).
  - eapply eval_then_get_rank; [|exact Ho1|exact Ha1|done].
    erewrite run_remove_col by done. unfold numpy.delete_axis1. by rewrite Hk.
Qed.

Lemma remove_col_rank_witness :
  ∃ r r', eval (get_rank 0) (h0 A3) = Ok r ∧
          eval (remove_col 0 0;; get_rank 0) (h0 A3) = Ok r' ∧
          r' ≤ r ∧ r ≤ r' + 1.
Proof.
  apply (remove_col_rank (h0 A3) 0 0 A3 0);
    [reflexivity | reflexivity | apply wf_iff; reflexivity | simpl; lia].
Defined.

(** ** Joined matrices and the rank *)

Section joined.
Implicit Types (a b : ndarray) (u v w : list bool) (R : list (list bool)) (n : nat).

Lemma span_app R R' n w :
  Forall (λ r, length r = n) R → Forall (λ r, length r = n) R' →
  span (R ++ R') n w ↔ ∃ u w', span R n u ∧ span R' n w' ∧ w = vxor u w'.
Proof.
  intros HR HR'. split.
  - induction 1 as [|r w Hr Hw (u & w' & Hu & Hw' & ->)].
    { exists (replicate n false), (replicate n false).
      split; [constructor|]. split; [constructor|].
      by rewrite vxor_zeros_l by (by rewrite length_replicate). }
    pose proof (span_length R n u HR Hu) as Hlu.
    pose proof (span_length R' n w' HR' Hw') as Hlw.
    apply elem_of_app in Hr as [Hr|Hr].
    + assert (length r = n) as Hlr by (rewrite Forall_forall in HR; by apply HR).
      exists (vxor r u), w'. split; [by apply span_add|]. split; [done|].
      apply vxor_assoc; congruence.
    + assert (length r = n) as Hlr by (rewrite Forall_forall in HR'; by apply HR').
      exists u, (vxor r w'). split; [done|]. split; [by apply span_add|].
      rewrite !vxor_assoc by congruence. f_equal. apply vxor_comm. congruence.
  - intros (u & w' & Hu & Hw' & ->).
    assert (Forall (λ r, length r = n) (R ++ R')) as HRR by (by apply Forall_app).
    apply span_vxor; [done| |].
    + revert Hu. apply span_least; [done|]. intros r Hr.
      apply span_row; [done|]. apply elem_of_app. by left.
    + revert Hw'. apply span_least; [done|]. intros r Hr.
      apply span_row; [done|]. apply elem_of_app. by right.
Qed.

(** The rows of two matrices together. *)
Lemma card_span_app R R' n N N' N'' :
  Forall (λ r, length r = n) R → Forall (λ r, length r = n) R' →
  card_span R n N → card_span R' n N' → card_span (R ++ R') n N'' →
  N ≤ N'' ∧ N' ≤ N'' ∧ N'' ≤ N * N'.
Proof.
  intros HR HR' HN HN' HN''.
  assert (Forall (λ r, length r = n) (R ++ R')) as HRR by (by apply Forall_app).
  split; [|split].
  - apply (card_span_le id (R ++ R') n N'' R n N); [done..|].
    intros w Hw. exists w. split; [|done]. revert Hw.
    apply span_least; [done|]. intros r Hr.
    apply span_row; [done|]. apply elem_of_app. by left.
  - apply (card_span_le id (R ++ R') n N'' R' n N'); [done..|].
    intros w Hw. exists w. split; [|done]. revert Hw.
    apply span_least; [done|]. intros r Hr.
    apply span_row; [done|]. apply elem_of_app. by right.
  - destruct HN as (l & Hnd & Hl & <-), HN' as (l' & Hnd' & Hl' & <-),
      HN'' as (l'' & Hnd'' & Hl'' & <-).
    rewrite <- length_prod, <- list_cprod_list_prod.
    rewrite <- (length_fmap (λ p, vxor p.1 p.2)).
    apply submseteq_length, NoDup_submseteq; [done|].
    intros w Hw. apply Hl'', span_app in Hw as (u & w' & Hu & Hw' & ->); [|done..].
    apply list_elem_of_fmap. exists (u, w'). split; [done|].
    apply list_elem_of_cprod. split; simpl; [by apply Hl|by apply Hl'].
Qed.

Lemma take_zip_app R R' n :
  Forall (λ r, length r = n) R → length R = length R' →
  take n <$> zip_with app R R' = R.
Proof.
  intros HR. revert R'. induction HR as [|r R Hr HR IH]; intros [|r' R'] Hl;
    simpl in *; try done.
  rewrite take_app_length' by done. f_equal. apply IH. lia.
Qed.

Lemma drop_zip_app R R' n :
  Forall (λ r, length r = n) R → length R = length R' →
  drop n <$> zip_with app R R' = R'.
Proof.
  intros HR. revert R'. induction HR as [|r R Hr HR IH]; intros [|r' R'] Hl;
    simpl in *; try done.
  rewrite drop_app_length' by done. f_equal. apply IH. lia.
Qed.

Lemma Forall_zip_app R R' n n' :
  Forall (λ r, length r = n) R → Forall (λ r, length r = n') R' →
  Forall (λ r, length r = n + n') (zip_with app R R').
Proof.
  intros HR. revert R'. induction HR as [|r R Hr HR IH]; intros [|r' R'] HR';
    simpl; try done.
  apply Forall_cons in HR' as [Hr' HR']. apply Forall_cons.
  split; [rewrite length_app; lia|by apply IH].
Qed.

(** The columns of two matrices side by side. *)
Lemma card_span_zip_app R R' n n' N N' N'' :
  Forall (λ r, length r = n) R → Forall (λ r, length r = n') R' →
  length R = length R' →
  card_span R n N → card_span R' n' N' → card_span (zip_with app R R') (n + n') N'' →
  N ≤ N'' ∧ N' ≤ N'' ∧ N'' ≤ N * N'.
Proof.
  intros HR HR' Hlen HN HN' HN''.
  pose proof (Forall_zip_app R R' n n' HR HR') as HZ.
  assert (∀ w, span R n w ↔
               ∃ v, span (zip_with app R R') (n + n') v ∧ w = take n v) as Hleft.
  { intros w. rewrite <- (take_zip_app R R' n HR Hlen) at 1.
    apply span_fmap; [done| |].
    - rewrite take_replicate. f_equal. lia.
    - intros u v _ _. unfold vxor. apply zip_with_take. }
  assert (∀ w, span R' n' w ↔
               ∃ v, span (zip_with app R R') (n + n') v ∧ w = drop n v) as Hright.
  { intros w. rewrite <- (drop_zip_app R R' n HR Hlen) at 1.
    apply span_fmap; [done| |].
    - rewrite drop_replicate. f_equal. lia.
    - intros u v _ _. unfold vxor. apply zip_with_drop. }
  split; [|split].
  - apply (card_span_le (take n) (zip_with app R R') (n + n') N'' R n N); [done..|].
    intros w (v & Hv & ->)%Hleft. eauto.
  - apply (card_span_le (drop n) (zip_with app R R') (n + n') N'' R' n' N'); [done..|].
    intros w (v & Hv & ->)%Hright. eauto.
  - destruct HN as (l & Hnd & Hl & <-), HN' as (l' & Hnd' & Hl' & <-),
      HN'' as (l'' & Hnd'' & Hl'' & <-).
    rewrite <- length_prod, <- list_cprod_list_prod.
    rewrite <- (length_fmap (λ v, (take n v, drop n v)) l'').
    apply submseteq_length, NoDup_submseteq.
    + apply NoDup_fmap_2_strong; [|done]. intros u v _ _ [= H1 H2].
      by rewrite <- (take_drop n u), <- (take_drop n v), H1, H2.
    + intros p (v & -> & Hv)%list_elem_of_fmap. apply Hl'' in Hv.
      apply list_elem_of_cprod. simpl. split.
      * apply Hl, Hleft. eauto.
      * apply Hl', Hright. eauto.
Qed.

Lemma rank_of_joined a b c :
  wf a → wf b → wf c →
  (∀ N N' N'', card_span (body a) (ncols a) N → card_span (body b) (ncols b) N' →
               card_span (body c) (ncols c) N'' →
               N ≤ N'' ∧ N' ≤ N'' ∧ N'' ≤ N * N') →
  rank_of a ≤ rank_of c ∧ rank_of b ≤ rank_of c ∧ rank_of c ≤ rank_of a + rank_of b.
Proof.
  intros Hwfa Hwfb Hwfc H.
  destruct (H _ _ _ (rank_of_card a Hwfa) (rank_of_card b Hwfb) (rank_of_card c Hwfc))
    as (H1 & H2 & H3).
  rewrite <- Nat.pow_add_r in H3.
  repeat split; by apply (Nat.pow_le_mono_r_iff 2); [lia|].
Qed.

(** [np.concatenate] on two arrays that fit. *)
Lemma concatenate_axis0 a b (axis : Z) :
  (axis = 0 ∨ axis = -2)%Z → ncols b = ncols a →
  numpy.concatenate a b axis
  = Some (Array (nrows a + nrows b) (ncols a) (body a ++ body b)).
Proof.
  intros Hax Hc. unfold numpy.concatenate.
  assert (norm_index 2 axis = Some 0) as ->.
  { destruct Hax as [-> | ->]; reflexivity. }
  simpl. by rewrite decide_True.
Qed.

Lemma concatenate_axis1 a b (axis : Z) :
  (axis = 1 ∨ axis = -1)%Z → nrows b = nrows a →
  numpy.concatenate a b axis
  = Some (Array (nrows a) (ncols a + ncols b) (zip_with app (body a) (body b))).
Proof.
  intros Hax Hc. unfold numpy.concatenate.
  assert (norm_index 2 axis = Some 1) as ->.
  { destruct Hax as [-> | ->]; reflexivity. }
  simpl. by rewrite decide_True.
Qed.

Lemma rank_concatenate a b (axis : Z) :
  wf a → wf b →
  ((axis = 0 ∨ axis = -2)%Z ∧ ncols b = ncols a) ∨
  ((axis = 1 ∨ axis = -1)%Z ∧ nrows b = nrows a) →
  ∃ c, numpy.concatenate a b axis = Some c ∧ wf c ∧
       rank_of a ≤ rank_of c ∧ rank_of b ≤ rank_of c ∧
       rank_of c ≤ rank_of a + rank_of b.
Proof.
  intros Hwfa Hwfb [[Hax Hc]|[Hax Hr]].
  - rewrite concatenate_axis0 by done. eexists. split; [done|].
    pose proof Hwfa as [Hla HRa]. pose proof Hwfb as [Hlb HRb]. rewrite Hc in HRb.
    assert (wf (Array (nrows a + nrows b) (ncols a) (body a ++ body b))) as Hwfc.
    { split; simpl; [rewrite length_app; lia|by apply Forall_app]. }
    split; [done|]. apply rank_of_joined; [done..|].
    intros N N' N''. rewrite Hc. simpl. by apply card_span_app.
  - rewrite concatenate_axis1 by done. eexists. split; [done|].
    pose proof Hwfa as [Hla HRa]. pose proof Hwfb as [Hlb HRb].
    assert (wf (Array (nrows a) (ncols a + ncols b) (zip_with app (body a) (body b))))
      as Hwfc.
    { split; simpl; [rewrite length_zip_with; lia|by apply Forall_zip_app]. }
    split; [done|]. apply rank_of_joined; [done..|].
    intros N N' N''. simpl. apply card_span_zip_app; [done..|lia].
Qed.

End joined.

(** The rank of a joined matrix is at least the rank of each part and at
    most their sum, for rows ([axis=0]) and for columns ([axis=1]). *)
Theorem concatenate_rank h m l a mb lb b (axis : Z) :
  objs h !! m = Some l → arrs h !! l = Some a → wf a →
  objs h !! mb = Some lb → arrs h !! lb = Some b → wf b →
  ((axis = 0 ∨ axis = -2)%Z ∧ ncols b = ncols a) ∨
  ((axis = 1 ∨ axis = -1)%Z ∧ nrows b = nrows a) →
  ∃ ra rb r, eval (get_rank m) h = Ok ra ∧ eval (get_rank mb) h = Ok rb ∧
             eval (concatenate m mb axis;; get_rank m) h = Ok r ∧
             ra ≤ r ∧ rb ≤ r ∧ r ≤ ra + rb.
Proof.
  intros Ho Ha Hwfa Hob Hb Hwfb Hax.
  destruct (rank_concatenate a b axis Hwfa Hwfb Hax) as (c & Hc & Hwfc & H1 & H2 & H3).
  destruct (rebound_data h m l c Ho) as [Ho1 Ha1].
  exists (rank_of a), (rank_of b), (rank_of c).
  split; [|split; [|split; [|auto]]].
  - unfold eval. by destruct (run_get_rank h m l a Ho Ha Hwfa) as (h' & -> & _).
  - unfold eval. by destruct (run_get_rank h mb lb b Hob Hb Hwfb) as (h' & -> & _).
  - eapply eval_then_get_rank; [|exact Ho1|exact Ha1|done].
    erewrite run_concatenate by done. by rewrite Hc.
Qed.

Lemma concatenate_rank_witness :
  ∃ ra rb r, eval (get_rank 0) (Heap [0; 1] [A3; b3]) = Ok ra ∧
             eval (get_rank 1) (Heap [0; 1] [A3; b3]) = Ok rb ∧
             eval (concatenate 0 1 1;; get_rank 0) (Heap [0; 1] [A3; b3]) = Ok r ∧
             ra ≤ r ∧ rb ≤ r ∧ r ≤ ra + rb.
Proof.
  apply (concatenate_rank (Heap [0; 1] [A3; b3]) 0 0 A3 1 1 b3 1);
    [reflexivity | reflexivity | apply wf_iff; reflexivity
    | reflexivity | reflexivity | apply wf_iff; reflexivity
    | right; split; [by left|reflexivity]].
Defined.

Section joined_one.

Lemma zip_app_one (R R' : list (list bool)) c :
  Forall (λ r, length r = c) R → Forall (λ r, length r = 1) R' →
  zip_with app R R' = zip_with (λ r x, take c r ++ x :: drop c r) R (mjoin R').
Proof.
  intros HR. revert R'. induction HR as [|r R Hr HR IH]; intros R' HR'; [done|].
  destruct HR' as [|r' R' Hr' HR']; [done|].
  destruct r' as [|x [|??]]; try done. simpl.
  rewrite take_ge, drop_ge by lia. f_equal. by apply IH.
Qed.

End joined_one.

(** Joining with a matrix of one column is [add_col] with the array of
    that matrix. *)
Theorem concatenate_one_col_is_add_col h m l a mb lb b :
  objs h !! m = Some l → arrs h !! l = Some a → wf a →
  objs h !! mb = Some lb → arrs h !! lb = Some b → wf b →
  nrows b = nrows a → ncols b = 1 →
  ∃ a', eval (concatenate m mb 1;; data_of m) h = Ok a' ∧
        eval (add_col m (Some b) None;; data_of m) h = Ok a'.
Proof.
  intros Ho Ha Hwfa Hob Hb Hwfb Hr Hc. pose proof Hwfa as [Hla HRa].
  pose proof Hwfb as [Hlb HRb]. eexists. split.
  - eapply eval_one_step; [done|]. erewrite run_concatenate by done.
    rewrite concatenate_axis1 by auto. done.
  - eapply eval_one_step; [done|].
    erewrite run_add_col_at; [|done..|lia|by apply insert_index_nat].
    rewrite Hc in *. by rewrite <- (zip_app_one _ _ (ncols a)).
Qed.

Lemma concatenate_one_col_is_add_col_witness :
  ∃ a', eval (concatenate 0 1 1;; data_of 0) (Heap [0; 1] [A3; b3]) = Ok a' ∧
        eval (add_col 0 (Some b3) None;; data_of 0) (Heap [0; 1] [A3; b3]) = Ok a'.
Proof.
  apply (concatenate_one_col_is_add_col (Heap [0; 1] [A3; b3]) 0 0 A3 1 1 b3);
    [reflexivity | reflexivity | apply wf_iff; reflexivity
    | reflexivity | reflexivity | apply wf_iff; reflexivity
    | reflexivity | reflexivity].
Defined.

(** Joining along the rows with a matrix of one row is [add_row] with the
    array of that matrix. *)
Theorem concatenate_one_row_is_add_row h m l a mb lb b :
  objs h !! m = Some l → arrs h !! l = Some a → wf a →
  objs h !! mb = Some lb → arrs h !! lb = Some b → wf b →
  ncols b = ncols a → nrows b = 1 →
  ∃ a', eval (concatenate m mb 0;; data_of m) h = Ok a' ∧
        eval (add_row m (Some b) None;; data_of m) h = Ok a'.
Proof.
  intros Ho Ha Hwfa Hob Hb Hwfb Hc Hr. pose proof Hwfa as [Hla HRa].
  pose proof Hwfb as [Hlb HRb]. eexists. split.
  - eapply eval_one_step; [done|]. erewrite run_concatenate by done.
    rewrite concatenate_axis0 by auto. done.
  - eapply eval_one_step; [done|].
    erewrite run_add_row_at; [|done..|lia|by apply insert_index_nat].
    rewrite Hr. rewrite <- Hla, take_ge, drop_ge by lia.
    destruct (body b) as [|r [|??]]; simpl in *; try lia.
    by rewrite app_nil_r.
Qed.

Lemma concatenate_one_row_is_add_row_witness :
  ∃ a', eval (concatenate 0 1 0;; data_of 0)
          (Heap [0; 1] [A2; Array 1 2 [[true; false]]]) = Ok a' ∧
        eval (add_row 0 (Some (Array 1 2 [[true; false]])) None;; data_of 0)
          (Heap [0; 1] [A2; Array 1 2 [[true; false]]]) = Ok a'.
Proof.
  apply (concatenate_one_row_is_add_row
           (Heap [0; 1] [A2; Array 1 2 [[true; false]]]) 0 0 A2 1 1
           (Array 1 2 [[true; false]]));
    [reflexivity | reflexivity | apply wf_iff; reflexivity
    | reflexivity | reflexivity | apply wf_iff; reflexivity
    | reflexivity | reflexivity].
Defined.

(** * Elimination and the solutions of the system *)

(** ** Sums and reorderings *)

Section sums.
Implicit Types (g : nat → bool) (cp : list nat) (a b : ndarray) (x v : list bool).

Lemma xsum_foldr g n : xsum g n = foldr xorb false (g <$> seq 0 n).
Proof.
  revert g. induction n as [|n IH]; intros g; [done|].
  rewrite xsum_S_l, IH. simpl. f_equal.
  rewrite <- fmap_S_seq, <- list_fmap_compose. done.
Qed.

Lemma foldr_xorb_perm (l l' : list bool) :
  l ≡ₚ l' → foldr xorb false l = foldr xorb false l'.
Proof.
  induction 1 as [|x l l' _ IH|x y l|l1 l2 l3 _ IH1 _ IH2]; simpl.
  - done.
  - by rewrite IH.
  - by destruct x, y, (foldr xorb false l).
  - congruence.
Qed.

Lemma at_index_fmap cp c :
  length cp = c → (λ k, at_index cp k) <$> seq 0 c = cp.
Proof.
  intros <-. apply list_eq. intros k. rewrite list_lookup_fmap.
  destruct (decide (k < length cp)) as [Hk|Hk].
  - rewrite lookup_seq_lt by done. simpl. unfold at_index.
    by destruct (lookup_lt_is_Some_2 cp k Hk) as [y ->].
  - rewrite lookup_seq_ge by lia. by rewrite lookup_ge_None_2 by lia.
Qed.

(** A sum may be taken in the order of a permutation. *)
Lemma xsum_perm g cp c :
  cp ≡ₚ seq 0 c → xsum (λ k, g (at_index cp k)) c = xsum g c.
Proof.
  intros Hp. rewrite !xsum_foldr.
  rewrite (list_fmap_compose (at_index cp) g).
  rewrite at_index_fmap by (by rewrite Hp, length_seq).
  apply foldr_xorb_perm. by rewrite Hp.
Qed.


Lemma at_index_seq c k : k < c → at_index (seq 0 c) k = k.
Proof. intros Hk. unfold at_index. by rewrite lookup_seq_lt. Qed.

Lemma wf_column_vector v : wf (column_vector v).
Proof.
  split; simpl; [by rewrite length_fmap|].
  apply Forall_fmap, Forall_forall. by intros.
Qed.

Lemma entry_column_vector v k : entry (column_vector v) k 0 = v.[k].
Proof.
  unfold entry, item. simpl. rewrite list_lookup_fmap.
  by destruct (v !! k).
Qed.

(** [A @ x == v] equation by equation. *)
Lemma matmul_column_vector a x v :
  wf a → length x = ncols a → length v = nrows a →
  np.matmul a (column_vector x) = Some (column_vector v) ↔
  ∀ i, i < nrows a → xsum (λ k, entry a i k && x.[k]) (ncols a) = v.[i].
Proof.
  intros Hwf Hx Hv.
  destruct (matmul_spec a (column_vector x) Hwf (wf_column_vector x))
    as (c & Hc & Hwfc & Hrc & Hcc & Hec); [done|].
  rewrite Hc. split.
  - intros [= ->] i Hi. rewrite <- entry_column_vector, Hec by (simpl; lia).
    apply xsum_ext. intros k Hk. by rewrite entry_column_vector.
  - intros H. f_equal. apply array_ext; [done|apply wf_column_vector|simpl; lia|done|].
    intros i j Hi Hj. simpl in Hcc. assert (j = 0) as -> by lia.
    rewrite Hec, entry_column_vector by (simpl; lia). rewrite <- H by lia.
    apply xsum_ext. intros k Hk. by rewrite entry_column_vector.
Qed.

End sums.

(** ** The steps of the elimination keep the solutions *)

Section steps.
Implicit Types (a b : ndarray) (cp : list nat) (x : list bool).

Lemma holds_swap_rows a bb a' bb' cp x j r1 r2 :
  nrows a' = nrows a → ncols a' = ncols a → r1 < nrows a → r2 < nrows a →
  (∀ q, body a' !! q = body a !! tr r1 r2 q) →
  (∀ q, body bb' !! q = body bb !! tr r1 r2 q) →
  holds a' bb' cp x j ↔ holds a bb cp x j.
Proof.
  intros Hr Hc H1 H2 Ha Hb. unfold holds. rewrite Hr, Hc. split; intros H i Hi.
  - specialize (H (tr r1 r2 i) (tr_lt _ _ _ _ H1 H2 Hi)).
    rewrite (entry_lookup_eq bb bb' _ (tr r1 r2 (tr r1 r2 i))) in H by apply Hb.
    rewrite tr_tr in H. rewrite <- H. apply xsum_ext. intros k Hk.
    rewrite (entry_lookup_eq a a' _ (tr r1 r2 (tr r1 r2 i))) by apply Ha.
    by rewrite tr_tr.
  - rewrite (entry_lookup_eq bb bb' _ (tr r1 r2 i)) by apply Hb.
    rewrite <- (H (tr r1 r2 i)) by (by apply tr_lt).
    apply xsum_ext. intros k Hk.
    by rewrite (entry_lookup_eq a a' _ (tr r1 r2 i)) by apply Ha.
Qed.

Lemma holds_swap_cols a bb a' cp cp' x j c1 c2 :
  nrows a' = nrows a → ncols a' = ncols a →
  (∀ i k, entry a' i k = entry a i (tr c1 c2 k)) →
  (∀ k, k < ncols a → at_index cp' k = tr c1 c2 (at_index cp k)) →
  holds a' bb cp' x j ↔ holds a bb cp x j.
Proof.
  intros Hr Hc Ha Hcp. unfold holds. rewrite Hr, Hc.
  assert (∀ i, xsum (λ k, entry a' i (at_index cp' k) && x.[k]) (ncols a)
               = xsum (λ k, entry a i (at_index cp k) && x.[k]) (ncols a)) as E.
  { intros i. apply xsum_ext. intros k Hk. by rewrite Ha, Hcp, tr_tr. }
  split; intros H i Hi; [rewrite <- E|rewrite E]; by apply H.
Qed.

Lemma holds_iadd a bb a' bb' cp x j i0 k0 :
  nrows a' = nrows a → ncols a' = ncols a →
  i0 ≠ k0 → i0 < nrows a → k0 < nrows a →
  (∀ i q, entry a' i q = if decide (i = i0) then xorb (entry a i0 q) (entry a k0 q)
                          else entry a i q) →
  (∀ i q, entry bb' i q = if decide (i = i0) then xorb (entry bb i0 q) (entry bb k0 q)
                           else entry bb i q) →
  holds a' bb' cp x j ↔ holds a bb cp x j.
Proof.
  intros Hr Hc Hne Hi0 Hk0 Ha Hb. unfold holds. rewrite Hr, Hc.
  assert (xsum (λ k, entry a' i0 (at_index cp k) && x.[k]) (ncols a)
          = xorb (xsum (λ k, entry a i0 (at_index cp k) && x.[k]) (ncols a))
                 (xsum (λ k, entry a k0 (at_index cp k) && x.[k]) (ncols a))) as E0.
  { rewrite <- xsum_xorb. apply xsum_ext. intros k Hk. rewrite Ha.
    rewrite decide_True by done.
    by destruct (entry a i0 _), (entry a k0 _), (x.[k]). }
  assert (∀ i, i ≠ i0 →
            xsum (λ k, entry a' i (at_index cp k) && x.[k]) (ncols a)
            = xsum (λ k, entry a i (at_index cp k) && x.[k]) (ncols a)) as E1.
  { intros i Hi. apply xsum_ext. intros k Hk. rewrite Ha.
    by rewrite decide_False by done. }
  split; intros H i Hi.
  - destruct (decide (i = i0)) as [->|Hi'].
    + pose proof (H i0 Hi0) as H0. pose proof (H k0 Hk0) as H1.
      rewrite E0, Hb, decide_True in H0 by done.
      rewrite E1, Hb, decide_False in H1 by done. rewrite H1 in H0.
      remember (xsum (λ k, entry a i0 (at_index cp k) && x.[k]) (ncols a)) as s.
      clear -H0. by destruct s, (entry bb i0 j), (entry bb k0 j).
    + specialize (H i Hi). by rewrite E1, Hb, decide_False in H by done.
  - destruct (decide (i = i0)) as [->|Hi'].
    + rewrite E0, Hb, decide_True by done. by rewrite !H by done.
    + rewrite E1, Hb, decide_False by done. by apply H.
Qed.

Lemma index_lookup (p : list nat) y q : index p y = Some q → p !! q = Some y.
Proof.
  revert q. induction p as [|z p IH]; intros q; simpl; [done|].
  case_decide; [intros [= <-]; by subst|].
  destruct (index p y) as [q'|] eqn:Hq; [|done]. intros [= <-]. by apply IH.
Qed.

(** The bookkeeping of a swap exchanges the two values in the list. *)
Lemma record_swap_at (p : list nat) k pivot h p' h' :
  NoDup p → k ≠ pivot → record_swap p k pivot h = Ok (p', h') →
  ∀ q, q < length p → at_index p' q = tr k pivot (at_index p q).
Proof.
  intros Hnd Hne H. unfold record_swap in H.
  apply bind_Ok_inv in H as (f & h1 & E1 & H). apply lift_inv in E1 as [E1 ->].
  apply bind_Ok_inv in H as (fp & h2 & E2 & H). apply lift_inv in E2 as [E2 ->].
  injection H as <- <-.
  apply index_lookup in E1, E2.
  pose proof (lookup_lt_Some _ _ _ E1) as Hf.
  pose proof (lookup_lt_Some _ _ _ E2) as Hfp.
  intros q Hq. unfold at_index, tr.
  destruct (decide (q = fp)) as [->|Hq1].
  - rewrite list_lookup_insert_eq by (by rewrite length_insert).
    rewrite E2. simpl. by rewrite decide_False, decide_True by done.
  - rewrite list_lookup_insert_ne by done.
    destruct (decide (q = f)) as [->|Hq2].
    + rewrite list_lookup_insert_eq by done. rewrite E1. simpl.
      by rewrite decide_True.
    + rewrite list_lookup_insert_ne by done.
      destruct (lookup_lt_is_Some_2 p q Hq) as [y Hy]. rewrite Hy. simpl.
      rewrite !decide_False; [done| |].
      * intros ->. by apply Hq1, (NoDup_lookup p q fp pivot).
      * intros ->. by apply Hq2, (NoDup_lookup p q f k).
Qed.

End steps.

(** ** The loop on a system *)

Section primitives_inv.
Implicit Types (a : ndarray) (h : heap) (m : MatGF2) (l : loc).

Lemma swap_row_Ok h m l a i j u h' :
  objs h !! m = Some l → arrs h !! l = Some a → wf a →
  swap_row m (Z.of_nat i) (Z.of_nat j) h = Ok (u, h') →
  i < nrows a ∧ j < nrows a ∧
  ∃ a', h' = upd h l a' ∧ wf a' ∧ nrows a' = nrows a ∧ ncols a' = ncols a ∧
        ∀ q, body a' !! q = body a !! tr i j q.
Proof.
  intros Ho Ha Hwf H. erewrite run_swap_row in H by done.
  case_decide as Hd; [|done]. destruct Hd as [Hi Hj]. do 2 (split; [done|]).
  destruct (swap_rows_spec a i j Hwf Hi Hj) as (a' & Ha' & ?).
  rewrite Ha' in H. injection H as _ <-. eauto.
Qed.

Lemma swap_col_Ok h m l a i j u h' :
  objs h !! m = Some l → arrs h !! l = Some a → wf a →
  swap_col m (Z.of_nat i) (Z.of_nat j) h = Ok (u, h') →
  ∃ a', h' = upd h l a' ∧ wf a' ∧ nrows a' = nrows a ∧ ncols a' = ncols a ∧
        ∀ p q, entry a' p q = entry a p (tr i j q).
Proof.
  intros Ho Ha Hwf H. erewrite run_swap_col in H by done.
  destruct (np.swap_cols a i j) as [a'|] eqn:Ha'; [|done]. injection H as _ <-.
  assert (i < ncols a ∧ j < ncols a) as [Hi Hj].
  { unfold np.swap_cols in Ha'. by case_decide. }
  destruct (swap_cols_spec a i j Hwf Hi Hj) as (a'' & Ha'' & ?).
  assert (a'' = a') as -> by congruence. eauto.
Qed.

Lemma iadd_row_Ok h m l a i k u h' :
  objs h !! m = Some l → arrs h !! l = Some a → wf a →
  iadd_row m i k h = Ok (u, h') →
  i < nrows a ∧ k < nrows a ∧
  ∃ a', h' = upd h l a' ∧ wf a' ∧ nrows a' = nrows a ∧ ncols a' = ncols a ∧
        ∀ p q, entry a' p q = if decide (p = i) then xorb (entry a i q) (entry a k q)
                               else entry a p q.
Proof.
  intros Ho Ha Hwf H. erewrite run_iadd_row in H by done.
  destruct (np.iadd_row a i k) as [a'|] eqn:Ha'; [|done]. injection H as _ <-.
  assert (i < nrows a ∧ k < nrows a) as [Hi Hk].
  { unfold np.iadd_row in Ha'. destruct Hwf as [<- _].
    destruct (body a !! i) eqn:E1; [|done]. simpl in Ha'.
    destruct (body a !! k) eqn:E2; [|done].
    split; by eapply lookup_lt_Some. }
  do 2 (split; [done|]).
  destruct (iadd_row_spec a i k Hwf Hi Hk) as (a'' & Ha'' & ?).
  assert (a'' = a') as -> by congruence. eauto.
Qed.

Lemma getitem_Ok h m i j d h' : getitem m i j h = Ok (d, h') → h' = h.
Proof.
  unfold getitem. intros H.
  apply bind_Ok_inv in H as (l & h1 & E1 & H). apply get_data_inv in E1 as [_ ->].
  apply bind_Ok_inv in H as (a & h2 & E2 & H). apply load_inv in E2 as [_ ->].
  by apply lift_inv in H as [_ ->].
Qed.

End primitives_inv.

Section tracked.
Variables (mat_a b : MatGF2) (la lb : loc) (n c cb : nat).
Hypothesis apart : la ≠ lb.

Local Abbreviation sys := (sys mat_a b la lb n c cb).

(** The solutions before and after a part of the run are the same. *)
Local Abbreviation same_solutions a bb cp a' bb' cp' :=
  (∀ x j, holds a' bb' cp' x j ↔ holds a bb cp x j).

Lemma sys_upd_a h cp a bb a' :
  sys h cp a bb → wf a' → nrows a' = nrows a → ncols a' = ncols a →
  sys (upd h la a') cp a' bb.
Proof.
  intros [] Hwf Hr Hc. split; simpl; try done; try congruence.
  - apply list_lookup_insert_eq. by eapply lookup_lt_Some.
  - by rewrite list_lookup_insert_ne.
Qed.

Lemma sys_upd_b h cp a bb bb' :
  sys h cp a bb → wf bb' → nrows bb' = nrows bb → ncols bb' = ncols bb →
  sys (upd h lb bb') cp a bb'.
Proof.
  intros [] Hwf Hr Hc. split; simpl; try done; try congruence.
  - by rewrite list_lookup_insert_ne.
  - apply list_lookup_insert_eq. by eapply lookup_lt_Some.
Qed.

Lemma sys_perm h cp cp' a bb : sys h cp a bb → cp' ≡ₚ cp → sys h cp' a bb.
Proof. intros [] Hp. split; try done. by rewrite Hp. Qed.

Lemma tracked_row_swap h cp a bb i j rp rp' h' :
  sys h cp a bb →
  (swap_row mat_a (Z.of_nat i) (Z.of_nat j);;
   swap_row b (Z.of_nat i) (Z.of_nat j);;
   record_swap rp i j) h = Ok (rp', h') →
  ∃ a' bb', sys h' cp a' bb' ∧ same_solutions a bb cp a' bb' cp.
Proof.
  intros Hs H. pose proof Hs as [].
  apply bind_Ok_inv in H as (u1 & h1 & E1 & H).
  apply (swap_row_Ok h mat_a la a) in E1
    as (Hi & Hj & a' & -> & Hwf' & Hr' & Hc' & Hrows); [|done..].
  pose proof (sys_upd_a h cp a bb a' Hs Hwf' Hr' Hc') as Hs1.
  apply bind_Ok_inv in H as (u2 & h2 & E2 & H).
  destruct Hs1 as [].
  apply (swap_row_Ok _ b lb bb) in E2
    as (_ & _ & bb' & -> & Hwfb' & Hrb' & Hcb' & Hrowsb); [|done..].
  apply record_swap_inv in H as [_ ->].
  exists a', bb'. split.
  - apply (sys_upd_b _ cp a' bb bb'); [|done..]. by apply (sys_upd_a h cp a bb a').
  - intros x q. apply (holds_swap_rows a bb a' bb' cp x q i j); done.
Qed.

Lemma tracked_col_swap h cp a bb i j cp' h' :
  sys h cp a bb → i ≠ j →
  (swap_col mat_a (Z.of_nat i) (Z.of_nat j);; record_swap cp i j) h = Ok (cp', h') →
  ∃ a', sys h' cp' a' bb ∧ same_solutions a bb cp a' bb cp'.
Proof.
  intros Hs Hne H. pose proof Hs as [].
  apply bind_Ok_inv in H as (u1 & h1 & E1 & H).
  apply (swap_col_Ok h mat_a la a) in E1
    as (a' & -> & Hwf' & Hr' & Hc' & Hent); [|done..].
  pose proof H as Hrec. apply record_swap_inv in H as [Hp ->].
  exists a'. split.
  - eapply sys_perm; [|exact Hp]. by apply (sys_upd_a h cp a bb a').
  - intros x q. apply (holds_swap_cols a bb a' cp cp' x q i j); try done.
    intros k Hk. eapply record_swap_at; [|done|exact Hrec|].
    + rewrite sys_cp0. apply NoDup_seq.
    + rewrite sys_cp0, length_seq. lia.
Qed.

Lemma tracked_pivot_step h cp a bb row rp rp' cp' h' :
  sys h cp a bb → row < n → row < c →
  pivot_step mat_a b row rp cp h = Ok (Some (rp', cp'), h') →
  ∃ a' bb', sys h' cp' a' bb' ∧ same_solutions a bb cp a' bb' cp'.
Proof.
  intros Hs Hrow Hcol H. pose proof Hs as []. unfold pivot_step in H.
  erewrite bind_Ok in H by (eapply run_getitem; (done || lia)).
  destruct (entry a row row); simpl in H.
  { injection H as <- <- <-. exists a, bb. by split. }
  erewrite bind_Ok in H by (by apply run_get_data).
  erewrite bind_Ok in H by (by apply run_load).
  destruct (np.nonzero2 (np.slice_from a row row)) as [|[p0 p1] rest]; [done|].
  apply bind_Ok_inv in H as (rp1 & h1 & E1 & H).
  apply bind_Ok_inv in H as (cp1 & h2 & E2 & H).
  apply bind_Ok_inv in H as (d & h3 & E3 & H).
  apply getitem_Ok in E3 as ->. destruct d; [|done]. injection H as <- <- <-.
  assert (∃ a1 bb1, sys h1 cp a1 bb1 ∧ same_solutions a bb cp a1 bb1 cp)
    as (a1 & bb1 & Hs1 & Heq1).
  { destruct (decide (p0 + row ≠ row)).
    - by eapply tracked_row_swap.
    - injection E1 as <- <-. exists a, bb. by split. }
  assert (∃ a2, sys h2 cp1 a2 bb1 ∧ same_solutions a1 bb1 cp a2 bb1 cp1)
    as (a2 & Hs2 & Heq2).
  { destruct (decide (p1 + row ≠ row)).
    - eapply tracked_col_swap; [exact Hs1| |exact E2]. lia.
    - injection E2 as <- <-. exists a1. by split. }
  exists a2, bb1. split; [done|]. intros x q. by rewrite Heq2, Heq1.
Qed.

Lemma pivot_step_None h cp row rp h' :
  pivot_step mat_a b row rp cp h = Ok (None, h') → h' = h.
Proof.
  unfold pivot_step. intros H.
  apply bind_Ok_inv in H as (d & h1 & E1 & H). apply getitem_Ok in E1 as ->.
  destruct (negb d); [|done].
  apply bind_Ok_inv in H as (l & h1 & E1 & H). apply get_data_inv in E1 as [_ ->].
  apply bind_Ok_inv in H as (a & h2 & E2 & H). apply load_inv in E2 as [_ ->].
  destruct (np.nonzero2 _) as [|[p0 p1] rest]; [by injection H|].
  apply bind_Ok_inv in H as (rp1 & h1 & E1 & H).
  apply bind_Ok_inv in H as (cp1 & h2 & E2 & H).
  apply bind_Ok_inv in H as (d' & h3 & E3 & H).
  by destruct d'.
Qed.

Lemma tracked_for row (rows : list nat) cp : ∀ h a bb u h',
  sys h cp a bb → row < n → Forall (λ er, er ≠ row) rows →
  for_ rows (λ er _, iadd_row mat_a er row;; iadd_row b er row) tt h = Ok (u, h') →
  ∃ a' bb', sys h' cp a' bb' ∧ same_solutions a bb cp a' bb' cp.
Proof.
  induction rows as [|er rows IH]; intros h a bb u h' Hs Hrow Hne H; simpl in H.
  { injection H as <- <-. exists a, bb. by split. }
  apply Forall_cons in Hne as [Her Hne]. pose proof Hs as [].
  apply bind_Ok_inv in H as (u1 & h1 & E1 & H).
  apply bind_Ok_inv in E1 as (u2 & h2 & E2 & E1).
  apply (iadd_row_Ok h mat_a la a) in E2
    as (Hi & Hk & a' & -> & Hwf' & Hr' & Hc' & Hent); [|done..].
  pose proof (sys_upd_a h cp a bb a' Hs Hwf' Hr' Hc') as Hs1.
  pose proof Hs1 as [].
  apply (iadd_row_Ok _ b lb bb) in E1
    as (_ & _ & bb' & -> & Hwfb' & Hrb' & Hcb' & Hentb); [|done..].
  pose proof (sys_upd_b _ cp a' bb bb' Hs1 Hwfb' Hrb' Hcb') as Hs2.
  destruct u1.
  destruct (IH _ _ _ _ _ Hs2 Hrow Hne H) as (a2 & bb2 & Hs3 & Heq).
  exists a2, bb2. split; [done|]. intros x q. rewrite Heq.
  apply (holds_iadd a bb a' bb' cp x q er row); done.
Qed.

Lemma tracked_eliminate h cp a bb row u h' :
  sys h cp a bb → row < n →
  eliminate mat_a b row h = Ok (u, h') →
  ∃ a' bb', sys h' cp a' bb' ∧ same_solutions a bb cp a' bb' cp.
Proof.
  intros Hs Hrow H. pose proof Hs as []. unfold eliminate in H.
  erewrite bind_Ok in H by (by apply run_get_data).
  erewrite bind_Ok in H by (by apply run_load).
  destruct u. eapply tracked_for; [done..| |exact H].
  apply Forall_forall. by intros er [? _]%list_elem_of_filter.
Qed.

(** The loop of [forward_eliminate] keeps the solutions of the system. *)
Lemma tracked_loop (rng : list nat) : ∀ h cp a bb rp rp' cp' h',
  sys h cp a bb → (∀ i, i ∈ rng → i < n ∧ i < c) →
  eliminate_loop mat_a b rng rp cp h = Ok ((rp', cp'), h') →
  ∃ a' bb', sys h' cp' a' bb' ∧ same_solutions a bb cp a' bb' cp'.
Proof.
  induction rng as [|row rng IH]; intros h cp a bb rp rp' cp' h' Hs Hrng H;
    simpl in H.
  { injection H as <- <- <-. exists a, bb. by split. }
  destruct (Hrng row) as [Hr Hc]; [left|].
  apply bind_Ok_inv in H as (r & h1 & E1 & H).
  destruct r as [[rp1 cp1]|].
  - destruct (tracked_pivot_step _ _ _ _ _ _ _ _ _ Hs Hr Hc E1)
      as (a1 & bb1 & Hs1 & Heq1).
    apply bind_Ok_inv in H as (u & h2 & E2 & H).
    destruct (tracked_eliminate _ _ _ _ _ _ _ Hs1 Hr E2) as (a2 & bb2 & Hs2 & Heq2).
    destruct (IH _ _ _ _ _ _ _ _ Hs2 (λ i Hi, Hrng i (list_elem_of_further _ _ _ Hi)) H)
      as (a3 & bb3 & Hs3 & Heq3).
    exists a3, bb3. split; [done|]. intros x q. by rewrite Heq3, Heq2, Heq1.
  - apply pivot_step_None in E1 as ->. injection H as <- <- <-.
    exists a, bb. by split.
Qed.

End tracked.

Section solutions_run.
Implicit Types (a : ndarray) (h : heap) (cp : list nat) (y : list bool).

(** [forward_eliminate] up to its loop, for a right-hand side that is
    stored apart from the matrix to eliminate. *)
Lemma forward_eliminate_setup_apart h self l a b (copy : bool) bb :
  objs h !! self = Some l → arrs h !! l = Some a →
  rhs_array h (nrows a) b = Some bb → stored_apart h self b copy →
  ∃ mat_a b' la lb h2,
    la ≠ lb ∧ extends h h2 ∧
    objs h2 !! mat_a = Some la ∧ arrs h2 !! la = Some a ∧
    objs h2 !! b' = Some lb ∧ arrs h2 !! lb = Some bb ∧
    (if copy then mat_a ≠ self ∧ la ≠ l else mat_a = self ∧ la = l) ∧
    forward_eliminate self b copy h =
    (eliminate_loop mat_a b' (seq 0 (min (nrows a) (ncols a)))
       (seq 0 (nrows a)) (seq 0 (ncols a))
     ≫= λ p : list nat * list nat,
          (mret (mat_a, b', p.1, p.2) : M (MatGF2 * MatGF2 * list nat * list nat))) h2.
Proof.
  intros Ho Ha Hb Hapart.
  pose proof (lookup_lt_Some _ _ _ Ha) as Hl.
  pose proof (lookup_lt_Some _ _ _ Ho) as Hlo.
  set (h1 := if copy then Heap (objs h ++ [length (arrs h)]) (arrs h ++ [a]) else h).
  set (mat_a := if copy then length (objs h) else self).
  set (la := if copy then length (arrs h) else l).
  assert ((if copy then l ← get_data self; MatGF2_of_data l else mret self) h
          = Ok (mat_a, h1)) as E1.
  { subst h1 mat_a. destruct copy; [|done].
    erewrite bind_Ok by (by apply run_get_data). unfold MatGF2_of_data.
    by erewrite bind_Ok by (by apply run_load). }
  assert (objs h1 !! mat_a = Some la ∧ arrs h1 !! la = Some a ∧ extends h h1)
    as (Ho1 & Ha1 & Hext1).
  { subst h1 mat_a la. destruct copy; [|auto using extends_refl].
    simpl. rewrite !lookup_snoc. do 2 (split; [done|]).
    split; intros; simpl; by apply lookup_app_l_Some. }
  set (arg := match b with None => OfArray (np.zeros (nrows a) 1) | Some b0 => b0 end).
  assert (∃ lb h2, MatGF2_init arg h1 = Ok (length (objs h1), h2) ∧
            objs h2 !! length (objs h1) = Some lb ∧ arrs h2 !! lb = Some bb ∧
            extends h1 h2 ∧ la ≠ lb)
    as (lb & h2 & E2 & Ho2 & Hb2 & Hext2 & Hne).
  { assert (la < length (arrs h1)) as Hla.
    { subst h1 la. destruct copy; simpl; [rewrite length_app; simpl|]; lia. }
    assert (∀ x, arg = OfArray x → x = bb → ∃ lb h2,
              MatGF2_init arg h1 = Ok (length (objs h1), h2) ∧
              objs h2 !! length (objs h1) = Some lb ∧ arrs h2 !! lb = Some bb ∧
              extends h1 h2 ∧ la ≠ lb) as Hnew.
    { intros x -> ->.
      exists (length (arrs h1)), (Heap (objs h1 ++ [length (arrs h1)]) (arrs h1 ++ [bb])).
      split; [done|]. simpl. rewrite !lookup_snoc. do 2 (split; [done|]).
      split; [split; intros; simpl; by apply lookup_app_l_Some|]. lia. }
    subst arg. destruct b as [[mb|x]|]; simpl in Hb.
    - destruct (objs h !! mb) as [lb|] eqn:Hmb; [|done]. simpl in Hb.
      exists lb, (Heap (objs h1 ++ [lb]) (arrs h1)).
      split; [apply run_init_mat; by apply Hext1|].
      simpl. rewrite lookup_snoc. split; [done|].
      split; [by apply Hext1|].
      split; [split; intros; simpl; [by apply lookup_app_l_Some|done]|].
      apply lookup_lt_Some in Hb.
      subst la. destruct copy; [lia|].
      destruct Hapart as [?|Hapart]; [done|].
      intros ->. apply Hapart. trans (Some lb); [exact Hmb|symmetry; exact Ho].
    - injection Hb as ->. by apply (Hnew bb).
    - injection Hb as <-. by apply (Hnew (np.zeros (nrows a) 1)). }
  exists mat_a, (length (objs h1)), la, lb, h2.
  split; [done|]. split; [by eapply extends_trans|].
  split; [by apply Hext2|]. split; [by apply Hext2|].
  do 2 (split; [done|]).
  split; [subst mat_a la; destruct copy; [split; lia|done]|].
  unfold forward_eliminate.
  erewrite bind_Ok by exact E1.
  erewrite bind_Ok by (by apply run_get_data).
  erewrite bind_Ok by (by apply run_load).
  fold arg. erewrite bind_Ok by exact E2.
  unfold mbind, M_bind. by destruct (eliminate_loop _ _ _ _ _ h2) as [[[] ?]|].
Qed.

Lemma length_take_vec y cp : length (take_vec y cp) = length cp.
Proof. unfold take_vec. by rewrite length_fmap. Qed.

Lemma get_take_vec y cp k :
  k < length cp → (take_vec y cp).[k] = y.[at_index cp k].
Proof.
  intros Hk. unfold take_vec, at_index. rewrite list_lookup_fmap.
  by destruct (lookup_lt_is_Some_2 cp k Hk) as [q ->].
Qed.

(** The equations in the order of the unknowns are the matrix equation. *)
Lemma holds_solves_id a bb x j :
  wf a → wf bb → nrows bb = nrows a → length x = ncols a →
  holds a bb (seq 0 (ncols a)) x j ↔ solves a x bb j.
Proof.
  intros Hwf Hwfb Hr Hx. unfold solves, holds.
  rewrite matmul_column_vector; [|done..|by rewrite length_column].
  split; intros H i Hi.
  - rewrite get_column, <- H by done. apply xsum_ext. intros k Hk.
    by rewrite at_index_seq.
  - rewrite <- get_column, <- H by done. apply xsum_ext. intros k Hk.
    by rewrite at_index_seq.
Qed.

Lemma holds_solves_perm a bb cp y j :
  wf a → wf bb → nrows bb = nrows a → length y = ncols a →
  cp ≡ₚ seq 0 (ncols a) →
  holds a bb cp (take_vec y cp) j ↔ solves a y bb j.
Proof.
  intros Hwf Hwfb Hr Hy Hcp. unfold solves, holds.
  rewrite matmul_column_vector; [|done..|by rewrite length_column].
  assert (length cp = ncols a) as Hlen by (by rewrite Hcp, length_seq).
  assert (∀ i, xsum (λ k, entry a i (at_index cp k) && (take_vec y cp).[k]) (ncols a)
               = xsum (λ k, entry a i k && y.[k]) (ncols a)) as E.
  { intros i. rewrite <- (xsum_perm (λ k, entry a i k && y.[k]) cp) by done.
    apply xsum_ext. intros k Hk. by rewrite get_take_vec by lia. }
  split; intros H i Hi.
  - by rewrite get_column, <- H, E.
  - by rewrite E, H, get_column.
Qed.

End solutions_run.

Section elimination_tracked.

(** A run of [forward_eliminate] on a system: the store it ends in, and
    the solutions. *)
Lemma forward_eliminate_tracked h self l a b copy bb :
  objs h !! self = Some l → arrs h !! l = Some a → wf a →
  rhs_array h (nrows a) b = Some bb → wf bb → nrows bb = nrows a →
  stored_apart h self b copy →
  ∃ mat_a b' rp cp h' la lb a' bb',
    forward_eliminate self b copy h = Ok ((mat_a, b', rp, cp), h') ∧
    sys mat_a b' la lb (nrows a) (ncols a) (ncols bb) h' cp a' bb' ∧
    a' = reduced a (seq 0 (min (nrows a) (ncols a))) ∧
    (∀ y j, length y = ncols a →
       (solves a' y bb' j ↔ solves a (take_vec y cp) bb j)).
Proof.
  intros Ho Ha Hwf Hb Hwfb Hrows Hapart.
  pose proof (forward_eliminate_spec h self l a b copy bb Ho Ha Hwf Hb Hwfb Hapart)
    as Hspec.
  destruct (forward_eliminate self b copy h) as [[[[[mat_a b'] rp] cp] h']|e] eqn:Hrun;
    [|destruct Hspec; lia].
  destruct Hspec as (la0 & lb0 & _ & Hst & _).
  destruct (forward_eliminate_setup_apart h self l a b copy bb Ho Ha Hb Hapart)
    as (mat_a' & b'' & la & lb & h2 & Hne & Hext & Ho2 & Ha2 & Hob2 & Hb2 & _ & Heq).
  rewrite Heq in Hrun.
  apply bind_Ok_inv in Hrun as ([rp1 cp1] & h3 & Hloop & Hret).
  injection Hret as -> -> -> -> ->.
  assert (sys mat_a b' la lb (nrows a) (ncols a) (ncols bb) h2 (seq 0 (ncols a)) a bb)
    as Hs by (by split).
  assert (∀ i, i ∈ seq 0 (min (nrows a) (ncols a)) → i < nrows a ∧ i < ncols a)
    as Hrng by (intros i Hi%elem_of_seq; lia).
  destruct (tracked_loop mat_a b' la lb (nrows a) (ncols a) (ncols bb) Hne
              _ _ _ _ _ _ _ _ _ Hs Hrng Hloop)
    as (a' & bb' & Hs' & Hsame).
  exists mat_a, b', rp, cp, h', la, lb, a', bb'. do 2 (split; [done|]).
  destruct Hs' as []. split.
  - destruct Hst as []. unfold MatGF2, loc in *. congruence.
  - intros y j Hy.
    rewrite <- (holds_solves_perm a' bb' cp y j) by (done || congruence).
    rewrite Hsame.
    assert (length (take_vec y cp) = ncols a) as Hlen.
    { by rewrite length_take_vec, sys_cp0, length_seq. }
    by apply holds_solves_id.
Qed.



End elimination_tracked.

(** [forward_eliminate] keeps the solutions of the system: [y] solves the
    eliminated system exactly when [y[col_permutation]] solves the system
    the call was given. *)
Theorem forward_eliminate_solutions h self l a b copy bb :
  objs h !! self = Some l → arrs h !! l = Some a → wf a →
  rhs_array h (nrows a) b = Some bb → wf bb → nrows bb = nrows a →
  stored_apart h self b copy →
  ∃ mat_a b' rp cp h' a' bb',
    forward_eliminate self b copy h = Ok ((mat_a, b', rp, cp), h') ∧
    eval (data_of mat_a) h' = Ok a' ∧ eval (data_of b') h' = Ok bb' ∧
    ∀ y j, length y = ncols a →
      (solves a' y bb' j ↔ solves a (take_vec y cp) bb j).
Proof.
  intros Ho Ha Hwf Hb Hwfb Hrows Hapart.
  destruct (forward_eliminate_tracked h self l a b copy bb
              Ho Ha Hwf Hb Hwfb Hrows Hapart)
    as (mat_a & b' & rp & cp & h' & la & lb & a' & bb' & Hrun & Hs' & _ & Hsame).
  destruct Hs' as [].
  exists mat_a, b', rp, cp, h', a', bb'. split; [done|].
  split; [unfold eval; by erewrite run_data_of|].
  split; [unfold eval; by erewrite run_data_of|done].
Qed.

Lemma forward_eliminate_solutions_witness :
  ∃ mat_a b' rp cp h' a' bb',
    forward_eliminate 0 (Some (OfArray b3)) false (h0 P3)
    = Ok ((mat_a, b', rp, cp), h') ∧
    eval (data_of mat_a) h' = Ok a' ∧ eval (data_of b') h' = Ok bb' ∧
    ∀ y j, length y = 3 →
      (solves a' y bb' j ↔ solves P3 (take_vec y cp) b3 j).
Proof.
  apply (forward_eliminate_solutions (h0 P3) 0 0 P3 (Some (OfArray b3)) false b3);
    [reflexivity | reflexivity | apply wf_iff; reflexivity
    | reflexivity | apply wf_iff; reflexivity | reflexivity | by right].
Defined.

(** * The solutions [backward_substitute] describes *)

Section solver_values.
Implicit Types (a bb : ndarray) (b_col y : list bool) (ρ : nat → bool).

Lemma xsum_split (g : nat → bool) r c :
  r ≤ c → xsum g c = xorb (xsum g r) (xsum (λ k, g (r + k)) (c - r)).
Proof.
  intros Hr. replace c with (r + (c - r)) at 1 by lia.
  generalize (c - r). intros n. induction n as [|n IH]; simpl.
  - rewrite Nat.add_0_r. by destruct (xsum g r).
  - replace (r + S n) with (S (r + n)) by lia. simpl. rewrite IH.
    by destruct (xsum g r), (xsum _ n), (g (r + n)).
Qed.

Lemma value_xor_kernels ρ m (ks : list nat) : ∀ sol sol' v0,
  sympy_value ρ sol = Some v0 →
  ofold (λ sol k, s ← symbols m !! k; Some (Xor sol s)) sol ks = Some sol' →
  sympy_value ρ sol' = Some (xorb v0 (foldr xorb false (ρ <$> ks))).
Proof.
  induction ks as [|k ks IH]; intros sol sol' v0 Hv H; simpl in *.
  - injection H as <-. by rewrite xorb_false_r.
  - destruct (symbols m !! k) as [s|] eqn:Hs; [|done]. simpl in H.
    unfold symbols in Hs. rewrite list_lookup_fmap in Hs.
    destruct (seq 0 m !! k) as [k'|] eqn:Hk; [|done].
    apply lookup_seq in Hk as [-> _]. injection Hs as <-.
    assert (sympy_value ρ (Xor sol (Symbol k)) = Some (xorb v0 (ρ k))) as Hv1
      by (simpl; by rewrite Hv).
    rewrite (IH _ _ _ Hv1 H). by rewrite xorb_assoc.
Qed.

Lemma foldr_filter_xorb ρ (P : nat → Prop) `{!∀ k, Decision (P k)} (l : list nat) :
  foldr xorb false (ρ <$> filter P l)
  = foldr xorb false ((λ k, if decide (P k) then ρ k else false) <$> l).
Proof.
  induction l as [|k l IH]; [done|]. rewrite filter_cons. simpl.
  destruct (decide (P k)); simpl; [f_equal|]; apply IH.
Qed.

Lemma foldr_nonzero ρ (v : list bool) :
  foldr xorb false (ρ <$> np.nonzero v) = xsum (λ k, v.[k] && ρ k) (length v).
Proof.
  unfold np.nonzero. rewrite foldr_filter_xorb, <- xsum_foldr.
  apply xsum_ext. intros k Hk.
  destruct (lookup_lt_is_Some_2 v k Hk) as [x Hx]. rewrite Hx. simpl.
  destruct x; [by rewrite decide_True|by rewrite decide_False].
Qed.

(** The value of the entry of a pivot row. *)
Lemma pivot_entry_value ρ a b_col rank row e :
  wf a → rank ≤ ncols a → row < nrows a →
  pivot_entry a b_col rank (symbols (ncols a - rank)) row = Some e →
  sympy_value ρ e
  = Some (xorb b_col.[row] (xsum (λ k, entry a row (rank + k) && ρ k) (ncols a - rank))).
Proof.
  intros Hwf Hrank Hrow H. unfold pivot_entry in H.
  destruct (b_col !! row) as [bit|] eqn:Hbit; [|done]. simpl in H.
  destruct (wf_row a row Hwf Hrow) as (r & Hr & Hlr). rewrite Hr in H. simpl in H.
  assert (sympy_value ρ (if bit then strue else sfalse) = Some bit) as Hv
    by (by destruct bit).
  rewrite (value_xor_kernels ρ _ _ _ _ bit Hv H).
  rewrite foldr_nonzero, length_drop, Hlr. do 2 f_equal.
  apply xsum_ext. intros k Hk. rewrite lookup_drop.
  by rewrite (entry_row a row (rank + k) r Hr).
Qed.

Lemma mapM_app_Some {X Y} (f : X → option Y) l1 l2 k1 k2 :
  mapM f l1 = Some k1 → mapM f l2 = Some k2 → mapM f (l1 ++ l2) = Some (k1 ++ k2).
Proof. rewrite !mapM_Some. apply Forall2_app. Qed.

(** The values of a column that is not marked. *)
Lemma solve_col_values ρ a b_col rank x_col :
  wf a → rank ≤ nrows a → rank ≤ ncols a → rank ≤ length b_col →
  (∀ i, rank ≤ i → b_col.[i] = false) →
  solve_col a b_col rank (symbols (ncols a - rank)) = Some x_col →
  mapM (sympy_value ρ) x_col = Some (solution_vector a b_col rank ρ).
Proof.
  intros Hwf Hr Hc Hb Hz. unfold solve_col.
  rewrite <- drop_zero_iff in Hz. rewrite Hz. simpl.
  set (g := λ row, default nan (pivot_entry a b_col rank (symbols (ncols a - rank)) row)).
  assert (∀ row, row < rank →
            pivot_entry a b_col rank (symbols (ncols a - rank)) row = Some (g row)) as Hg.
  { intros row Hrow. unfold g.
    destruct (pivot_entry_spec a b_col rank row) as (e & -> & _); (done || lia). }
  rewrite (run_pivot_rows a b_col rank _ g) by done. simpl. rewrite app_nil_r.
  pose proof (run_free_rows rank (ncols a - rank) (ncols a - rank) 0 (g <$> seq 0 rank))
    as Hfree.
  rewrite Nat.add_0_r in Hfree. rewrite Hfree by lia. intros [= <-].
  unfold solution_vector. apply mapM_app_Some.
  - apply mapM_Some, Forall2_fmap, Forall_Forall2_diag, Forall_forall.
    intros row Hrow%elem_of_seq. apply pivot_entry_value; [done|done|lia|].
    apply Hg. lia.
  - apply mapM_Some, Forall2_fmap, Forall_Forall2_diag, Forall_forall. by intros.
Qed.

Lemma get_solution_pivot a b_col r ρ i :
  i < r →
  (solution_vector a b_col r ρ).[i]
  = xorb b_col.[i] (xsum (λ k, entry a i (r + k) && ρ k) (ncols a - r)).
Proof.
  intros Hi. unfold solution_vector.
  rewrite lookup_app_l by (by rewrite length_fmap, length_seq).
  by rewrite list_lookup_fmap, lookup_seq_lt.
Qed.

Lemma get_solution_free a b_col r ρ k :
  k < ncols a - r → (solution_vector a b_col r ρ).[r + k] = ρ k.
Proof.
  intros Hk. unfold solution_vector.
  rewrite lookup_app_r by (rewrite length_fmap, length_seq; lia).
  rewrite length_fmap, length_seq. replace (r + k - r) with k by lia.
  by rewrite list_lookup_fmap, lookup_seq_lt.
Qed.

Lemma length_solution_vector a b_col r ρ :
  r ≤ ncols a → length (solution_vector a b_col r ρ) = ncols a.
Proof.
  intros Hr. unfold solution_vector.
  rewrite length_app, !length_fmap, !length_seq. lia.
Qed.

(** The equations of a system in canonical form. *)
Lemma canon_equations a r y i :
  wf a → canon_at a r → i < nrows a →
  xsum (λ q, entry a i q && y.[q]) (ncols a)
  = if decide (i < r)
    then xorb y.[i] (xsum (λ k, entry a i (r + k) && y.[r + k]) (ncols a - r))
    else false.
Proof.
  intros Hwf (Hr & Hc & Hu & Hz) Hi. case_decide as Hlt.
  - rewrite (xsum_split _ r) by done. f_equal.
    rewrite (xsum_single _ r i Hlt).
    + by rewrite Hu, bool_decide_eq_true_2.
    + intros q Hq Hne. rewrite Hu by done. by rewrite bool_decide_eq_false_2.
  - rewrite (xsum_ext _ (λ _, false)), xsum_false; [done|].
    intros q _. by rewrite Hz by lia.
Qed.

Lemma canon_solves a bb r ρ j :
  wf a → wf bb → nrows bb = nrows a → canon_at a r →
  (∀ i, r ≤ i → entry bb i j = false) →
  solves a (solution_vector a (np.column bb j) r ρ) bb j.
Proof.
  intros Hwf Hwfb Hrows Hcan Hz. pose proof Hcan as (Hr & Hc & _).
  unfold solves. apply matmul_column_vector;
    [done|by apply length_solution_vector|by rewrite length_column|].
  intros i Hi. rewrite (canon_equations a r _ i Hwf Hcan Hi), get_column.
  case_decide as Hlt; [|by rewrite Hz by lia].
  rewrite get_solution_pivot by done. rewrite get_column.
  rewrite (xsum_ext (λ k, entry a i (r + k) && (solution_vector _ _ _ _).[r + k])
             (λ k, entry a i (r + k) && ρ k));
    [|intros k Hk; by rewrite get_solution_free].
  by destruct (entry bb i j), (xsum _ _).
Qed.

Lemma canon_solution_complete a bb r y j :
  wf a → wf bb → nrows bb = nrows a → canon_at a r → length y = ncols a →
  solves a y bb j →
  solution_vector a (np.column bb j) r (λ k, y.[r + k]) = y.
Proof.
  intros Hwf Hwfb Hrows Hcan Hy Hs. pose proof Hcan as (Hr & Hc & _).
  unfold solves in Hs.
  rewrite matmul_column_vector in Hs; [|done..|by rewrite length_column].
  apply row_ext; [by rewrite length_solution_vector|].
  rewrite length_solution_vector by done. intros q Hq.
  destruct (decide (q < r)) as [Hlt|Hge].
  - rewrite get_solution_pivot by done.
    specialize (Hs q ltac:(lia)).
    rewrite (canon_equations a r y q Hwf Hcan) in Hs by lia.
    rewrite decide_True in Hs by done. rewrite <- Hs.
    by destruct y.[q], (xsum _ _).
  - replace q with (r + (q - r)) by lia. rewrite get_solution_free by lia. done.
Qed.

Lemma canon_no_solution a bb r y j i :
  wf a → wf bb → nrows bb = nrows a → canon_at a r →
  r ≤ i → entry bb i j = true → ¬ solves a y bb j.
Proof.
  intros Hwf Hwfb Hrows Hcan Hi Hb Hs. unfold solves in Hs.
  assert (i < nrows a) as Hlt.
  { rewrite <- Hrows. destruct (decide (i < nrows bb)); [done|].
    rewrite entry_out_row in Hb by (done || lia). done. }
  assert (length y = ncols a) as Hy.
  { unfold np.matmul in Hs. case_decide as Hd; [|done]. by simpl in Hd. }
  rewrite matmul_column_vector in Hs; [|done..|by rewrite length_column].
  specialize (Hs i Hlt). rewrite (canon_equations a r y i Hwf Hcan Hlt) in Hs.
  rewrite decide_False, get_column in Hs by lia. congruence.
Qed.

End solver_values.

Section solver_columns.
Implicit Types (a bb : ndarray) (h : heap) (ρ : nat → bool).

Lemma solves_length a y bb j : solves a y bb j → length y = ncols a.
Proof.
  unfold solves, np.matmul. intros H. case_decide as Hd; [|done]. by simpl in Hd.
Qed.

Lemma column_values_array_T ρ (xcols : list (list sympy)) c j x_col ys :
  Forall (λ col, length col = c) xcols → xcols !! j = Some x_col →
  mapM (sympy_value ρ) x_col = Some ys →
  column_values ρ (array_T xcols) j c = Some ys.
Proof.
  intros Hlen Hj Hv. unfold column_values.
  pose proof (Forall_lookup_1 _ _ _ _ Hlen Hj) as Hl. simpl in Hl.
  rewrite mapM_Some in Hv. apply mapM_Some, Forall2_same_length_lookup.
  split; [rewrite length_seq; by rewrite <- (Forall2_length _ _ _ Hv)|].
  intros i k y [-> Hi]%lookup_seq Hy. simpl.
  rewrite (array_T_entry xcols c i j) by (done || by eapply lookup_lt_Some).
  rewrite Hj. simpl.
  destruct (lookup_lt_is_Some_2 x_col i) as [e He]; [lia|]. rewrite He. simpl.
  exact (Forall2_lookup_lr _ x_col ys i e y Hv He Hy).
Qed.

(** The columns [backward_substitute] builds on a matrix in canonical
    form. *)
Lemma run_backward_substitute_canon h self l a b bb :
  objs h !! self = Some l → arrs h !! l = Some a → wf a →
  eval (is_canonical_form self) h = Ok true →
  rhs_array h (nrows a) (Some b) = Some bb → wf bb → nrows bb = nrows a →
  ∃ r xcols h',
    eval (get_rank self) h = Ok r ∧ canon_at a r ∧
    backward_substitute self b h = Ok ((array_T xcols, symbols (ncols a - r)), h') ∧
    Forall (λ col, length col = ncols a) xcols ∧
    ∀ j, j < ncols bb →
      ∃ x_col, xcols !! j = Some x_col ∧
               solve_col a (np.column bb j) r (symbols (ncols a - r)) = Some x_col.
Proof.
  intros Ho Ha Hwf Hc Hb Hwfb Hrows. unfold eval in Hc.
  erewrite run_is_canonical_form in Hc by done. injection Hc as Hc.
  assert (rank_of a = diag_rank a) as Hrk by (unfold rank_of; by rewrite Hc).
  apply canonical_b_canon in Hc; [|done].
  destruct (run_backward_substitute h self l a b bb Ho Ha Hwf Hb Hwfb Hrows)
    as (xcols & h' & Hrun & _ & Hf).
  rewrite Hrk in *. pose proof Hc as (Hr & Hcc & _).
  exists (diag_rank a), xcols, h'. split; [|split; [done|split; [done|split]]].
  - unfold eval. destruct (run_get_rank h self l a Ho Ha Hwf) as (h1 & -> & _).
    by rewrite Hrk.
  - apply Forall_forall. intros col [k Hk]%list_elem_of_lookup.
    destruct (Forall2_lookup_r _ _ _ _ _ Hf Hk) as (j' & _ & Hsol).
    destruct (solve_col_spec a (np.column bb j') (diag_rank a) Hwf Hr Hcc)
      as (x & Hx & Hl & _); [rewrite length_column by done; lia|].
    congruence.
  - intros j Hj.
    destruct (Forall2_lookup_l _ _ _ j j Hf) as (x_col & Hx & Hsol);
      [by apply lookup_seq_lt|]. eauto.
Qed.

End solver_columns.

(** On a matrix in canonical form [backward_substitute] describes the
    solutions of [A x = b[:, j]] for every column whose entries from row
    [rank] on are zero: every choice of values for the free symbols gives a
    solution, and every solution is given by such a choice. *)
Theorem backward_substitute_solutions h self l a b bb :
  objs h !! self = Some l → arrs h !! l = Some a → wf a →
  eval (is_canonical_form self) h = Ok true →
  rhs_array h (nrows a) (Some b) = Some bb → wf bb → nrows bb = nrows a →
  ∃ r x kernels h',
    eval (get_rank self) h = Ok r ∧
    backward_substitute self b h = Ok ((x, kernels), h') ∧
    ∀ j, j < ncols bb → (∀ i, r ≤ i → entry bb i j = false) →
      (∀ ρ, ∃ y, column_values ρ x j (ncols a) = Some y ∧ solves a y bb j) ∧
      (∀ y, solves a y bb j → ∃ ρ, column_values ρ x j (ncols a) = Some y).
Proof.
  intros Ho Ha Hwf Hc Hb Hwfb Hrows.
  destruct (run_backward_substitute_canon h self l a b bb Ho Ha Hwf Hc Hb Hwfb Hrows)
    as (r & xcols & h' & Hrank & Hcan & Hrun & Hlen & Hcols).
  exists r, (array_T xcols), (symbols (ncols a - r)), h'.
  do 2 (split; [done|]). intros j Hj Hz.
  destruct (Hcols j Hj) as (x_col & Hx & Hsol). pose proof Hcan as (Hr & Hcc & _).
  assert (∀ ρ, column_values ρ (array_T xcols) j (ncols a)
               = Some (solution_vector a (np.column bb j) r ρ)) as Hval.
  { intros ρ. eapply column_values_array_T; [done..|].
    eapply solve_col_values; try done.
    - rewrite length_column by done. lia.
    - intros i Hi. rewrite get_column. by apply Hz. }
  split.
  - intros ρ. eexists. split; [apply Hval|]. by apply canon_solves.
  - intros y Hy. exists (λ k, y.[r + k]). rewrite Hval. f_equal.
    apply canon_solution_complete; try done. by eapply solves_length.
Qed.

Lemma backward_substitute_solutions_witness :
  ∃ r x kernels h',
    eval (get_rank 0) (h0 (Array 2 3 [[true; false; true]; [false; false; false]]))
    = Ok r ∧
    backward_substitute 0 (OfArray T21)
      (h0 (Array 2 3 [[true; false; true]; [false; false; false]]))
    = Ok ((x, kernels), h') ∧
    ∀ j, j < 1 → (∀ i, r ≤ i → entry T21 i j = false) →
      (∀ ρ, ∃ y, column_values ρ x j 3 = Some y ∧
                 solves (Array 2 3 [[true; false; true]; [false; false; false]]) y T21 j) ∧
      (∀ y, solves (Array 2 3 [[true; false; true]; [false; false; false]]) y T21 j →
            ∃ ρ, column_values ρ x j 3 = Some y).
Proof.
  apply (backward_substitute_solutions
           (h0 (Array 2 3 [[true; false; true]; [false; false; false]])) 0 0
           (Array 2 3 [[true; false; true]; [false; false; false]]) (OfArray T21) T21);
    [reflexivity | reflexivity | apply wf_iff; reflexivity | reflexivity
    | reflexivity | apply wf_iff; reflexivity | reflexivity].
Defined.

(** On a matrix in canonical form a column of [x] that carries the marker
    belongs to a system without solution. *)
Theorem backward_substitute_marker_no_solution h self l a b bb :
  objs h !! self = Some l → arrs h !! l = Some a → wf a →
  eval (is_canonical_form self) h = Ok true →
  rhs_array h (nrows a) (Some b) = Some bb → wf bb → nrows bb = nrows a →
  ∃ x kernels h',
    backward_substitute self b h = Ok ((x, kernels), h') ∧
    ∀ j i, j < ncols bb → i < ncols a → x !! i ≫= (.!! j) = Some nan →
      ∀ y, ¬ solves a y bb j.
Proof.
  intros Ho Ha Hwf Hc Hb Hwfb Hrows.
  destruct (run_backward_substitute_canon h self l a b bb Ho Ha Hwf Hc Hb Hwfb Hrows)
    as (r & xcols & h' & Hrank & Hcan & Hrun & Hlen & Hcols).
  exists (array_T xcols), (symbols (ncols a - r)), h'. split; [done|].
  intros j i Hj Hi Hnan y.
  destruct (Hcols j Hj) as (x_col & Hx & Hsol). pose proof Hcan as (Hr & Hcc & _).
  rewrite (array_T_entry xcols (ncols a) i j) in Hnan
    by (done || by eapply lookup_lt_Some).
  rewrite Hx in Hnan. simpl in Hnan.
  destruct (solve_col_spec a (np.column bb j) r Hwf Hr Hcc)
    as (x' & Hx' & _ & _ & Hok); [rewrite length_column by done; lia|].
  assert (x' = x_col) as -> by congruence.
  destruct (decide (np.count_nonzero1 (drop r (np.column bb j)) = 0)) as [Hz|Hnz].
  - rewrite drop_zero_iff in Hz. destruct (Hok Hz) as [Hne _].
    by pose proof (Forall_lookup_1 _ _ _ _ Hne Hnan).
  - destruct (count_nonzero1_pos _ Hnz) as [k Hk].
    rewrite lookup_drop, get_column in Hk.
    apply (canon_no_solution a bb r y j (r + k)); (done || lia).
Qed.

Lemma backward_substitute_marker_no_solution_witness :
  ∃ x kernels h',
    backward_substitute 0 (OfArray b2) (h0 (Array 2 2 [[true; true]; [false; false]]))
    = Ok ((x, kernels), h') ∧
    ∀ j i, j < 1 → i < 2 → x !! i ≫= (.!! j) = Some nan →
      ∀ y, ¬ solves (Array 2 2 [[true; true]; [false; false]]) y b2 j.
Proof.
  apply (backward_substitute_marker_no_solution
           (h0 (Array 2 2 [[true; true]; [false; false]])) 0 0
           (Array 2 2 [[true; true]; [false; false]]) (OfArray b2) b2);
    [reflexivity | reflexivity | apply wf_iff; reflexivity | reflexivity
    | reflexivity | apply wf_iff; reflexivity | reflexivity].
Defined.

(** * Canonical form, elimination and the solver together *)

(** [is_canonical_form] returns [True] exactly on the matrices
    [[I X]; [0 0]], with an identity block of any size; it changes nothing
    that exists. *)
Theorem is_canonical_form_iff h m l a :
  objs h !! m = Some l → arrs h !! l = Some a → wf a →
  ∃ r h', is_canonical_form m h = Ok (r, h') ∧ extends h h' ∧
          (r = true ↔ ∃ k, canon_at a k).
Proof.
  intros Ho Ha Hwf. erewrite run_is_canonical_form by done.
  eexists _, _. split; [done|]. split; [apply extends_after_check|].
  split.
  - intros Hc. exists (diag_rank a). by apply canonical_b_canon.
  - intros [k Hk]. by eapply canon_canonical_b.
Qed.

Lemma is_canonical_form_iff_witness :
  ∃ r h', is_canonical_form 0 (h0 gap3) = Ok (r, h') ∧ extends (h0 gap3) h' ∧
          (r = true ↔ ∃ k, canon_at gap3 k).
Proof.
  apply (is_canonical_form_iff (h0 gap3) 0 0 gap3);
    [reflexivity | reflexivity | apply wf_iff; reflexivity].
Defined.

(** The matrix [forward_eliminate] returns is [[I X]; [0 0]] with an
    identity block whose size is the rank of the matrix it was given, and
    it has that rank. *)
Theorem forward_eliminate_identity_block h self l a b copy bb :
  objs h !! self = Some l → arrs h !! l = Some a → wf a →
  rhs_array h (nrows a) b = Some bb → wf bb → nrows a ≤ nrows bb →
  stored_apart h self b copy →
  ∃ r mat_a b' rp cp h' a',
    eval (get_rank self) h = Ok r ∧
    forward_eliminate self b copy h = Ok ((mat_a, b', rp, cp), h') ∧
    eval (data_of mat_a) h' = Ok a' ∧
    canon_at a' r ∧ eval (get_rank mat_a) h' = Ok r.
Proof.
  intros Ho Ha Hwf Hb Hwfb Hrows Hapart.
  pose proof (forward_eliminate_spec h self l a b copy bb Ho Ha Hwf Hb Hwfb Hapart)
    as Hspec.
  destruct (forward_eliminate self b copy h) as [[[[[mat_a b'] rp] cp] h']|e] eqn:Hrun;
    [|destruct Hspec; lia].
  destruct Hspec as (la & lb & _ & Hst & _). destruct Hst as [].
  set (a' := reduced a (seq 0 (min (nrows a) (ncols a)))) in *.
  destruct (reduced_full a Hwf) as (Hwf' & Hr' & Hc' & Hcan). fold a' in Hwf', Hcan.
  assert (rank_of a' = diag_rank a') as Hrk'.
  { unfold rank_of. by rewrite (canon_canonical_b a' _ Hwf' Hcan). }
  assert (rank_of a = rank_of a') as Hrk.
  { apply same_card_rank_of; [done..|]. apply reduced_same_card; [done|].
    intros k Hk%elem_of_seq. lia. }
  exists (rank_of a), mat_a, b', rp, cp, h', a'.
  split; [|split; [done|split; [|split]]].
  - unfold eval. by destruct (run_get_rank h self l a Ho Ha Hwf) as (h1 & -> & _).
  - unfold eval. by erewrite run_data_of.
  - by rewrite Hrk, Hrk'.
  - unfold eval.
    destruct (run_get_rank h' mat_a la a' st_obj_a0 st_arr_a0 Hwf') as (h1 & -> & _).
    by rewrite Hrk.
Qed.

Lemma forward_eliminate_identity_block_witness :
  ∃ r mat_a b' rp cp h' a',
    eval (get_rank 0) (h0 P3) = Ok r ∧
    forward_eliminate 0 None true (h0 P3) = Ok ((mat_a, b', rp, cp), h') ∧
    eval (data_of mat_a) h' = Ok a' ∧
    canon_at a' r ∧ eval (get_rank mat_a) h' = Ok r.
Proof.
  apply (forward_eliminate_identity_block (h0 P3) 0 0 P3 None true (np.zeros 3 1));
    [reflexivity | reflexivity | apply wf_iff; reflexivity
    | reflexivity | apply wf_iff; reflexivity | simpl; lia | by left].
Defined.



Section solver_shape.

Lemma length_omap_lookup {X} (xs : list (list X)) i :
  Forall (λ col, i < length col) xs →
  length (omap (λ col, col !! i) xs) = length xs.
Proof.
  induction 1 as [|col xs Hcol _ IH]; [done|]. simpl.
  destruct (lookup_lt_is_Some_2 col i Hcol) as [e ->]. simpl. f_equal. exact IH.
Qed.

Lemma array_T_shape {X} (xs : list (list X)) c :
  Forall (λ col, length col = c) xs → xs ≠ [] →
  length (array_T xs) = c ∧ Forall (λ row, length row = length xs) (array_T xs).
Proof.
  intros Hxs Hne. unfold array_T. destruct xs as [|c0 xs0] eqn:E; [done|].
  rewrite <- E in *. assert (length c0 = c) as ->.
  { rewrite E in Hxs. by apply Forall_cons in Hxs as [? _]. }
  split; [by rewrite length_fmap, length_seq|].
  apply Forall_fmap, Forall_forall. intros i Hi%elem_of_seq. simpl.
  apply length_omap_lookup. eapply Forall_impl; [exact Hxs|]. simpl. lia.
Qed.

End solver_shape.

(** The shape of what [backward_substitute] returns: one free symbol for
    each column beyond the rank, and a solution matrix with a row for each
    column of the matrix and a column for each column of [b]; for a [b]
    without columns the solution matrix is empty. *)
Theorem backward_substitute_shape h self l a b bb :
  objs h !! self = Some l → arrs h !! l = Some a → wf a →
  rhs_array h (nrows a) (Some b) = Some bb → wf bb → nrows bb = nrows a →
  ∃ r x kernels h',
    eval (get_rank self) h = Ok r ∧
    backward_substitute self b h = Ok ((x, kernels), h') ∧
    kernels = symbols (ncols a - r) ∧ length kernels = ncols a - r ∧
    (0 < ncols bb → length x = ncols a ∧ Forall (λ row, length row = ncols bb) x) ∧
    (ncols bb = 0 → x = []).
Proof.
  intros Ho Ha Hwf Hb Hwfb Hrows. pose proof (rank_of_le a Hwf) as Hrk.
  destruct (run_backward_substitute h self l a b bb Ho Ha Hwf Hb Hwfb Hrows)
    as (xcols & h' & Hrun & _ & Hf).
  pose proof (Forall2_length _ _ _ Hf) as Hn. rewrite length_seq in Hn.
  assert (Forall (λ col, length col = ncols a) xcols) as Hlen.
  { apply Forall_forall. intros col [k Hk]%list_elem_of_lookup.
    destruct (Forall2_lookup_r _ _ _ _ _ Hf Hk) as (j' & _ & Hsol).
    destruct (solve_col_spec a (np.column bb j') (rank_of a) Hwf)
      as (x & Hx & Hl & _); [lia..|rewrite length_column by done; lia|].
    congruence. }
  exists (rank_of a), (array_T xcols), (symbols (ncols a - rank_of a)), h'.
  split; [|split; [done|split; [done|split; [apply length_symbols|split]]]].
  - unfold eval. by destruct (run_get_rank h self l a Ho Ha Hwf) as (h1 & -> & _).
  - intros Hpos. rewrite Hn. apply array_T_shape; [done|].
    intros ->. simpl in Hn. lia.
  - intros Hz. destruct xcols; [done|]. simpl in Hn. lia.
Qed.

Lemma backward_substitute_shape_witness :
  ∃ r x kernels h',
    eval (get_rank 0) (h0 A3) = Ok r ∧
    backward_substitute 0 (OfArray b3) (h0 A3) = Ok ((x, kernels), h') ∧
    kernels = symbols (3 - r) ∧ length kernels = 3 - r ∧
    (0 < 1 → length x = 3 ∧ Forall (λ row, length row = 1) x) ∧
    (1 = 0 → x = []).
Proof.
  apply (backward_substitute_shape (h0 A3) 0 0 A3 (OfArray b3) b3);
    [reflexivity | reflexivity | apply wf_iff; reflexivity
    | reflexivity | apply wf_iff; reflexivity | reflexivity].
Defined.



(** ** Positions out of range *)

Lemma insert_index_None n (z : Z) :
  ¬ (- Z.of_nat n ≤ z ≤ Z.of_nat n)%Z → numpy.insert_index n z = None.
Proof.
  intros H. unfold numpy.insert_index.
  rewrite decide_False by lia. by rewrite decide_False by lia.
Qed.

Lemma norm_index_None n (z : Z) :
  ¬ (- Z.of_nat n ≤ z < Z.of_nat n)%Z → norm_index n z = None.
Proof.
  intros H. unfold norm_index.
  rewrite decide_False by lia. by rewrite decide_False by lia.
Qed.

(** [add_row] and [remove_row] accept different positions.  On a matrix
    of [n] rows [add_row] raises [ValueError] exactly when the array to
    add does not have as many elements as the matrix has columns, and
    otherwise [IndexError] exactly when the position is outside
    [-n .. n]; [remove_row] raises [IndexError] exactly when the position
    is outside [-n .. n-1], and it raises nothing else.  So [n], the
    position at which [add_row] appends, is no position for [remove_row]
    on the same matrix. *)
Theorem add_remove_row_bounds h m l a v (z : Z) :
  objs h !! m = Some l → arrs h !! l = Some a → wf v →
  (add_row m (Some v) (Some z) h = Raise ValueError ↔ nrows v * ncols v ≠ ncols a) ∧
  (add_row m (Some v) (Some z) h = Raise IndexError ↔
   nrows v * ncols v = ncols a ∧ ¬ (- Z.of_nat (nrows a) ≤ z ≤ Z.of_nat (nrows a))%Z) ∧
  (remove_row m z h = Raise IndexError ↔
   ¬ (- Z.of_nat (nrows a) ≤ z < Z.of_nat (nrows a))%Z) ∧
  (∀ e, remove_row m z h = Raise e → e = IndexError).
Proof.
  intros Ho Ha Hwf.
  pose proof (run_add_row h m l a (Some v) (Some z) Ho Ha) as Hadd.
  pose proof (run_remove_row h m l a z Ho Ha) as Hrem.
  simpl in Hadd.
  assert (remove_row m z h = Raise IndexError ↔
          ¬ (- Z.of_nat (nrows a) ≤ z < Z.of_nat (nrows a))%Z) as Hr.
  { rewrite Hrem. unfold numpy.delete_axis0.
    destruct (decide (- Z.of_nat (nrows a) ≤ z < Z.of_nat (nrows a))%Z) as [Hin|Hout].
    - destruct (norm_index_range _ _ Hin) as (k & -> & _). simpl. split; [done|tauto].
    - rewrite (norm_index_None _ _ Hout). simpl. tauto. }
  assert (∀ e, remove_row m z h = Raise e → e = IndexError) as Hre.
  { intros e He. rewrite Hrem in He.
    destruct (numpy.delete_axis0 a z); congruence. }
  destruct (decide (nrows v * ncols v = ncols a)) as [Hs|Hs].
  - rewrite (reshape_row_size v (ncols a) Hwf Hs) in Hadd.
    unfold numpy.insert_axis0 in Hadd.
    destruct (decide (- Z.of_nat (nrows a) ≤ z ≤ Z.of_nat (nrows a))%Z) as [Hin|Hout].
    + destruct (insert_index_range _ _ Hin) as (p & Hp & _).
      rewrite Hp in Hadd. simpl in Hadd. rewrite Hadd.
      split; [|split; [|done]].
      * split; [done|tauto].
      * split; [done|tauto].
    + rewrite (insert_index_None _ _ Hout) in Hadd. simpl in Hadd. rewrite Hadd.
      split; [|split; [|done]].
      * split; [done|tauto].
      * split; [done|tauto].
  - rewrite (reshape_row_None v (ncols a) Hwf Hs) in Hadd. rewrite Hadd.
    split; [|split; [|done]].
    + split; [done|tauto].
    + split; [done|tauto].
Qed.

Lemma add_remove_row_bounds_witness :
  (add_row 0 (Some T21) (Some 3%Z) (h0 A2) = Raise ValueError ↔ 2 * 1 ≠ 2) ∧
  (add_row 0 (Some T21) (Some 3%Z) (h0 A2) = Raise IndexError ↔
   2 * 1 = 2 ∧ ¬ (- Z.of_nat 2 ≤ 3 ≤ Z.of_nat 2)%Z) ∧
  (remove_row 0 3 (h0 A2) = Raise IndexError ↔ ¬ (- Z.of_nat 2 ≤ 3 < Z.of_nat 2)%Z) ∧
  (∀ e, remove_row 0 3 (h0 A2) = Raise e → e = IndexError).
Proof.
  apply (add_remove_row_bounds (h0 A2) 0 0 A2 T21 3);
    [reflexivity | reflexivity | apply wf_iff; reflexivity].
Defined.
